(** * Kueue admission core: flavor assigner and workload helpers

    A shallow embedding of
    - [pkg/scheduler/flavorassigner] (the flavor assigner), and
    - [pkg/workload] (queue-order timestamp, admission bookkeeping),
    together with the properties stated about them.

    Conventions of the embedding.
    - Go [int64] values are integers of [Z]; every [+] and [-] of the source
      is written with the wrapping operations of module [int64].
    - Go maps whose iteration order cannot influence the result are finite
      maps ([gmap]); a nil map and an empty map are both [∅].
    - [workload.Requests] is ranged over by loops that [break], so the order
      in which a run visits the entries matters.  Go leaves that order
      unspecified; a [Requests] value is therefore the list of its entries in
      the order in which the run visits them, and every statement is
      quantified over that list.
    - A Go panic (nil dereference, index out of range) is the result [None]
      of the function in which it happens.
    - Helpers of Kubernetes libraries whose behaviour is not fixed by this
      repository are the fields of the class [KubeHelpers]. *)

From stdpp Require Import base strings gmap list sorting pretty.

(** ** Part I: definitions *)

(** *** 64-bit signed integers *)

Module int64.

Definition half : Z := 2 ^ 63.
Definition modulus : Z := 2 ^ 64.

Definition in_range (z : Z) : Prop := (- half <= z < half)%Z.

(** Two's complement reduction of an integer to the [int64] range. *)
Definition wrap (z : Z) : Z := ((z + half) mod modulus - half)%Z.

Definition add (a b : Z) : Z := wrap (a + b).
Definition sub (a b : Z) : Z := wrap (a - b).

Definition mul (a b : Z) : Z := wrap (a * b).

End int64.

(** A resource quantity of the data model: non-negative, and small enough
    that no sum of three of them leaves the [int64] range. *)
Definition quantity (z : Z) : Prop := (0 <= z < 2 ^ 61)%Z.

#[export] Instance quantity_dec (z : Z) : Decision (quantity z).
Proof. unfold quantity. apply _. Defined.

(** *** Kubernetes core types (the fields the assigner reads) *)

Record Taint := mkTaint {
  taint_Key : string;
  taint_Value : string;
  taint_Effect : string }.

Definition TaintEffectNoSchedule : string := "NoSchedule".
Definition TaintEffectNoExecute : string := "NoExecute".

Record Toleration := mkToleration {
  tol_Key : string;
  tol_Operator : string;
  tol_Value : string;
  tol_Effect : string }.

Record NodeSelectorRequirement := mkRequirement {
  nsr_Key : string;
  nsr_Operator : string;
  nsr_Values : list string }.

Record NodeSelectorTerm := mkTerm {
  MatchExpressions : list NodeSelectorRequirement;
  MatchFields : list NodeSelectorRequirement }.

Record NodeSelector := mkNodeSelector {
  NodeSelectorTerms : list NodeSelectorTerm }.

Record NodeAffinity := mkNodeAffinity {
  RequiredDuringSchedulingIgnoredDuringExecution : option NodeSelector }.

Record Affinity := mkAffinity {
  aff_NodeAffinity : option NodeAffinity }.

Record PodSpec := mkPodSpec {
  spec_NodeSelector : gmap string string;
  spec_Affinity : option Affinity;
  spec_Tolerations : list Toleration }.

(** [resource.Quantity] as built by [resource.NewQuantity] and
    [resource.NewMilliQuantity]: a value, its scale and its format. *)
Inductive QuantityFormat := DecimalSI | BinarySI.

Record Quantity := mkQuantity {
  q_value : Z;
  q_milli : bool;
  q_format : QuantityFormat }.

Definition ResourceCPU : string := "cpu".
Definition ResourceMemory : string := "memory".
Definition ResourceEphemeralStorage : string := "ephemeral-storage".
Definition ResourcePods : string := "pods".
Definition ResourceHugePagesPrefix : string := "hugepages-".

(** [metav1.Condition]; times are seconds on an integer clock whose zero is
    the zero [time.Time]. *)
Record Condition := mkCondition {
  cond_Type : string;
  cond_Status : string;
  cond_LastTransitionTime : Z;
  cond_Reason : string;
  cond_Message : string;
  cond_ObservedGeneration : Z }.

Definition ConditionTrue : string := "True".
Definition ConditionFalse : string := "False".
Definition ConditionUnknown : string := "Unknown".

(** Library helpers that the repository calls and does not define. *)
Class KubeHelpers := {
  (** [corev1.Toleration.ToleratesTaint] *)
  ToleratesTaint : Toleration → Taint → bool;
  (** [nodeaffinity.GetRequiredNodeAffinity(&corev1.Pod{Spec: spec}).Match]
      on a node that carries the given labels: the match and the error. *)
  SelectorMatch : PodSpec → gmap string string → bool * option string;
  (** the [%s] rendering of a [corev1.Taint] *)
  TaintString : Taint → string;
  (** [resource.Quantity.String] *)
  QuantityString : Quantity → string }.

(** [corev1helpers.FindMatchingUntoleratedTaint]: the first taint that passes
    the inclusion filter and that no toleration tolerates. *)
Definition FindMatchingUntoleratedTaint `{KubeHelpers}
    (taints : list Taint) (tolerations : list Toleration)
    (inclusionFilter : Taint → bool) : option Taint :=
  List.find (λ t, negb (existsb (λ tol, ToleratesTaint tol t) tolerations))
            (List.filter inclusionFilter taints).

(** [resource.Quantity.Value] and [resource.Quantity.MilliValue].  A quantity
    read at the scale at which it was made gives back the number it was made
    from; the conversions between units and milli-units are the library's. *)
Class QuantityHelpers := {
  (** [Value] of [NewMilliQuantity(v, _)] *)
  unitsOfMilli : Z → Z;
  (** [MilliValue] of [NewQuantity(v, _)] *)
  milliOfUnits : Z → Z }.

Definition Quantity_Value `{QuantityHelpers} (q : Quantity) : Z :=
  if q_milli q then unitsOfMilli (q_value q) else q_value q.

Definition Quantity_MilliValue `{QuantityHelpers} (q : Quantity) : Z :=
  if q_milli q then q_value q else milliOfUnits (q_value q).

(** *** Go's [sort] and [strings] *)

(** The order of Go's [<] on strings: lexicographic on the bytes. *)
Definition string_le (a b : string) : Prop := String.leb a b = true.

#[export] Instance string_le_dec (a b : string) : Decision (string_le a b).
Proof. unfold string_le. apply _. Defined.

(** [sort.Strings]: the strings in increasing order.  Equal strings cannot
    be told apart, so every sorting algorithm gives the same slice. *)
Definition sortStrings (l : list string) : list string := merge_sort string_le l.

(** [strings.Join] *)
Definition Join (elems : list string) (sep : string) : string := String.concat sep elems.

(** *** apimachinery condition helpers ([k8s.io/apimachinery/pkg/api/meta]) *)

Module apimeta.

(** [FindStatusCondition] returns a pointer to the first condition of the
    type; the pointer is the index of that condition in the slice. *)
Fixpoint FindStatusCondition (conditions : list Condition) (conditionType : string)
    : option nat :=
  match conditions with
  | [] => None
  | c :: rest =>
      if bool_decide (cond_Type c = conditionType) then Some O
      else S <$> FindStatusCondition rest conditionType
  end.

Definition IsZero (t : Z) : bool := bool_decide (t = 0%Z).

(** [SetStatusCondition]; [sysnow] is the reading of [time.Now] that the
    helper takes when the new condition carries a zero time. *)
Definition SetStatusCondition (sysnow : Z) (conditions : list Condition)
    (newCondition : Condition) : list Condition :=
  match FindStatusCondition conditions (cond_Type newCondition) with
  | None =>
      let t := if IsZero (cond_LastTransitionTime newCondition) then sysnow
               else cond_LastTransitionTime newCondition in
      conditions ++ [mkCondition (cond_Type newCondition) (cond_Status newCondition) t
                       (cond_Reason newCondition) (cond_Message newCondition)
                       (cond_ObservedGeneration newCondition)]
  | Some i =>
      match conditions !! i with
      | None => conditions
      | Some existing =>
          let changed := negb (bool_decide (cond_Status existing = cond_Status newCondition)) in
          let t :=
            if changed then
              if negb (IsZero (cond_LastTransitionTime newCondition))
              then cond_LastTransitionTime newCondition else sysnow
            else cond_LastTransitionTime existing in
          <[ i := mkCondition (cond_Type existing) (cond_Status newCondition) t
                    (cond_Reason newCondition) (cond_Message newCondition)
                    (cond_ObservedGeneration newCondition) ]> conditions
      end
  end.

(** [IsStatusConditionTrue]: the first condition of the type decides. *)
Fixpoint IsStatusConditionPresentAndEqual (conditions : list Condition)
    (conditionType : string) (status : string) : bool :=
  match conditions with
  | [] => false
  | c :: rest =>
      if bool_decide (cond_Type c = conditionType)
      then bool_decide (cond_Status c = status)
      else IsStatusConditionPresentAndEqual rest conditionType status
  end.

Definition IsStatusConditionTrue (conditions : list Condition) (conditionType : string)
    : bool :=
  IsStatusConditionPresentAndEqual conditions conditionType ConditionTrue.

End apimeta.

(** *** The kueue API types ([apis/kueue/v1beta1]) *)

Module kueue.

(** Modelled from the spec: the API package is not among the sources.  The
    condition types and eviction reasons are the strings of the external
    contract (spec, section 6); the records carry the fields that the
    sources read. *)
Definition WorkloadAdmitted : string := "Admitted".
Definition WorkloadEvicted : string := "Evicted".
Definition WorkloadEvictedByPreemption : string := "Preempted".
Definition WorkloadEvictedByPodsReadyTimeout : string := "PodsReadyTimeout".

Record ResourceFlavor := mkResourceFlavor {
  NodeLabels : gmap string string;
  NodeTaints : list Taint }.

Record PodSet := mkPodSet {
  ps_Name : string;
  ps_Count : Z;
  ps_TemplateSpec : PodSpec }.

Record PodSetAssignment := mkPodSetAssignment {
  api_Name : string;
  api_Flavors : gmap string string;
  api_ResourceUsage : list (string * Quantity) }.

Record Admission := mkAdmission {
  ClusterQueue : string;
  PodSetAssignments : list PodSetAssignment }.

Record WorkloadSpec := mkWorkloadSpec {
  PodSets : list PodSet;
  QueueName : string }.

Record WorkloadStatus := mkWorkloadStatus {
  Admission_ : option Admission;
  Conditions : list Condition }.

Record Workload := mkWorkload {
  Namespace : string;
  Name : string;
  CreationTimestamp : Z;
  Spec : WorkloadSpec;
  Status : WorkloadStatus }.

(** The fields of [metav1.TypeMeta] and [metav1.ObjectMeta] of a workload
    that the server-side-apply helpers read, beside its name and namespace. *)
Record ObjectIdentity := mkObjectIdentity {
  APIVersion : string;
  Kind : string;
  UID : string;
  Generation : Z;
  ResourceVersion : string }.

End kueue.

(** *** The cache's view of a cluster queue ([pkg/cache]) *)

(** [cache.FlavorResourceQuantities]: flavor, then resource, to quantity. *)
Abbreviation FlavorResourceQuantities := (gmap string (gmap string Z)).

(** [q[f][r]]: reading a missing entry of a Go map gives zero. *)
Definition frq_get (q : FlavorResourceQuantities) (f r : string) : Z :=
  default 0%Z (q !! f ≫= (.!! r)).

(** [q[f][r] = v], after [q[f]] has been made when it was nil. *)
Definition frq_set (q : FlavorResourceQuantities) (f r : string) (v : Z)
    : FlavorResourceQuantities :=
  <[ f := <[ r := v ]> (default ∅ (q !! f)) ]> q.

(** [q[f][r] += v], after [q[f]] has been made when it was nil. *)
Definition frq_add (q : FlavorResourceQuantities) (f r : string) (v : Z)
    : FlavorResourceQuantities :=
  frq_set q f r (int64.add (frq_get q f r) v).

Module cache.

(** Modelled from the spec: the declarations of package [cache] are not
    among the sources.  The records carry the fields that the assigner and
    its tests use: a quota is [Nominal] with an optional [BorrowingLimit]; a
    resource group is an ordered list of flavors with the resources they
    cover and the label keys of its flavors; a cluster queue indexes its
    groups by covered resource and carries its usage and its cohort
    (spec, section 3). *)
Record ResourceQuota := mkResourceQuota {
  Nominal : Z;
  BorrowingLimit : option Z }.

Record FlavorQuotas := mkFlavorQuotas {
  fq_Name : string;
  fq_Resources : gmap string ResourceQuota }.

Record ResourceGroup := mkResourceGroup {
  CoveredResources : gset string;
  Flavors : list FlavorQuotas;
  LabelKeys : gset string }.

Record Cohort := mkCohort {
  RequestableResources : FlavorResourceQuantities;
  cohort_Usage : FlavorResourceQuantities }.

Record ClusterQueue := mkClusterQueue {
  RGByResource : gmap string ResourceGroup;
  Usage : FlavorResourceQuantities;
  cq_Cohort : option Cohort }.

#[export] Instance ResourceQuota_eq_dec : EqDecision ResourceQuota.
Proof. solve_decision. Defined.

#[export] Instance FlavorQuotas_eq_dec : EqDecision FlavorQuotas.
Proof. solve_decision. Defined.

#[export] Instance ResourceGroup_eq_dec : EqDecision ResourceGroup.
Proof. solve_decision. Defined.

End cache.

(** *** Package [workload] *)

Module workload.
Import kueue.

(** [Requests]: resource name to value (milli-units for CPU), as the list of
    entries in visiting order. *)
Abbreviation Requests := (list (string * Z)).

(** [r[name]] *)
Fixpoint requests_get (r : Requests) (name : string) : Z :=
  match r with
  | [] => 0%Z
  | (n, v) :: rest => if bool_decide (n = name) then v else requests_get rest name
  end.

(** [r[name] = v]: an existing entry keeps its place, a new one is visited
    last. *)
Fixpoint requests_set (r : Requests) (name : string) (v : Z) : Requests :=
  match r with
  | [] => [(name, v)]
  | (n, x) :: rest =>
      if bool_decide (n = name) then (n, v) :: rest
      else (n, x) :: requests_set rest name v
  end.

Record PodSetResources := mkPodSetResources {
  psr_Name : string;
  psr_Requests : Requests;
  psr_Flavors : gmap string string }.

Record Info := mkInfo {
  Obj : Workload;
  TotalRequests : list PodSetResources;
  info_ClusterQueue : string }.

Definition ResourceQuantity (name : string) (v : Z) : Quantity :=
  if bool_decide (name = ResourceCPU) then mkQuantity v true DecimalSI
  else if bool_decide (name = ResourceMemory ∨ name = ResourceEphemeralStorage)
  then mkQuantity v false BinarySI
  else if String.prefix ResourceHugePagesPrefix name
  then mkQuantity v false BinarySI
  else mkQuantity v false DecimalSI.

Definition ToResourceList (r : Requests) : list (string * Quantity) :=
  (λ kv, (kv.1, ResourceQuantity kv.1 kv.2)) <$> r.

(** A pointer to a [metav1.Time] inside a workload: its creation timestamp,
    or the transition time of the condition at an index. *)
Inductive TimeRef :=
  | CreationTimestampRef
  | LastTransitionTimeRef (i : nat).

Definition loadTime (w : Workload) (p : TimeRef) : option Z :=
  match p with
  | CreationTimestampRef => Some (CreationTimestamp w)
  | LastTransitionTimeRef i => cond_LastTransitionTime <$> Conditions (Status w) !! i
  end.

Definition GetQueueOrderTimestamp (w : Workload) : TimeRef :=
  match apimeta.FindStatusCondition (Conditions (Status w)) WorkloadEvicted with
  | Some i =>
      match Conditions (Status w) !! i with
      | Some c =>
          if bool_decide (cond_Status c = ConditionTrue)
             && bool_decide (cond_Reason c = WorkloadEvictedByPodsReadyTimeout)
          then LastTransitionTimeRef i
          else CreationTimestampRef
      | None => CreationTimestampRef
      end
  | None => CreationTimestampRef
  end.

Definition IsAdmitted (w : Workload) : bool :=
  apimeta.IsStatusConditionTrue (Conditions (Status w)) WorkloadAdmitted.

Section Admission.

(** [api.TruncateConditionMessage] of [pkg/util/api], which is not among the
    sources. *)
Variable TruncateConditionMessage : string → string.

(** [now] is the reading of [metav1.Now]; [sysnow] the one that
    [SetStatusCondition] takes for a zero time. *)
Definition UnsetAdmissionWithCondition (now sysnow : Z) (wl : Workload)
    (reason message : string) : Workload :=
  let condition :=
    mkCondition WorkloadAdmitted ConditionFalse now reason
                (TruncateConditionMessage message) 0 in
  mkWorkload (Namespace wl) (Name wl) (CreationTimestamp wl) (Spec wl)
    (mkWorkloadStatus None
       (apimeta.SetStatusCondition sysnow (Conditions (Status wl)) condition)).

End Admission.

(** [now1] and [now2] are the two readings of [metav1.Now].  A nil
    [admission] is dereferenced for the message: the call panics. *)
Definition SetAdmission (now1 now2 sysnow : Z) (w : Workload)
    (admission : option Admission) : option Workload :=
  match admission with
  | None => None
  | Some adm =>
      let admittedCond :=
        mkCondition WorkloadAdmitted ConditionTrue now1 "Admitted"
                    ("Admitted by ClusterQueue " +:+ ClusterQueue adm) 0 in
      let conds := apimeta.SetStatusCondition sysnow (Conditions (Status w)) admittedCond in
      let conds' :=
        match apimeta.FindStatusCondition conds WorkloadEvicted with
        | Some i =>
            match conds !! i with
            | Some evictedCond =>
                <[ i := mkCondition (cond_Type evictedCond) ConditionFalse now2
                          (cond_Reason evictedCond) (cond_Message evictedCond)
                          (cond_ObservedGeneration evictedCond) ]> conds
            | None => conds
            end
        | None => conds
        end in
      Some (mkWorkload (Namespace w) (Name w) (CreationTimestamp w) (Spec w)
              (mkWorkloadStatus (Some adm) conds'))
  end.

Definition SetEvictedCondition (now sysnow : Z) (w : Workload)
    (reason message : string) : Workload :=
  let condition := mkCondition WorkloadEvicted ConditionTrue now reason message 0 in
  mkWorkload (Namespace w) (Name w) (CreationTimestamp w) (Spec w)
    (mkWorkloadStatus (Admission_ (Status w))
       (apimeta.SetStatusCondition sysnow (Conditions (Status w)) condition)).

Definition Key (w : Workload) : string := Namespace w +:+ "/" +:+ Name w.

Definition QueueKey (w : Workload) : string := Namespace w +:+ "/" +:+ QueueName (Spec w).

Section Requests.
Context `{QuantityHelpers}.

(** [limitrange.TotalRequests] of [pkg/util/limitrange], which is not among
    the sources. *)
Variable limitrangeTotalRequests : PodSpec → list (string * Quantity).

Definition ResourceValue (name : string) (q : Quantity) : Z :=
  if bool_decide (name = ResourceCPU) then Quantity_MilliValue q else Quantity_Value q.

(** [newRequests] writes every entry of the resource list into a new map. *)
Definition newRequests (rl : list (string * Quantity)) : Requests :=
  foldl (λ r nq, requests_set r nq.1 (ResourceValue nq.1 nq.2)) [] rl.

(** [scale] multiplies every value in place. *)
Definition scale (r : Requests) (f : Z) : Requests :=
  (λ nv, (nv.1, int64.mul nv.2 f)) <$> r.

Definition totalRequestsFromPodSets (wl : Workload) : list PodSetResources :=
  (λ ps, mkPodSetResources (ps_Name ps)
           (scale (newRequests (limitrangeTotalRequests (ps_TemplateSpec ps))) (ps_Count ps))
           ∅) <$> PodSets (Spec wl).

Definition totalRequestsFromAdmission (wl : Workload) : list PodSetResources :=
  match Admission_ (Status wl) with
  | None => []
  | Some admission =>
      (λ ps, mkPodSetResources (api_Name ps) (newRequests (api_ResourceUsage ps))
               (api_Flavors ps)) <$> PodSetAssignments admission
  end.

Definition NewInfo (w : Workload) : Info :=
  match Admission_ (Status w) with
  | Some admission =>
      mkInfo w (totalRequestsFromAdmission w) (ClusterQueue admission)
  | None => mkInfo w (totalRequestsFromPodSets w) ""
  end.

End Requests.

Definition admissionManagedConditions : list string := [WorkloadAdmitted; WorkloadEvicted].

Section ServerSideApply.

(** [kueue.GroupVersion.String()] of the API package, which is not among
    the sources. *)
Variable GroupVersionString : string.

(** A workload object is its identity and the fields of [Workload]; the
    copy has the zero value in every field that is not written. *)
Definition BaseSSAWorkload (id : ObjectIdentity) (w : Workload)
    : ObjectIdentity * Workload :=
  (mkObjectIdentity
     (if bool_decide (APIVersion id = "") then GroupVersionString else APIVersion id)
     (if bool_decide (Kind id = "") then "Workload" else Kind id)
     (UID id) (Generation id) "",
   mkWorkload (Namespace w) (Name w) 0 (mkWorkloadSpec [] "") (mkWorkloadStatus None [])).

(** The loop of [admissionPatch] over the managed condition types. *)
Definition managedConditions (conditions : list Condition) : list Condition :=
  foldl (λ copied conditionName,
           match apimeta.FindStatusCondition conditions conditionName with
           | Some i =>
               match conditions !! i with
               | Some existing => copied ++ [existing]
               | None => copied
               end
           | None => copied
           end)
        [] admissionManagedConditions.

Definition admissionPatch (id : ObjectIdentity) (w : Workload)
    : ObjectIdentity * Workload :=
  let wlCopy := BaseSSAWorkload id w in
  (wlCopy.1,
   mkWorkload (Namespace wlCopy.2) (Name wlCopy.2) (CreationTimestamp wlCopy.2)
     (Spec wlCopy.2)
     (mkWorkloadStatus (Admission_ (Status w))
        (Conditions (Status wlCopy.2) ++ managedConditions (Conditions (Status w))))).

End ServerSideApply.

End workload.

(** *** Package [testing] of [pkg/util]: the workload wrapper *)

Module utiltesting.
Import kueue.

(** [WorkloadWrapper.Admit]: the admission and a single Admitted condition;
    a nil admission is dereferenced for the message. *)
Definition Admit (now : Z) (w : Workload) (a : option Admission) : option Workload :=
  match a with
  | None => None
  | Some adm =>
      Some (mkWorkload (Namespace w) (Name w) (CreationTimestamp w) (Spec w)
              (mkWorkloadStatus (Some adm)
                 [mkCondition WorkloadAdmitted ConditionTrue now "AdmittedByTest"
                    ("Admitted by ClusterQueue " +:+ ClusterQueue adm) 0]))
  end.

End utiltesting.

(** *** Package [flavorassigner] *)

Module flavorassigner.
Import kueue cache workload.

(** The modes are ordered from lowest to highest preference. *)
Inductive FlavorAssignmentMode := NoFit | Preempt | Fit.

(** The [iota] value of a mode. *)
Definition mode_int (m : FlavorAssignmentMode) : Z :=
  match m with NoFit => 0 | Preempt => 1 | Fit => 2 end.

(** [m1 < m2] on modes. *)
Definition mode_ltb (m1 m2 : FlavorAssignmentMode) : bool :=
  (mode_int m1 <? mode_int m2)%Z.

Definition mode_eqb (m1 m2 : FlavorAssignmentMode) : bool :=
  (mode_int m1 =? mode_int m2)%Z.

Record Status := mkStatus {
  reasons : list string;
  err : option string }.

Definition Status_IsError (s : option Status) : bool :=
  match s with
  | Some s => bool_decide (is_Some (err s))
  | None => false
  end.

Definition Status_append (s : Status) (r : list string) : Status :=
  mkStatus (reasons s ++ r) (err s).

Record FlavorAssignment := mkFlavorAssignment {
  fa_Name : string;
  fa_Mode : FlavorAssignmentMode;
  fa_borrow : Z }.

Abbreviation ResourceAssignment := (gmap string FlavorAssignment).

Record PodSetAssignment := mkPSA {
  psa_Name : string;
  psa_Flavors : ResourceAssignment;
  psa_Status : option Status;
  psa_Requests : list (string * Quantity) }.

Record Assignment := mkAssignment {
  asg_PodSets : list PodSetAssignment;
  TotalBorrow : FlavorResourceQuantities;
  usage : FlavorResourceQuantities;
  representativeMode : option FlavorAssignmentMode }.

(** The loop [mode := Fit; for .. { if m < mode { mode = m } }] over the
    assigned flavors of a pod set. *)
Definition worstFlavorMode (flavors : ResourceAssignment) : FlavorAssignmentMode :=
  map_fold (λ _ flvAssignment mode,
              if mode_ltb (fa_Mode flvAssignment) mode then fa_Mode flvAssignment else mode)
           Fit flavors.

Definition PodSetAssignment_RepresentativeMode (psa : PodSetAssignment)
    : FlavorAssignmentMode :=
  match psa_Status psa with
  | None => Fit
  | Some _ =>
      if bool_decide (size (psa_Flavors psa) = 0%nat) then NoFit
      else worstFlavorMode (psa_Flavors psa)
  end.

(** The same loop over the pod sets of an assignment. *)
Definition worstPodSetMode (podSets : list PodSetAssignment) : FlavorAssignmentMode :=
  fold_left (λ mode ps,
               let psMode := PodSetAssignment_RepresentativeMode ps in
               if mode_ltb psMode mode then psMode else mode)
            podSets Fit.

(** [RepresentativeMode] has a pointer receiver and caches its result: it
    returns the mode and the assignment as it leaves it. *)
Definition Assignment_RepresentativeMode (a : Assignment)
    : FlavorAssignmentMode * Assignment :=
  if bool_decide (length (asg_PodSets a) = 0%nat) then (NoFit, a)
  else match representativeMode a with
       | Some m => (m, a)
       | None =>
           let mode := worstPodSetMode (asg_PodSets a) in
           (mode, mkAssignment (asg_PodSets a) (TotalBorrow a) (usage a) (Some mode))
       end.

Definition Borrows (a : Assignment) : bool :=
  bool_decide (size (TotalBorrow a) ≠ 0%nat).

Definition filterRequestedResources (req : Requests) (allowList : gset string)
    : Requests :=
  List.filter (λ nv, bool_decide (nv.1 ∈ allowList)) req.

(** The loop of [flavorSelector] over the required terms; [termsCopy] is the
    copy built so far. *)
Fixpoint filterTerms (allowedKeys : gset string) (terms termsCopy : list NodeSelectorTerm)
    : list NodeSelectorTerm :=
  match terms with
  | [] => termsCopy
  | t :: rest =>
      let expCopy :=
        List.filter (λ e, bool_decide (nsr_Key e ∈ allowedKeys)) (MatchExpressions t) in
      if bool_decide (length expCopy = 0%nat) then []
      else filterTerms allowedKeys rest (termsCopy ++ [mkTerm expCopy []])
  end.

(** [flavorSelector] up to its last call: the result is the pod spec
    [specCopy] that the source hands to [nodeaffinity.GetRequiredNodeAffinity];
    [SelectorMatch] stands for that call followed by [Match]. *)
Definition flavorSelector (spec : PodSpec) (allowedKeys : gset string) : PodSpec :=
  let nodeSelector : gmap string string :=
    if bool_decide (size (spec_NodeSelector spec) ≠ 0%nat)
    then filter (λ kv, kv.1 ∈ allowedKeys) (spec_NodeSelector spec)
    else ∅ in
  let affinity :=
    a ← spec_Affinity spec;
    na ← aff_NodeAffinity a;
    required ← RequiredDuringSchedulingIgnoredDuringExecution na;
    let termsCopy := filterTerms allowedKeys (NodeSelectorTerms required) [] in
    if bool_decide (length termsCopy ≠ 0%nat)
    then Some (mkAffinity (Some (mkNodeAffinity (Some (mkNodeSelector termsCopy)))))
    else None in
  mkPodSpec nodeSelector affinity [].

Section Assigner.
Context `{KubeHelpers}.

Definition msgBorrowingLimit (rName fName : string) : string :=
  "borrowing limit for " +:+ rName +:+ " in flavor " +:+ fName +:+ " exceeded".

Definition msgInsufficientCohort (rName fName : string) (lack : Z) : string :=
  "insufficient unused quota in cohort for " +:+ rName +:+ " in flavor " +:+ fName
  +:+ ", " +:+ QuantityString (ResourceQuantity rName lack) +:+ " more needed".

Definition msgInsufficientQuota (rName fName : string) : string :=
  "insufficient quota for " +:+ rName +:+ " in flavor " +:+ fName +:+ " in ClusterQueue".

Definition msgInsufficientUnused (rName fName : string) (lack : Z) : string :=
  "insufficient unused quota for " +:+ rName +:+ " in flavor " +:+ fName
  +:+ ", " +:+ QuantityString (ResourceQuantity rName lack) +:+ " more needed".

Definition msgUnavailable (resName : string) : string :=
  "resource " +:+ resName +:+ " unavailable in ClusterQueue".

Definition msgFlavorNotFound (fName : string) : string :=
  "flavor " +:+ fName +:+ " not found".

Definition msgUntolerated (taint : Taint) (fName : string) : string :=
  "untolerated taint " +:+ TaintString taint +:+ " in flavor " +:+ fName.

Definition msgNoAffinity (fName : string) : string :=
  "flavor " +:+ fName +:+ " doesn't match node affinity".

Definition fitsResourceQuota (fName rName : string) (val : Z) (cq : ClusterQueue)
    (rQuota : ResourceQuota) : FlavorAssignmentMode * Z * option Status :=
  let used := frq_get (Usage cq) fName rName in
  let mode := if (val <=? Nominal rQuota)%Z then Preempt else NoFit in
  if match BorrowingLimit rQuota with
     | Some limit => (int64.add (Nominal rQuota) limit <? int64.add used val)%Z
     | None => false
     end
  then (mode, 0%Z, Some (mkStatus [msgBorrowingLimit rName fName] None))
  else
    let cohortUsed :=
      match cq_Cohort cq with
      | Some cohort => frq_get (cohort_Usage cohort) fName rName
      | None => used
      end in
    let cohortAvailable :=
      match cq_Cohort cq with
      | Some cohort => frq_get (RequestableResources cohort) fName rName
      | None => Nominal rQuota
      end in
    let lack := int64.sub (int64.add cohortUsed val) cohortAvailable in
    if (lack <=? 0)%Z then
      let borrow := int64.sub (int64.add used val) (Nominal rQuota) in
      (Fit, if (borrow <? 0)%Z then 0%Z else borrow, None)
    else
      let msg :=
        match cq_Cohort cq with
        | Some _ => msgInsufficientCohort rName fName lack
        | None =>
            if mode_eqb mode NoFit then msgInsufficientQuota rName fName
            else msgInsufficientUnused rName fName lack
        end in
      (mode, 0%Z, Some (mkStatus [msg] None)).

(** The loop of [findFlavorForResourceGroup] over the filtered requests for
    one flavor: the assignments, the worst mode and the reasons so far.  A
    flavor without a quota for a requested resource makes
    [fitsResourceQuota] dereference nil. *)
Fixpoint fitRequests (a : Assignment) (cq : ClusterQueue) (flvQuotas : FlavorQuotas)
    (requests : Requests) (assignments : ResourceAssignment)
    (representativeMode : FlavorAssignmentMode) (reasons : list string)
    : option (ResourceAssignment * FlavorAssignmentMode * list string) :=
  match requests with
  | [] => Some (assignments, representativeMode, reasons)
  | (rName, val) :: rest =>
      match fq_Resources flvQuotas !! rName with
      | None => None
      | Some resQuota =>
          let '(mode, borrow, s) :=
            fitsResourceQuota (fq_Name flvQuotas) rName
              (int64.add val (frq_get (usage a) (fq_Name flvQuotas) rName)) cq resQuota in
          let reasons' :=
            match s with
            | Some s => reasons ++ flavorassigner.reasons s
            | None => reasons
            end in
          let representativeMode' :=
            if mode_ltb mode representativeMode then mode else representativeMode in
          if mode_eqb representativeMode' NoFit
          then Some (assignments, representativeMode', reasons')
          else fitRequests a cq flvQuotas rest
                 (<[ rName := mkFlavorAssignment (fq_Name flvQuotas) mode borrow ]> assignments)
                 representativeMode' reasons'
      end
  end.

(** What the body of the loop over the flavors of a group finds out about
    one flavor, before it is compared with the best assignment so far. *)
Inductive FlavorOutcome :=
  | Skipped (reason : string)
  | SelectorError (e : string)
  | Panicked
  | Evaluated (assignments : ResourceAssignment)
              (representativeMode : FlavorAssignmentMode) (reasons : list string).

Definition taintFilter (t : Taint) : bool :=
  bool_decide (taint_Effect t = TaintEffectNoSchedule)
  || bool_decide (taint_Effect t = TaintEffectNoExecute).

Definition tryFlavor (a : Assignment)
    (resourceFlavors : gmap string ResourceFlavor) (cq : ClusterQueue)
    (spec selector : PodSpec) (requests : Requests) (flvQuotas : FlavorQuotas)
    : FlavorOutcome :=
  match resourceFlavors !! fq_Name flvQuotas with
  | None => Skipped (msgFlavorNotFound (fq_Name flvQuotas))
  | Some flavor =>
      match FindMatchingUntoleratedTaint (NodeTaints flavor) (spec_Tolerations spec)
              taintFilter with
      | Some taint => Skipped (msgUntolerated taint (fq_Name flvQuotas))
      | None =>
          let '(match_, err) := SelectorMatch selector (NodeLabels flavor) in
          if negb match_ || bool_decide (is_Some err) then
            match err with
            | Some e => SelectorError e
            | None => Skipped (msgNoAffinity (fq_Name flvQuotas))
            end
          else
            match fitRequests a cq flvQuotas requests ∅ Fit [] with
            | None => Panicked
            | Some (assignments, representativeMode, reasons) =>
                Evaluated assignments representativeMode reasons
            end
      end
  end.

(** The loop of [findFlavorForResourceGroup] over the flavors of the group. *)
Fixpoint findFlavorLoop (a : Assignment)
    (resourceFlavors : gmap string ResourceFlavor) (cq : ClusterQueue)
    (spec selector : PodSpec) (requests : Requests) (flavors : list FlavorQuotas)
    (status : Status) (bestAssignment : ResourceAssignment)
    (bestAssignmentMode : FlavorAssignmentMode)
    : option (ResourceAssignment * option Status) :=
  match flavors with
  | [] => Some (bestAssignment, Some status)
  | flvQuotas :: rest =>
      match tryFlavor a resourceFlavors cq spec selector requests flvQuotas with
      | Skipped reason =>
          findFlavorLoop a resourceFlavors cq spec selector requests rest
            (Status_append status [reason]) bestAssignment bestAssignmentMode
      | SelectorError e => Some (∅, Some (mkStatus (reasons status) (Some e)))
      | Panicked => None
      | Evaluated assignments representativeMode rs =>
          let status' := Status_append status rs in
          if mode_ltb bestAssignmentMode representativeMode then
            if mode_eqb representativeMode Fit then Some (assignments, None)
            else findFlavorLoop a resourceFlavors cq spec selector requests rest
                   status' assignments representativeMode
          else findFlavorLoop a resourceFlavors cq spec selector requests rest
                 status' bestAssignment bestAssignmentMode
      end
  end.

Definition findFlavorForResourceGroup (a : Assignment) (rg : ResourceGroup)
    (requests : Requests) (resourceFlavors : gmap string ResourceFlavor)
    (cq : ClusterQueue) (spec : PodSpec)
    : option (ResourceAssignment * option Status) :=
  let status := mkStatus [] None in
  let requests := filterRequestedResources requests (CoveredResources rg) in
  let selector := flavorSelector spec (LabelKeys rg) in
  findFlavorLoop a resourceFlavors cq spec selector requests (Flavors rg)
    status ∅ NoFit.

(** Writing every entry of [flavors] into [psa.Flavors] is the union that
    prefers [flavors]. *)
Definition PodSetAssignment_append (psa : PodSetAssignment)
    (flavors : ResourceAssignment) (status : option Status) : PodSetAssignment :=
  mkPSA (psa_Name psa)
    (flavors ∪ psa_Flavors psa)
    (match psa_Status psa with
     | None => status
     | Some s =>
         match status with
         | Some s' => Some (mkStatus (reasons s ++ reasons s') (err s))
         | None => Some s
         end
     end)
    (psa_Requests psa).

Definition Assignment_append (a : Assignment) (requests : Requests)
    (psAssignment : PodSetAssignment) : Assignment :=
  map_fold
    (λ resource flvAssignment acc,
       let totalBorrow :=
         if (0 <? fa_borrow flvAssignment)%Z
         then frq_set (TotalBorrow acc) (fa_Name flvAssignment) resource
                (fa_borrow flvAssignment)
         else TotalBorrow acc in
       mkAssignment (asg_PodSets acc) totalBorrow
         (frq_add (usage acc) (fa_Name flvAssignment) resource
            (requests_get requests resource))
         (representativeMode acc))
    (mkAssignment (asg_PodSets a ++ [psAssignment]) (TotalBorrow a) (usage a)
       (representativeMode a))
    (psa_Flavors psAssignment).

(** The loop of [AssignFlavors] over the requested resources of one pod
    set; [spec] is [wl.Obj.Spec.PodSets[i].Template.Spec], whose index is out
    of range when it is [None]. *)
Fixpoint assignResources (assignment : Assignment)
    (resourceFlavors : gmap string ResourceFlavor) (cq : ClusterQueue)
    (spec : option PodSpec) (requests : Requests) (todo : Requests)
    (psAssignment : PodSetAssignment) : option PodSetAssignment :=
  match todo with
  | [] => Some psAssignment
  | (resName, _) :: rest =>
      if bool_decide (is_Some (psa_Flavors psAssignment !! resName)) then
        assignResources assignment resourceFlavors cq spec requests rest psAssignment
      else
        match RGByResource cq !! resName with
        | None =>
            Some (mkPSA (psa_Name psAssignment) ∅
                    (Some (mkStatus [msgUnavailable resName] None))
                    (psa_Requests psAssignment))
        | Some rg =>
            match spec with
            | None => None
            | Some spec' =>
                match findFlavorForResourceGroup assignment rg requests
                        resourceFlavors cq spec' with
                | None => None
                | Some (flavors, status) =>
                    if Status_IsError status || bool_decide (size flavors = 0%nat) then
                      Some (mkPSA (psa_Name psAssignment) ∅ status
                              (psa_Requests psAssignment))
                    else
                      assignResources assignment resourceFlavors cq (Some spec') requests
                        rest (PodSetAssignment_append psAssignment flavors status)
                end
            end
        end
  end.

(** The requests of the pod set at index [i] once the [pods] request has
    been written into them, which happens when the cluster queue covers
    [pods]; [wl.Obj.Spec.PodSets[i]] panics when the index is out of range. *)
Definition podSetRequests (podSets : list PodSet) (cq : ClusterQueue) (i : nat)
    (podSet : PodSetResources) : option Requests :=
  if bool_decide (is_Some (RGByResource cq !! ResourcePods)) then
    ps ← podSets !! i;
    Some (requests_set (psr_Requests podSet) ResourcePods (ps_Count ps))
  else Some (psr_Requests podSet).

(** The loop of [AssignFlavors] over the pod sets, from index [i] on. *)
Fixpoint assignPodSets (podSets : list PodSet)
    (resourceFlavors : gmap string ResourceFlavor) (cq : ClusterQueue)
    (i : nat) (todo : list PodSetResources) (assignment : Assignment)
    : option Assignment :=
  match todo with
  | [] => Some assignment
  | podSet :: rest =>
      match podSetRequests podSets cq i podSet with
      | None => None
      | Some requests =>
          let psAssignment :=
            mkPSA (psr_Name podSet) ∅ None (ToResourceList requests) in
          match assignResources assignment resourceFlavors cq
                  (ps_TemplateSpec <$> podSets !! i) requests requests psAssignment with
          | None => None
          | Some psAssignment =>
              let assignment := Assignment_append assignment requests psAssignment in
              if Status_IsError (psa_Status psAssignment)
                 || (bool_decide (length requests ≠ 0%nat)
                     && bool_decide (size (psa_Flavors psAssignment) = 0%nat))
              then Some (mkAssignment (asg_PodSets assignment) ∅ (usage assignment)
                           (representativeMode assignment))
              else assignPodSets podSets resourceFlavors cq (S i) rest assignment
          end
      end
  end.

Definition AssignFlavors (wl : Info) (resourceFlavors : gmap string ResourceFlavor)
    (cq : ClusterQueue) : option Assignment :=
  assignPodSets (PodSets (Spec (Obj wl))) resourceFlavors cq 0 (TotalRequests wl)
    (mkAssignment [] ∅ ∅ None).

End Assigner.

(** [Status.Message] sorts the reasons in place: the message, and the
    status as the call leaves it. *)
Definition Status_Message (s : option Status) : string * option Status :=
  match s with
  | None => ("", None)
  | Some s =>
      match err s with
      | Some e => (e, Some s)
      | None =>
          let sorted := sortStrings (reasons s) in
          (Join sorted ", ", Some (mkStatus sorted None))
      end
  end.

(** The loop of [Assignment.Message]; [builder] is what has been written so
    far.  The statuses of the pod sets are reached through pointers, so the
    pod sets that the loop went through are left with sorted reasons. *)
Fixpoint messageLoop (podSets : list PodSetAssignment) (builder : string)
    : string * list PodSetAssignment :=
  match podSets with
  | [] => (builder, [])
  | ps :: rest =>
      match psa_Status ps with
      | None =>
          let r := messageLoop rest builder in (r.1, ps :: r.2)
      | Some s =>
          match err s with
          | Some e =>
              ("failed to assign flavors to pod set " +:+ psa_Name ps +:+ ": " +:+ e,
               ps :: rest)
          | None =>
              let builder1 :=
                if bool_decide (String.length builder ≠ 0%nat) then builder +:+ "; "
                else builder in
              let m := Status_Message (Some s) in
              let r :=
                messageLoop rest
                  (builder1 +:+ "couldn't assign flavors to pod set " +:+ psa_Name ps
                   +:+ ": " +:+ m.1) in
              (r.1, mkPSA (psa_Name ps) (psa_Flavors ps) m.2 (psa_Requests ps) :: r.2)
          end
      end
  end.

Definition Assignment_Message (a : Assignment) : string * Assignment :=
  let r := messageLoop (asg_PodSets a) "" in
  (r.1, mkAssignment r.2 (TotalBorrow a) (usage a) (representativeMode a)).

Definition PodSetAssignment_toAPI (psa : PodSetAssignment) : kueue.PodSetAssignment :=
  mkPodSetAssignment (psa_Name psa) (fa_Name <$> psa_Flavors psa) (psa_Requests psa).

Definition Assignment_ToAPI (a : Assignment) : list kueue.PodSetAssignment :=
  PodSetAssignment_toAPI <$> asg_PodSets a.

End flavorassigner.

(** *** Vocabulary of the statements *)

Section Vocabulary.
Import cache workload flavorassigner.

(** The mode a request can reach when it does not fit: [Preempt] when the
    value is within the nominal quota, [NoFit] otherwise. *)
Definition candidateMode (v nominal : Z) : FlavorAssignmentMode :=
  if (v <=? nominal)%Z then Preempt else NoFit.

(** The cohort numbers of the fit check; without a cohort they are the
    numbers of the cluster queue. *)
Definition cohortUsedOf (cq : ClusterQueue) (f r : string) : Z :=
  match cq_Cohort cq with
  | Some cohort => frq_get (cohort_Usage cohort) f r
  | None => frq_get (Usage cq) f r
  end.

Definition cohortAvailableOf (cq : ClusterQueue) (f r : string) (nominal : Z) : Z :=
  match cq_Cohort cq with
  | Some cohort => frq_get (RequestableResources cohort) f r
  | None => nominal
  end.

(** The numbers of one fit check are quantities of the data model. *)
Record fitCheckInRange (cq : ClusterQueue) (f r : string) (v : Z)
    (rQuota : ResourceQuota) : Prop := {
  range_used : quantity (frq_get (Usage cq) f r);
  range_val : quantity v;
  range_nominal : quantity (Nominal rQuota);
  range_limit : ∀ limit, BorrowingLimit rQuota = Some limit → quantity limit;
  range_cohortUsed : quantity (cohortUsedOf cq f r);
  range_cohortAvailable : quantity (cohortAvailableOf cq f r (Nominal rQuota)) }.

(** None of the [int64] sums of one fit check wraps around: [u + v],
    [Nominal + BorrowingLimit], [cU + v], [cU + v - cA] and
    [u + v - Nominal]. *)
Record fitCheckNoOverflow (cq : ClusterQueue) (f r : string) (v : Z)
    (rQuota : ResourceQuota) : Prop := {
  sum_used : int64.in_range (frq_get (Usage cq) f r + v);
  sum_limit : ∀ limit, BorrowingLimit rQuota = Some limit →
                int64.in_range (Nominal rQuota + limit);
  sum_cohortUsed : int64.in_range (cohortUsedOf cq f r + v);
  sum_lack : int64.in_range (cohortUsedOf cq f r + v
                             - cohortAvailableOf cq f r (Nominal rQuota));
  sum_borrow : int64.in_range (frq_get (Usage cq) f r + v - Nominal rQuota) }.

(** The borrowing limit is set and [u + v] exceeds [Nominal + BorrowingLimit]. *)
Definition overBorrowingLimit (u v : Z) (rQuota : ResourceQuota) : Prop :=
  ∃ limit, BorrowingLimit rQuota = Some limit ∧ (Nominal rQuota + limit < u + v)%Z.

(** The Evicted condition of a workload: the one [FindStatusCondition]
    points to. *)
Definition evictedCondition (w : kueue.Workload) : option Condition :=
  i ← apimeta.FindStatusCondition (kueue.Conditions (kueue.Status w)) kueue.WorkloadEvicted;
  kueue.Conditions (kueue.Status w) !! i.

(** The workload has an Evicted condition with status True and reason
    PodsReadyTimeout. *)
Definition evictedByPodsReadyTimeout (w : kueue.Workload) : Prop :=
  ∃ c, evictedCondition w = Some c
       ∧ cond_Status c = ConditionTrue
       ∧ cond_Reason c = kueue.WorkloadEvictedByPodsReadyTimeout.

(** The condition [c] is stored at index [i] and is the condition of type
    [T] of the list: its first one, the API keeping one condition per
    type. *)
Definition firstOfType (conditions : list Condition) (T : string) (i : nat)
    (c : Condition) : Prop :=
  conditions !! i = Some c
  ∧ cond_Type c = T
  ∧ ∀ j c', (j < i)%nat → conditions !! j = Some c' → cond_Type c' ≠ T.

(** No condition of the list has type [T]. *)
Definition noneOfType (conditions : list Condition) (T : string) : Prop :=
  ∀ c, c ∈ conditions → cond_Type c ≠ T.

(** "The workload has a non-nil admission exactly when its Admitted
    condition is true". *)
Definition admissionMatchesCondition (w : kueue.Workload) : Prop :=
  is_Some (kueue.Admission_ (kueue.Status w)) ↔ IsAdmitted w = true.

(** The terms of the required node affinity of a pod spec, when the three
    pointers that lead to them are set. *)
Definition requiredTerms (spec : PodSpec) : option (list NodeSelectorTerm) :=
  a ← spec_Affinity spec;
  na ← aff_NodeAffinity a;
  NodeSelectorTerms <$> RequiredDuringSchedulingIgnoredDuringExecution na.

(** The match expressions of a term whose key is allowed. *)
Definition allowedExpressions (allowedKeys : gset string) (t : NodeSelectorTerm)
    : list NodeSelectorRequirement :=
  List.filter (λ e, bool_decide (nsr_Key e ∈ allowedKeys)) (MatchExpressions t).

(** Modelled from the spec: [LabelKeys] is computed by the cache, which is
    not among the sources; it holds the "label keys that appear on any
    flavor in this group" (spec, section 4.1, step 1), the flavors being
    those of the catalogue that the group names. *)
Definition groupLabelKeys (resourceFlavors : gmap string kueue.ResourceFlavor)
    (rg : ResourceGroup) : gset string :=
  ⋃ ((λ flvQuotas,
        match resourceFlavors !! fq_Name flvQuotas with
        | Some flavor => dom (kueue.NodeLabels flavor)
        | None => ∅
        end) <$> Flavors rg).

(** The key labels some flavor of the group. *)
Definition labelsSomeFlavor (resourceFlavors : gmap string kueue.ResourceFlavor)
    (rg : ResourceGroup) (k : string) : Prop :=
  ∃ flvQuotas flavor,
    flvQuotas ∈ Flavors rg
    ∧ resourceFlavors !! fq_Name flvQuotas = Some flavor
    ∧ is_Some (kueue.NodeLabels flavor !! k).

End Vocabulary.

Section AssignerVocabulary.
Context `{KubeHelpers}.
Import kueue cache workload flavorassigner.

(** Some toleration of the pod tolerates the taint. *)
Definition toleratedByPod (spec : PodSpec) (taint : Taint) : Prop :=
  ∃ tol, tol ∈ spec_Tolerations spec ∧ ToleratesTaint tol taint = true.

(** The taint has effect [NoSchedule] or [NoExecute]. *)
Definition schedulingTaint (taint : Taint) : Prop :=
  taint_Effect taint = TaintEffectNoSchedule ∨ taint_Effect taint = TaintEffectNoExecute.

(** The pod-set-level mode of a flavor: the mode it was evaluated to, and
    [NoFit] for a flavor that was skipped. *)
Definition outcomeMode (o : FlavorOutcome) : FlavorAssignmentMode :=
  match o with
  | Evaluated _ mode _ => mode
  | _ => NoFit
  end.

Definition outcomeAssignments (o : FlavorOutcome) : ResourceAssignment :=
  match o with
  | Evaluated assignments _ _ => assignments
  | _ => ∅
  end.

Definition outcomeReasons (o : FlavorOutcome) : list string :=
  match o with
  | Skipped reason => [reason]
  | Evaluated _ _ reasons => reasons
  | _ => []
  end.

(** The flavor was skipped or evaluated, and did not reach [Fit]. *)
Definition belowFit (o : FlavorOutcome) : Prop :=
  match o with
  | Skipped _ => True
  | Evaluated _ mode _ => mode ≠ Fit
  | _ => False
  end.

(** The best mode among the outcomes. *)
Definition bestOutcomeMode (os : list FlavorOutcome) : FlavorAssignmentMode :=
  foldr (λ o best, if mode_ltb best (outcomeMode o) then outcomeMode o else best)
        NoFit os.

(** The assignments of the first outcome, in declared order, that achieves
    the best mode; nothing when the best mode is [NoFit]. *)
Definition firstBestAssignments (os : list FlavorOutcome) : ResourceAssignment :=
  if mode_eqb (bestOutcomeMode os) NoFit then ∅
  else
    match List.find (λ o, mode_eqb (outcomeMode o) (bestOutcomeMode os)) os with
    | Some o => outcomeAssignments o
    | None => ∅
    end.

(** What the assigner finds out about the flavors of a group for the
    requests of a pod set. *)
Definition groupOutcome (a : Assignment)
    (resourceFlavors : gmap string ResourceFlavor) (cq : ClusterQueue)
    (spec : PodSpec) (rg : ResourceGroup) (requests : Requests)
    (flvQuotas : FlavorQuotas) : FlavorOutcome :=
  tryFlavor a resourceFlavors cq spec (flavorSelector spec (LabelKeys rg))
    (filterRequestedResources requests (CoveredResources rg)) flvQuotas.

(** What it means for the result of a resource group that the flavor
    declared between [pre] and [post] is skipped with [reason]: the flavors
    declared after it are tried, and the skipped flavor leaves [reason] and
    nothing else.
    - The first later flavor to reach [Fit] is returned with a nil status.
    - A later flavor whose selector fails with an error ends the loop with
      that error and the reasons up to there, [reason] among them.
    - When no later flavor reaches [Fit], the status holds the reasons of
      all the flavors in declared order, with [reason] alone for the skipped
      flavor, and the assignment is the best of the other flavors. *)
Definition skippedWith (a : Assignment)
    (resourceFlavors : gmap string ResourceFlavor) (cq : ClusterQueue)
    (spec : PodSpec) (rg : ResourceGroup) (requests : Requests)
    (pre post : list FlavorQuotas) (reason : string) : Prop :=
  let outcome := groupOutcome a resourceFlavors cq spec rg requests in
  let result := findFlavorForResourceGroup a rg requests resourceFlavors cq spec in
  let reasonsOf fqs := concat ((λ fq, outcomeReasons (outcome fq)) <$> fqs) in
  (∀ mid next rest asg rs,
     post = mid ++ next :: rest →
     Forall (λ fq, belowFit (outcome fq)) mid →
     outcome next = Evaluated asg Fit rs →
     result = Some (asg, None))
  ∧ (∀ mid next rest e,
       post = mid ++ next :: rest →
       Forall (λ fq, belowFit (outcome fq)) mid →
       outcome next = SelectorError e →
       result = Some (∅, Some (mkStatus (reasonsOf pre ++ reason :: reasonsOf mid)
                                        (Some e))))
  ∧ (Forall (λ fq, belowFit (outcome fq)) post →
     result = Some (firstBestAssignments (outcome <$> pre ++ post),
                    Some (mkStatus (reasonsOf pre ++ reason :: reasonsOf post) None))).

(** The assignment [fa] of resource [r] is what the fit check of the
    flavor [flvQuotas] gave for an entry of [requests], on top of the usage
    that the assignment [a] has accumulated. *)
Definition producedBy (a : Assignment) (cq : ClusterQueue) (flvQuotas : FlavorQuotas)
    (requests : Requests) (r : string) (fa : FlavorAssignment) : Prop :=
  fa_Name fa = fq_Name flvQuotas
  ∧ ∃ v rQuota,
      (r, v) ∈ requests
      ∧ fq_Resources flvQuotas !! r = Some rQuota
      ∧ (fitsResourceQuota (fq_Name flvQuotas) r
           (int64.add v (frq_get (usage a) (fq_Name flvQuotas) r)) cq rQuota).1
        = (fa_Mode fa, fa_borrow fa).

(** The same, for some flavor of some indexed group of the cluster queue
    and the requests that the group covers. *)
Definition checked (a : Assignment) (cq : ClusterQueue) (requests : Requests)
    (r : string) (fa : FlavorAssignment) : Prop :=
  ∃ r0 rg flvQuotas,
    RGByResource cq !! r0 = Some rg
    ∧ flvQuotas ∈ Flavors rg
    ∧ producedBy a cq flvQuotas
        (filterRequestedResources requests (CoveredResources rg)) r fa.

(** The group of the resource yields flavors for the requests. *)
Definition assignable (a : Assignment)
    (resourceFlavors : gmap string ResourceFlavor) (cq : ClusterQueue)
    (spec : PodSpec) (requests : Requests) (r : string) : Prop :=
  ∃ rg flavors status,
    RGByResource cq !! r = Some rg
    ∧ findFlavorForResourceGroup a rg requests resourceFlavors cq spec
      = Some (flavors, status)
    ∧ Status_IsError status = false
    ∧ flavors ≠ ∅.

(** Every assigned flavor has mode [Fit]. *)
Definition allFit (flavors : ResourceAssignment) : Prop :=
  ∀ r fa, flavors !! r = Some fa → fa_Mode fa = Fit.

(** What the assigner establishes for the pod sets of an assignment: a nil
    status comes with flavors that all fit. *)
Definition nilStatusFits (ps : PodSetAssignment) : Prop :=
  psa_Status ps = None → allFit (psa_Flavors ps).

End AssignerVocabulary.

(** *** Well-formed inputs *)

Section WellFormed.
Import kueue cache workload flavorassigner.

(** The index of a cluster queue maps a resource to a group that covers
    it, and maps every resource that an indexed group covers to that group:
    a resource belongs to one group. *)
Definition indexConsistent (cq : ClusterQueue) : Prop :=
  map_Forall (λ r rg,
                r ∈ CoveredResources rg
                ∧ set_Forall (λ r', RGByResource cq !! r' = Some rg) (CoveredResources rg))
             (RGByResource cq).

(** Every flavor of a group has a quota for every resource that the group
    covers ("all flavors in a group must cover exactly the same resource
    set"), and the flavors of a group have different names. *)
Definition groupsWellFormed (cq : ClusterQueue) : Prop :=
  map_Forall (λ _ rg,
                Forall (λ flvQuotas,
                          set_Forall (λ r, is_Some (fq_Resources flvQuotas !! r))
                                     (CoveredResources rg))
                       (Flavors rg)
                ∧ NoDup (fq_Name <$> Flavors rg))
             (RGByResource cq).

Definition quantitiesInRange (q : FlavorResourceQuantities) : Prop :=
  map_Forall (λ _ inner, map_Forall (λ _ v, quantity v) inner) q.

Definition quotaInRange (rQuota : ResourceQuota) : Prop :=
  quantity (Nominal rQuota)
  ∧ match BorrowingLimit rQuota with
    | Some limit => quantity limit
    | None => True
    end.

#[export] Instance quotaInRange_dec (rQuota : ResourceQuota) :
  Decision (quotaInRange rQuota).
Proof. unfold quotaInRange. destruct (BorrowingLimit rQuota); apply _. Defined.

(** The numbers of the snapshot are quantities of the data model. *)
Definition queueInRange (cq : ClusterQueue) : Prop :=
  quantitiesInRange (Usage cq)
  ∧ match cq_Cohort cq with
    | Some cohort =>
        quantitiesInRange (RequestableResources cohort)
        ∧ quantitiesInRange (cohort_Usage cohort)
    | None => True
    end
  ∧ map_Forall (λ _ rg,
                  Forall (λ flvQuotas,
                            map_Forall (λ _ rQuota, quotaInRange rQuota)
                                       (fq_Resources flvQuotas))
                         (Flavors rg))
               (RGByResource cq).

#[export] Instance queueInRange_dec (cq : ClusterQueue) : Decision (queueInRange cq).
Proof.
  unfold queueInRange, quantitiesInRange. destruct (cq_Cohort cq); apply _.
Defined.

(** The entries of a [Requests] map have different keys and hold
    quantities. *)
Definition requestsWellFormed (requests : Requests) : Prop :=
  NoDup (requests.*1) ∧ Forall (λ rv, quantity rv.2) requests.

(** The workload has a pod set for every entry of its total requests, with
    well-formed requests and a pod count that is a quantity. *)
Definition workloadWellFormed (wl : Info) : Prop :=
  length (TotalRequests wl) = length (PodSets (Spec (Obj wl)))
  ∧ Forall (λ podSet, requestsWellFormed (psr_Requests podSet)) (TotalRequests wl)
  ∧ Forall (λ ps, quantity (ps_Count ps)) (PodSets (Spec (Obj wl))).

(** The quota of a cluster queue for a resource on a flavor: that of the
    flavor of the name in the group of the resource. *)
Definition quotaOf (cq : ClusterQueue) (f r : string) : option ResourceQuota :=
  rg ← RGByResource cq !! r;
  flvQuotas ← List.find (λ flvQuotas, bool_decide (fq_Name flvQuotas = f)) (Flavors rg);
  fq_Resources flvQuotas !! r.

(** [q[f][r]] as a lookup. *)
Definition frq_lookup (q : FlavorResourceQuantities) (f r : string) : option Z :=
  q !! f ≫= (.!! r).

(** The bounds of the claim for a usage [t] of resource [r] on flavor [f]
    added to the snapshot: within [Nominal + BorrowingLimit] when the limit
    is set, and within what the cohort can give (the nominal quota when
    there is no cohort). *)
Definition withinQuota (cq : ClusterQueue) (f r : string) (rQuota : ResourceQuota)
    (t : Z) : Prop :=
  (∀ limit, BorrowingLimit rQuota = Some limit →
     (frq_get (Usage cq) f r + t <= Nominal rQuota + limit)%Z)
  ∧ (∀ cohort, cq_Cohort cq = Some cohort →
       (frq_get (cohort_Usage cohort) f r + t
        <= frq_get (RequestableResources cohort) f r)%Z)
  ∧ (cq_Cohort cq = None → (frq_get (Usage cq) f r + t <= Nominal rQuota)%Z).

(** The value of a resource in a resource list. *)
Fixpoint resourceListValue (rl : list (string * Quantity)) (r : string) : Z :=
  match rl with
  | [] => 0%Z
  | (n, q) :: rest => if bool_decide (n = r) then q_value q else resourceListValue rest r
  end.

(** Modelled from the spec: the cache, which adds the usage of an admitted
    workload to the cluster queue and the cohort, is not among the sources.
    The usage [usage(w,f,r)] of the invariants of section 3 is, per pod set
    of the admission, the request for [r] when [r] is assigned to [f]; the
    admission carries the flavors and the requests of the pod-set
    assignment ([toAPI]). *)
Definition podSetUsage (ps : PodSetAssignment) (f r : string) : Z :=
  match psa_Flavors ps !! r with
  | Some fa =>
      if bool_decide (fa_Name fa = f) then resourceListValue (psa_Requests ps) r
      else 0%Z
  | None => 0%Z
  end.

(** The usage of the workload: the sum over its pod sets. *)
Definition workloadUsage (podSets : list PodSetAssignment) (f r : string) : Z :=
  foldr (λ ps acc, (podSetUsage ps f r + acc)%Z) 0%Z podSets.

(** The usage that an assignment has accumulated is the usage of its pod
    sets, and every accumulated entry is a quantity within the quota of its
    flavor and resource. *)
Definition usageWithinQuota (cq : ClusterQueue) (a : Assignment) : Prop :=
  ∀ f r,
    frq_get (usage a) f r = workloadUsage (asg_PodSets a) f r
    ∧ ∀ t, frq_lookup (usage a) f r = Some t →
        quantity t ∧ ∃ rQuota, quotaOf cq f r = Some rQuota ∧ withinQuota cq f r rQuota t.

(** The modes, as a list, of the assigned flavors of a pod set. *)
Definition flavorModes (flavors : ResourceAssignment) : list FlavorAssignmentMode :=
  (λ kv, fa_Mode kv.2) <$> map_to_list flavors.

(** [m] is the minimum of the modes [ms] under [NoFit < Preempt < Fit],
    the minimum of no modes being [Fit]. *)
Definition isMinimumMode (m : FlavorAssignmentMode) (ms : list FlavorAssignmentMode)
    : Prop :=
  (∀ x, x ∈ ms → (mode_int m <= mode_int x)%Z)
  ∧ (ms = [] → m = Fit)
  ∧ (ms ≠ [] → m ∈ ms).

End WellFormed.

(** *** Vocabulary of the further properties *)

Section ConditionVocabulary.

(** The condition of a type in a list of conditions: the one
    [FindStatusCondition] points to. *)
Definition conditionOfType (conditions : list Condition) (T : string) : option Condition :=
  i ← apimeta.FindStatusCondition conditions T; conditions !! i.

(** The time that [SetStatusCondition] stores for a condition that carries
    the transition time [t]. *)
Definition storedTime (sysnow t : Z) : Z := if apimeta.IsZero t then sysnow else t.

(** The byte of the slash, and the strings that hold none. *)
Definition slash : Ascii.ascii := Ascii.ascii_of_nat 47.

Definition hasNoSlash (s : string) : Prop := ¬ In slash (String.list_ascii_of_string s).

#[export] Instance hasNoSlash_dec (s : string) : Decision (hasNoSlash s).
Proof. unfold hasNoSlash. apply not_dec. apply (In_dec Ascii.ascii_dec). Defined.

End ConditionVocabulary.

Section AssignmentVocabulary.
Context `{KubeHelpers}.
Import kueue cache workload flavorassigner.

(** The flavor named [f] passes the gates of the assigner for the pod spec
    and the resource group: it is in the catalogue, the pod tolerates each
    of its [NoSchedule] and [NoExecute] taints, and the selector of the
    group matches its labels without error. *)
Definition passesGates (resourceFlavors : gmap string ResourceFlavor) (spec : PodSpec)
    (rg : ResourceGroup) (f : string) : Prop :=
  ∃ flavor,
    resourceFlavors !! f = Some flavor
    ∧ (∀ taint, taint ∈ NodeTaints flavor → schedulingTaint taint →
         toleratedByPod spec taint)
    ∧ SelectorMatch (flavorSelector spec (LabelKeys rg)) (NodeLabels flavor) = (true, None).

(** The flavor [fa] of resource [r] in [flavors] belongs to what the
    assigner evaluated for one flavor of the group of [r]: that evaluation
    did not end in [NoFit], and all of its assignments are in [flavors]. *)
Definition assignedByGroup (a : Assignment)
    (resourceFlavors : gmap string ResourceFlavor) (cq : ClusterQueue)
    (spec : PodSpec) (requests : Requests) (flavors : ResourceAssignment)
    (r : string) (fa : FlavorAssignment) : Prop :=
  ∃ rg flvQuotas assignments mode reasons,
    RGByResource cq !! r = Some rg
    ∧ flvQuotas ∈ Flavors rg
    ∧ groupOutcome a resourceFlavors cq spec rg requests flvQuotas
      = Evaluated assignments mode reasons
    ∧ mode ≠ NoFit
    ∧ assignments ⊆ flavors
    ∧ assignments !! r = Some fa.

(** Some assigned flavor has mode [Preempt]. *)
Definition hasPreempt (flavors : ResourceAssignment) : Prop :=
  ∃ r fa, flavors !! r = Some fa ∧ fa_Mode fa = Preempt.

(** The test after which [AssignFlavors] gives up: the status of the pod
    set is an error, or the pod set has requests and no flavors. *)
Definition podSetFailed (ps : PodSetAssignment) : bool :=
  Status_IsError (psa_Status ps)
  || (bool_decide (length (psa_Requests ps) ≠ 0%nat)
      && bool_decide (size (psa_Flavors ps) = 0%nat)).

(** The pod-set assignment [ps] is what the loop of [AssignFlavors] computes
    for the pod set at index [i], with requests [requests] once the [pods]
    request is written, on top of the assignment [a0]. *)
Definition podSetRun (podSets : list PodSet)
    (resourceFlavors : gmap string ResourceFlavor) (cq : ClusterQueue) (i : nat)
    (podSet : PodSetResources) (a0 : Assignment) (requests : Requests)
    (ps : PodSetAssignment) : Prop :=
  podSetRequests podSets cq i podSet = Some requests
  ∧ assignResources a0 resourceFlavors cq (ps_TemplateSpec <$> podSets !! i)
      requests requests (mkPSA (psr_Name podSet) ∅ None (ToResourceList requests))
    = Some ps.

End AssignmentVocabulary.

Section BorrowVocabulary.
Import kueue cache workload flavorassigner.

(** By how much the usage of the cluster queue with [t] more of resource
    [r] on flavor [f] exceeds the nominal quota, when it does. *)
Definition excessOverNominal (cq : ClusterQueue) (f r : string) (t : Z) : option Z :=
  rQuota ← quotaOf cq f r;
  let excess := (frq_get (Usage cq) f r + t - Nominal rQuota)%Z in
  if (0 <? excess)%Z then Some excess else None.

(** Some pod set has resource [r] assigned to flavor [f]. *)
Definition assignedTo (podSets : list PodSetAssignment) (f r : string) : Prop :=
  ∃ ps fa, ps ∈ podSets ∧ psa_Flavors ps !! r = Some fa ∧ fa_Name fa = f.

(** [TotalBorrow] holds, for what the pod sets have been assigned, the
    excess over the nominal quota of the usage accumulated so far; the
    accumulated usage has an entry for exactly what has been assigned. *)
Definition borrowIsExcess (cq : ClusterQueue) (a : Assignment) : Prop :=
  ∀ f r,
    frq_lookup (TotalBorrow a) f r
    = frq_lookup (usage a) f r ≫= excessOverNominal cq f r
    ∧ (is_Some (frq_lookup (usage a) f r) ↔ assignedTo (asg_PodSets a) f r).

(** The usage that an assignment has accumulated is the usage of its pod
    sets, and every accumulated entry is a quantity. *)
Definition usageTracked (a : Assignment) : Prop :=
  ∀ f r,
    frq_get (usage a) f r = workloadUsage (asg_PodSets a) f r
    ∧ ∀ t, frq_lookup (usage a) f r = Some t → quantity t.

(** What the mode and the borrowing of an assigned flavor say about the
    usage [t] of the resource on the flavor: [Preempt] comes with a usage
    within the nominal quota and borrows nothing; [Fit] comes with a usage
    within the bounds of the fit check and borrows the excess over the
    nominal quota. *)
Definition modeExplained (cq : ClusterQueue) (f r : string) (rQuota : ResourceQuota)
    (t : Z) (fa : FlavorAssignment) : Prop :=
  match fa_Mode fa with
  | NoFit => False
  | Preempt => (t <= Nominal rQuota)%Z ∧ fa_borrow fa = 0%Z
  | Fit =>
      withinQuota cq f r rQuota t
      ∧ fa_borrow fa = Z.max 0 (frq_get (Usage cq) f r + t - Nominal rQuota)
  end.

End BorrowVocabulary.

(** *** A reference implementation of the library helpers

    It follows the Kubernetes libraries on the inputs of the repository's
    tests (tolerations with the operators [Equal] and [Exists]; selectors
    with the operators [In], [NotIn], [Exists] and [DoesNotExist]) and is
    used to replay those tests; the theorems hold for every
    implementation. *)

Module reference.

Definition toleratesTaint (t : Toleration) (taint : Taint) : bool :=
  if negb (bool_decide (tol_Effect t = "")) && negb (bool_decide (tol_Effect t = taint_Effect taint))
  then false
  else if negb (bool_decide (tol_Key t = "")) && negb (bool_decide (tol_Key t = taint_Key taint))
  then false
  else if bool_decide (tol_Operator t = "" ∨ tol_Operator t = "Equal")
  then bool_decide (tol_Value t = taint_Value taint)
  else bool_decide (tol_Operator t = "Exists").

(** One requirement against the labels: [None] for an operator that the
    reference does not interpret. *)
Definition requirementMatches (labels : gmap string string)
    (e : NodeSelectorRequirement) : option bool :=
  let present := bool_decide (is_Some (labels !! nsr_Key e)) in
  let among :=
    match labels !! nsr_Key e with
    | Some v => bool_decide (v ∈ nsr_Values e)
    | None => false
    end in
  if bool_decide (nsr_Operator e = "In") then Some among
  else if bool_decide (nsr_Operator e = "NotIn") then Some (negb among)
  else if bool_decide (nsr_Operator e = "Exists") then Some present
  else if bool_decide (nsr_Operator e = "DoesNotExist") then Some (negb present)
  else None.

Definition termMatches (labels : gmap string string) (t : NodeSelectorTerm)
    : option bool :=
  match MatchExpressions t with
  | [] => Some false
  | es =>
      foldr (λ e acc, b ← requirementMatches labels e; b' ← acc; Some (b && b'))
            (Some true) es
  end.

Definition selectorMatch (spec : PodSpec) (labels : gmap string string)
    : bool * option string :=
  if negb (bool_decide (map_Forall (λ k v, labels !! k = Some v) (spec_NodeSelector spec)))
  then (false, None)
  else
    match (a ← spec_Affinity spec; na ← aff_NodeAffinity a;
           RequiredDuringSchedulingIgnoredDuringExecution na) with
    | None => (true, None)
    | Some required =>
        foldr (λ t (acc : bool * option string),
                 match termMatches labels t with
                 | None =>
                     if acc.1 then acc
                     else (false, Some "invalid node selector requirement")
                 | Some true => (true, None)
                 | Some false => acc
                 end)
              (false, None) (NodeSelectorTerms required)
    end.

Definition taintString (t : Taint) : string :=
  "{" +:+ taint_Key t +:+ " " +:+ taint_Value t +:+ " " +:+ taint_Effect t +:+ " <nil>}".

(** Canonical form of the quantities of the tests: whole units, or binary
    multiples for the binary format. *)
Definition quantityString (q : Quantity) : string :=
  let v := q_value q in
  if q_milli q then
    if bool_decide (v `mod` 1000 = 0)%Z then pretty (v `div` 1000)%Z
    else pretty v +:+ "m"
  else
    match q_format q with
    | DecimalSI => pretty v
    | BinarySI =>
        if bool_decide (v ≠ 0 ∧ v `mod` 2 ^ 30 = 0)%Z then pretty (v `div` 2 ^ 30)%Z +:+ "Gi"
        else if bool_decide (v ≠ 0 ∧ v `mod` 2 ^ 20 = 0)%Z then pretty (v `div` 2 ^ 20)%Z +:+ "Mi"
        else if bool_decide (v ≠ 0 ∧ v `mod` 2 ^ 10 = 0)%Z then pretty (v `div` 2 ^ 10)%Z +:+ "Ki"
        else pretty v
    end.

(** The conversions of a quantity between units and milli-units: up by a
    factor of 1000, zero past the [int64] range; down by a division that
    rounds away from zero. *)
Definition quantityHelpers : QuantityHelpers :=
  {| unitsOfMilli := λ v, (if (0 <=? v)%Z then (v + 999) `div` 1000
                           else - ((- v + 999) `div` 1000))%Z;
     milliOfUnits := λ v, (if bool_decide (int64.in_range (v * 1000)) then v * 1000
                           else 0)%Z |}.

Definition helpers : KubeHelpers :=
  {| ToleratesTaint := toleratesTaint;
     SelectorMatch := selectorMatch;
     TaintString := taintString;
     QuantityString := quantityString |}.

End reference.

(** *** Inputs of the repository's tests *)

Module tests.
Import kueue cache workload flavorassigner.

Definition Mi : Z := 2 ^ 20.
Definition Gi : Z := 2 ^ 30.

(** The flavor catalogue of [TestAssignFlavors]. *)
Definition resourceFlavors : gmap string ResourceFlavor :=
  {[ "default" := mkResourceFlavor ∅ [];
     "one" := mkResourceFlavor {[ "type" := "one" ]} [];
     "two" := mkResourceFlavor {[ "type" := "two" ]} [];
     "b_one" := mkResourceFlavor {[ "b_type" := "one" ]} [];
     "b_two" := mkResourceFlavor {[ "b_type" := "two" ]} [];
     "tainted" := mkResourceFlavor ∅ [mkTaint "instance" "spot" "NoSchedule"] ]}.

Definition plainSpec : PodSpec := mkPodSpec ∅ None [].

(** A cluster queue with one resource group; the index maps every covered
    resource to the group. *)
Definition singleGroupQueue (rg : ResourceGroup) (usage : FlavorResourceQuantities)
    (cohort : option Cohort) : ClusterQueue :=
  mkClusterQueue (set_to_map (λ r, (r, rg)) (CoveredResources rg)) usage cohort.

(** A cluster queue with several resource groups, indexed as
    [UpdateRGByResource] does. *)
Definition queueOf (groups : list ResourceGroup) (usage : FlavorResourceQuantities)
    (cohort : option Cohort) : ClusterQueue :=
  mkClusterQueue
    (foldl (λ m rg, set_to_map (λ r, (r, rg)) (CoveredResources rg) ∪ m) ∅ groups)
    usage cohort.

(** The workload of a test: its pod sets with their total requests. *)
Definition infoOf (pods : list (PodSet * Requests)) : Info :=
  mkInfo (mkWorkload "" "" 0 (mkWorkloadSpec (fst <$> pods) "") (mkWorkloadStatus None []))
         ((λ p, mkPodSetResources (ps_Name p.1) p.2 ∅) <$> pods) "".

(** What a test compares: the representative mode and, per pod set, the
    name, the flavors and the status. *)
Definition view (a : option Assignment)
    : option (FlavorAssignmentMode
              * list (string * list (string * FlavorAssignment) * option Status)
              * list (string * list (string * Z))) :=
  a ← a;
  Some ((Assignment_RepresentativeMode a).1,
        (λ ps, (psa_Name ps, map_to_list (psa_Flavors ps), psa_Status ps))
          <$> asg_PodSets a,
        map_to_list (map_to_list <$> TotalBorrow a)).

Definition run (wl : Info) (cq : ClusterQueue) : option Assignment :=
  AssignFlavors (H := reference.helpers) wl resourceFlavors cq.

(** "past max, but can preempt in ClusterQueue" (scenario S6 of the spec). *)
Definition pastMaxQuota : ResourceQuota := mkResourceQuota 2000 (Some 8000%Z).

Definition pastMaxGroup : ResourceGroup :=
  mkResourceGroup {[ "cpu" ]}
    [mkFlavorQuotas "one" {[ "cpu" := pastMaxQuota ]}] ∅.

Definition pastMaxQueue : ClusterQueue :=
  singleGroupQueue pastMaxGroup {[ "one" := {[ "cpu" := 9000%Z ]} ]}
    (Some (mkCohort {[ "one" := {[ "cpu" := 100000%Z ]} ]}
                    {[ "one" := {[ "cpu" := 9000%Z ]} ]})).

(** The pod of "multiple flavors, node affinity fits any flavor": two
    required terms, on the keys [ignored2] and [cpuType]. *)
Definition anyFlavorSpec : PodSpec :=
  mkPodSpec ∅
    (Some (mkAffinity (Some (mkNodeAffinity (Some (mkNodeSelector
       [mkTerm [mkRequirement "ignored2" "In" ["bar"]] [];
        mkTerm [mkRequirement "cpuType" "In" ["two"]] []]))))))
    [].

Definition oneTwoGroup : ResourceGroup :=
  mkResourceGroup {[ "cpu" ]}
    [mkFlavorQuotas "one" {[ "cpu" := mkResourceQuota 4000 None ]};
     mkFlavorQuotas "two" {[ "cpu" := mkResourceQuota 4000 None ]}]
    {[ "type" ]}.

(** The pod of "multiple flavors, fits a node selector". *)
Definition nodeSelectorSpec : PodSpec :=
  mkPodSpec {[ "type" := "two"; "ignored1" := "foo" ]}
    (Some (mkAffinity (Some (mkNodeAffinity (Some (mkNodeSelector
       [mkTerm [mkRequirement "ignored2" "In" ["bar"]] []]))))))
    [].

(** "resource not listed in clusterQueue": only [cpu] is covered. *)
Definition cpuOnlyQueue : ClusterQueue :=
  queueOf
    [mkResourceGroup {[ "cpu" ]}
       [mkFlavorQuotas "one" {[ "cpu" := mkResourceQuota 4000 None ]}] ∅]
    ∅ None.

(** The assignment with which [AssignFlavors] starts. *)
Definition noAssignment : Assignment := mkAssignment [] ∅ ∅ None.

(** A pod set that asks for more [cpu] than the nominal quota and for a
    resource that the cluster queue does not cover, [cpu] being visited
    first. *)
Definition cpuThenGpu : Requests := [("cpu", 5000%Z); ("example.com/gpu", 2%Z)].

(** The workload and cluster queue of "multiple specs, fits borrowing". *)
Definition borrowingWorkload : Info :=
  infoOf [(mkPodSet "driver" 1 plainSpec, [("cpu", 4000); ("memory", Gi)]);
          (mkPodSet "worker" 1 plainSpec, [("cpu", 6000); ("memory", 4 * Gi)])]%Z.

Definition borrowingQueue : ClusterQueue :=
  queueOf
    [mkResourceGroup {[ "cpu"; "memory" ]}
       [mkFlavorQuotas "default"
          {[ "cpu" := mkResourceQuota 2000 (Some 98000%Z);
             "memory" := mkResourceQuota (2 * Gi) None ]}] ∅]
    ∅
    (Some (mkCohort
             {[ "default" := {[ "cpu" := 200000%Z; "memory" := (200 * Gi)%Z ]} ]} ∅)).

(** The workload of "resource not listed in clusterQueue". *)
Definition gpuWorkload : Info :=
  infoOf [(mkPodSet "main" 1 plainSpec, [("example.com/gpu", 2%Z)])].

(** "each podset requires preemption on a different flavor": the group and
    the usage of the cluster queue. *)
Definition oneTaintedGroup : ResourceGroup :=
  mkResourceGroup {[ "cpu" ]}
    [mkFlavorQuotas "one" {[ "cpu" := mkResourceQuota 4000 None ]};
     mkFlavorQuotas "tainted" {[ "cpu" := mkResourceQuota 10000 None ]}] ∅.

Definition oneTaintedQueue : ClusterQueue :=
  queueOf [oneTaintedGroup]
    {[ "one" := {[ "cpu" := 3000%Z ]}; "tainted" := {[ "cpu" := 3000%Z ]} ]} None.

(** "multiple flavors, skip missing ResourceFlavor". *)
Definition missingFlavorGroup : ResourceGroup :=
  mkResourceGroup {[ "cpu" ]}
    [mkFlavorQuotas "nonexistent-flavor" {[ "cpu" := mkResourceQuota 4000 None ]};
     mkFlavorQuotas "two" {[ "cpu" := mkResourceQuota 4000 None ]}] {[ "type" ]}.

(** The workloads of [TestNewInfo]; the requests of the one container of a
    pod set are what [limitrange.TotalRequests] gives for its pod spec. *)
Definition pendingWorkload : Workload :=
  mkWorkload "" "" 0 (mkWorkloadSpec [mkPodSet "main" 1 plainSpec] "")
    (mkWorkloadStatus None []).

Definition pendingContainerRequests (spec : PodSpec) : list (string * Quantity) :=
  [("cpu", mkQuantity 10 true DecimalSI); ("memory", mkQuantity (512 * 1024) false BinarySI)].

Definition admittedWorkload (now : Z) : option Workload :=
  utiltesting.Admit now
    (mkWorkload "" ""  0
       (mkWorkloadSpec [mkPodSet "driver" 1 plainSpec; mkPodSet "workers" 3 plainSpec] "")
       (mkWorkloadStatus None []))
    (Some (mkAdmission "foo"
             [mkPodSetAssignment "driver" {[ "cpu" := "on-demand" ]}
                [("cpu", mkQuantity 10 true DecimalSI);
                 ("memory", mkQuantity (512 * 1024) false BinarySI)];
              mkPodSetAssignment "workers" ∅
                [("cpu", mkQuantity 15 true DecimalSI);
                 ("memory", mkQuantity (3 * 1024 * 1024) false BinarySI);
                 ("ex.com/gpu", mkQuantity 3 false DecimalSI)]])).

(** A workload that waits for its pods to be ready. *)
Definition waitingWorkload : Workload :=
  mkWorkload "ns" "job" 100 (mkWorkloadSpec [mkPodSet "main" 1 plainSpec] "queue")
    (mkWorkloadStatus None [mkCondition "PodsReady" ConditionFalse 150 "PodsNotReady" "" 0]).

(** Two pod sets, of which the first asks for a resource that
    [cpuOnlyQueue] does not cover. *)
Definition gpuThenCpuWorkload : Info :=
  infoOf [(mkPodSet "gpu" 1 plainSpec, [("example.com/gpu", 2%Z)]);
          (mkPodSet "cpu" 1 plainSpec, [("cpu", 1000%Z)])].

(** The workload of "past max, but can preempt in ClusterQueue". *)
Definition pastMaxWorkload : Info :=
  infoOf [(mkPodSet "main" 1 plainSpec, [("cpu", 2000%Z)])].

End tests.

(** *** Inputs on which the [int64] sums of the fit check wrap around *)

Module overflow.
Import kueue cache workload flavorassigner.

(** The largest [int64]. *)
Definition maxInt64 : Z := 2 ^ 63 - 1.

(** A flavor without any quota of [cpu], of which the cluster queue uses
    one milli-CPU already; there is no cohort and no borrowing limit. *)
Definition noQuota : ResourceQuota := mkResourceQuota 0 None.

Definition queue : ClusterQueue :=
  tests.queueOf [mkResourceGroup {[ "cpu" ]} [mkFlavorQuotas "one" {[ "cpu" := noQuota ]}] ∅]
    {[ "one" := {[ "cpu" := 1%Z ]} ]} None.

(** A flavor with a nominal quota of [2^62] of [cpu] and nothing to
    borrow.  The cluster queue uses the nominal quota in full, and the
    cohort reports that much as requestable and nothing as used. *)
Definition fullQuota : ResourceQuota := mkResourceQuota (2 ^ 62) (Some 0%Z).

Definition fullQueue : ClusterQueue :=
  tests.queueOf
    [mkResourceGroup {[ "cpu" ]} [mkFlavorQuotas "one" {[ "cpu" := fullQuota ]}] ∅]
    {[ "one" := {[ "cpu" := (2 ^ 62)%Z ]} ]}
    (Some (mkCohort {[ "one" := {[ "cpu" := (2 ^ 62)%Z ]} ]} ∅)).

(** One pod set that asks for [2^62] of [cpu]. *)
Definition bigWorkload : Info :=
  tests.infoOf [(mkPodSet "main" 1 tests.plainSpec, [("cpu", (2 ^ 62)%Z)])].

End overflow.

(** ** Part II: theorems *)

(** *** Arithmetic of [int64] *)

Lemma int64_wrap_id (z : Z) : int64.in_range z → int64.wrap z = z.
Proof.
  unfold int64.in_range, int64.wrap, int64.half, int64.modulus. intros Hz.
  rewrite Z.mod_small; lia.
Qed.

Lemma int64_add_quantity (a b : Z) :
  (- 2 ^ 62 <= a < 2 ^ 62)%Z → (- 2 ^ 62 <= b < 2 ^ 62)%Z → int64.add a b = (a + b)%Z.
Proof.
  intros Ha Hb. apply int64_wrap_id. unfold int64.in_range, int64.half. lia.
Qed.

Lemma int64_sub_quantity (a b : Z) :
  (- 2 ^ 62 <= a < 2 ^ 62)%Z → (- 2 ^ 62 <= b < 2 ^ 62)%Z → int64.sub a b = (a - b)%Z.
Proof.
  intros Ha Hb. apply int64_wrap_id. unfold int64.in_range, int64.half. lia.
Qed.

Lemma int64_add_exact (a b : Z) : int64.in_range (a + b) → int64.add a b = (a + b)%Z.
Proof. apply int64_wrap_id. Qed.

Lemma int64_sub_exact (a b : Z) : int64.in_range (a - b) → int64.sub a b = (a - b)%Z.
Proof. apply int64_wrap_id. Qed.

Lemma int64_wrap_in_range (z : Z) : int64.in_range (int64.wrap z).
Proof.
  unfold int64.in_range, int64.wrap, int64.half, int64.modulus.
  pose proof (Z.mod_pos_bound (z + 2 ^ 63) (2 ^ 64)). lia.
Qed.

(** *** The fit check *)

Section FitCheck.
Context `{KubeHelpers}.
Import cache workload flavorassigner.

Lemma candidateMode_not_Fit (v nominal : Z) : candidateMode v nominal ≠ Fit.
Proof. unfold candidateMode. by case_match. Qed.

(** C2, as the code has it.  The fit check of a value [v] for resource [r]
    on flavor [f], with usage [u], quota [Nominal] and optional
    [BorrowingLimit], cohort usage [cU] and cohort requestable [cA] (the
    numbers of the cluster queue when it has no cohort), when none of the
    [int64] sums of the check wraps around.  When the borrowing limit is set
    and [u + v > Nominal + BorrowingLimit], the result keeps the candidate
    mode ([Preempt] when [v ≤ Nominal], else [NoFit]), borrows nothing,
    carries the reason "borrowing limit ... exceeded" and is not [Fit].
    Otherwise, when [cU + v ≤ cA], the result is [Fit] with borrow
    [max 0 (u + v - Nominal)] and no status.  Otherwise the result keeps the
    candidate mode, borrows nothing and carries one insufficient-quota
    reason. *)
Theorem fitsResourceQuota_cases (f r : string) (v : Z) (cq : ClusterQueue)
    (rQuota : ResourceQuota) :
  fitCheckNoOverflow cq f r v rQuota →
  let u := frq_get (Usage cq) f r in
  let cU := cohortUsedOf cq f r in
  let cA := cohortAvailableOf cq f r (Nominal rQuota) in
  let mode := candidateMode v (Nominal rQuota) in
  (overBorrowingLimit u v rQuota →
     fitsResourceQuota f r v cq rQuota
       = (mode, 0%Z, Some (mkStatus [msgBorrowingLimit r f] None))
     ∧ (fitsResourceQuota f r v cq rQuota).1.1 ≠ Fit)
  ∧ (¬ overBorrowingLimit u v rQuota → (cU + v <= cA)%Z →
     fitsResourceQuota f r v cq rQuota = (Fit, Z.max 0 (u + v - Nominal rQuota), None))
  ∧ (¬ overBorrowingLimit u v rQuota → (cA < cU + v)%Z →
     fitsResourceQuota f r v cq rQuota
       = (mode, 0%Z,
          Some (mkStatus
                  [match cq_Cohort cq with
                   | Some _ => msgInsufficientCohort r f (cU + v - cA)
                   | None =>
                       if (v <=? Nominal rQuota)%Z
                       then msgInsufficientUnused r f (cU + v - cA)
                       else msgInsufficientQuota r f
                   end] None))).
Proof.
  intros [Hu Hl HcU Hlack Hborrow]. cbn zeta.
  unfold fitsResourceQuota, overBorrowingLimit, candidateMode, cohortUsedOf,
    cohortAvailableOf in *.
  destruct rQuota as [nominal bl]; cbn [Nominal BorrowingLimit] in *.
  rewrite (int64_add_exact _ _ Hu).
  rewrite (int64_sub_exact _ _ Hborrow).
  assert (Hsums :
    int64.sub
      (int64.add match cq_Cohort cq with
                 | Some cohort => frq_get (cohort_Usage cohort) f r
                 | None => frq_get (Usage cq) f r
                 end v)
      match cq_Cohort cq with
      | Some cohort => frq_get (RequestableResources cohort) f r
      | None => nominal
      end
    = (match cq_Cohort cq with
       | Some cohort => frq_get (cohort_Usage cohort) f r
       | None => frq_get (Usage cq) f r
       end + v
       - match cq_Cohort cq with
         | Some cohort => frq_get (RequestableResources cohort) f r
         | None => nominal
         end)%Z).
  { rewrite (int64_add_exact _ _ HcU). by apply int64_sub_exact. }
  clear Hu HcU Hlack Hborrow.
  destruct (cq_Cohort cq) as [cohort|], bl as [limit|];
    try rewrite (int64_add_exact _ _ (Hl limit eq_refl));
    try rewrite Hsums; clear Hsums Hl;
    (split; [|split]);
    try (intros (l & [= <-] & Hover)); try (intros (l & [=] & _));
    try (intros Hnover Hcmp);
    try (assert (¬ (nominal + limit < frq_get (Usage cq) f r + v)%Z)
           by (intros ?; apply Hnover; eauto));
    repeat case_match; try rewrite Z.max_r by lia; try rewrite Z.max_l by lia;
    cbn; try done; try lia;
    try (split; [done|]; done).
Qed.

End FitCheck.

(** Scenario S6 and the test "past max, but can preempt in ClusterQueue":
    the request stays at [Preempt] because the borrowing limit is exceeded. *)
Example fitsResourceQuota_pastMax :
  flavorassigner.fitsResourceQuota (H := reference.helpers) "one" "cpu" 2000
    tests.pastMaxQueue tests.pastMaxQuota
  = (flavorassigner.Preempt, 0%Z,
     Some (flavorassigner.mkStatus ["borrowing limit for cpu in flavor one exceeded"] None)).
Proof. vm_compute. reflexivity. Qed.

Lemma fitsResourceQuota_cases_witness :
  fitCheckNoOverflow tests.pastMaxQueue "one" "cpu" 2000 tests.pastMaxQuota
  ∧ flavorassigner.fitsResourceQuota (H := reference.helpers) "one" "cpu" 2000
      tests.pastMaxQueue tests.pastMaxQuota
    = (flavorassigner.Preempt, 0%Z,
       Some (flavorassigner.mkStatus
               [flavorassigner.msgBorrowingLimit "cpu" "one"] None)).
Proof.
  assert (Hsums : fitCheckNoOverflow tests.pastMaxQueue "one" "cpu" 2000
                    tests.pastMaxQuota).
  { split; try (intros limit [= <-]); by vm_compute. }
  split; [exact Hsums|].
  apply (fitsResourceQuota_cases (H := reference.helpers) "one" "cpu" 2000
           tests.pastMaxQueue tests.pastMaxQuota Hsums).
  exists 8000%Z. split; [reflexivity | by vm_compute].
Defined.

(** The claim as stated fails when a sum of the check wraps around.  The
    cluster queue uses 1 of a flavor without quota, and the request is the
    largest [int64]: the borrowing limit is not set and [cU + v] exceeds
    [cA], so the request should keep its candidate mode [NoFit]; but
    [cU + v] wraps to the smallest [int64], and the request fits. *)
Lemma fit_check_wraps_around :
  let u := frq_get (cache.Usage overflow.queue) "one" "cpu" in
  let cU := cohortUsedOf overflow.queue "one" "cpu" in
  let cA := cohortAvailableOf overflow.queue "one" "cpu" (cache.Nominal overflow.noQuota) in
  ¬ overBorrowingLimit u overflow.maxInt64 overflow.noQuota
  ∧ (cA < cU + overflow.maxInt64)%Z
  ∧ int64.in_range u ∧ int64.in_range overflow.maxInt64
  ∧ candidateMode overflow.maxInt64 (cache.Nominal overflow.noQuota) = flavorassigner.NoFit
  ∧ flavorassigner.fitsResourceQuota (H := reference.helpers) "one" "cpu"
      overflow.maxInt64 overflow.queue overflow.noQuota
    = (flavorassigner.Fit, 0%Z, None).
Proof.
  cbn zeta. split_and!.
  - intros (limit & [=] & _).
  - by vm_compute.
  - by vm_compute.
  - by vm_compute.
  - by vm_compute.
  - by vm_compute.
Qed.

(** *** Conditions *)

Section Conditions.
Import kueue workload.

Lemma FindStatusCondition_Some (conds : list Condition) (T : string) (i : nat) :
  apimeta.FindStatusCondition conds T = Some i →
  ∃ c, conds !! i = Some c ∧ cond_Type c = T
       ∧ ∀ j c', (j < i)%nat → conds !! j = Some c' → cond_Type c' ≠ T.
Proof.
  revert i. induction conds as [|c conds IH]; intros i; cbn; [done|].
  case_bool_decide as Hc.
  - intros [= <-]. exists c. repeat split; [done|]. intros j c' Hj. lia.
  - destruct (apimeta.FindStatusCondition conds T) as [k|] eqn:Hk; [|done].
    cbn. intros [= <-]. destruct (IH k eq_refl) as (c0 & Hl & Ht & Hfirst).
    exists c0. repeat split; [done..|].
    intros [|j] c' Hj; cbn; [by intros [= <-]|]. apply Hfirst. lia.
Qed.

Lemma FindStatusCondition_None (conds : list Condition) (T : string) :
  apimeta.FindStatusCondition conds T = None ↔ ∀ c, c ∈ conds → cond_Type c ≠ T.
Proof.
  induction conds as [|c conds IH]; cbn.
  - split; [intros _ c Hc; by apply elem_of_nil in Hc | done].
  - case_bool_decide as Hc.
    + split; [done|]. intros Hall. exfalso. by apply (Hall c); [left|].
    + destruct (apimeta.FindStatusCondition conds T) eqn:Hk; cbn.
      * split; [done|]. intros Hall. exfalso.
        assert (Hn : @Some nat n = None); [|done].
        apply IH. intros c' Hc'. apply Hall. by right.
      * split; [|done]. intros _ c' [->|Hc']%elem_of_cons; [done|].
        by apply IH.
Qed.

(** Under the API's rule that a condition type occurs once, the condition
    that is found is any condition of the type. *)
Lemma FindStatusCondition_unique (conds : list Condition) (T : string) (c : Condition) :
  NoDup (cond_Type <$> conds) → c ∈ conds → cond_Type c = T →
  ∃ i, apimeta.FindStatusCondition conds T = Some i ∧ conds !! i = Some c.
Proof.
  intros Hnd Hin Ht.
  destruct (apimeta.FindStatusCondition conds T) as [i|] eqn:Hfind.
  - exists i. split; [done|].
    destruct (FindStatusCondition_Some _ _ _ Hfind) as (c0 & Hl & Ht0 & _).
    apply list_elem_of_lookup in Hin as [j Hj].
    assert (i = j) as ->; [|done].
    eapply NoDup_lookup; [exact Hnd| |]; rewrite list_lookup_fmap.
    + by rewrite Hl.
    + rewrite Hj. cbn. congruence.
  - exfalso. by eapply FindStatusCondition_None.
Qed.

Lemma IsPresentAndEqual_Find (conds : list Condition) (T s : string) :
  apimeta.IsStatusConditionPresentAndEqual conds T s
  = match apimeta.FindStatusCondition conds T ≫= (conds !!.) with
    | Some c => bool_decide (cond_Status c = s)
    | None => false
    end.
Proof.
  induction conds as [|c conds IH]; cbn; [done|].
  case_bool_decide; cbn; [done|]. rewrite IH.
  by destruct (apimeta.FindStatusCondition conds T).
Qed.

Lemma FindStatusCondition_app_None (conds : list Condition) (T : string) (c : Condition) :
  apimeta.FindStatusCondition conds T = None → cond_Type c = T →
  apimeta.FindStatusCondition (conds ++ [c]) T = Some (length conds).
Proof.
  intros Hnone Hc. induction conds as [|c0 conds IH]; cbn in *.
  - by rewrite bool_decide_eq_true_2.
  - case_bool_decide; [done|].
    destruct (apimeta.FindStatusCondition conds T); [done|]. by rewrite IH.
Qed.

Lemma FindStatusCondition_insert (conds : list Condition) (T : string) (i : nat)
    (old new : Condition) :
  conds !! i = Some old → cond_Type new = cond_Type old →
  apimeta.FindStatusCondition (<[ i := new ]> conds) T
  = apimeta.FindStatusCondition conds T.
Proof.
  revert i. induction conds as [|c conds IH]; intros [|i] Hl Ht;
    cbn in *; simplify_eq; [by rewrite Ht|].
  case_bool_decide; [done|]. f_equal. by apply IH.
Qed.

(** After [SetStatusCondition], the condition of the new type that is found
    has the new status. *)
Lemma SetStatusCondition_status (sysnow : Z) (conds : list Condition)
    (c : Condition) (s : string) :
  apimeta.IsStatusConditionPresentAndEqual
    (apimeta.SetStatusCondition sysnow conds c) (cond_Type c) s
  = bool_decide (cond_Status c = s).
Proof.
  rewrite IsPresentAndEqual_Find. unfold apimeta.SetStatusCondition.
  destruct (apimeta.FindStatusCondition conds (cond_Type c)) as [i|] eqn:Hfind.
  - destruct (FindStatusCondition_Some _ _ _ Hfind) as (c0 & Hl & Ht & _).
    rewrite Hl. erewrite FindStatusCondition_insert by done. rewrite Hfind. cbn.
    rewrite list_lookup_insert_eq by (by eapply lookup_lt_Some). done.
  - erewrite FindStatusCondition_app_None by done. cbn.
    rewrite lookup_app_r by lia. by rewrite Nat.sub_diag.
Qed.

(** Rewriting a condition of another type in place does not change what is
    found for a type. *)
Lemma IsPresentAndEqual_insert_other (conds : list Condition) (T s : string)
    (i : nat) (old new : Condition) :
  conds !! i = Some old → cond_Type new = cond_Type old → cond_Type old ≠ T →
  apimeta.IsStatusConditionPresentAndEqual (<[ i := new ]> conds) T s
  = apimeta.IsStatusConditionPresentAndEqual conds T s.
Proof.
  revert i. induction conds as [|c conds IH]; intros [|i] Hl Ht Hne;
    cbn in *; simplify_eq.
  - rewrite Ht. by rewrite !bool_decide_eq_false_2.
  - case_bool_decide; [done|]. by apply IH.
Qed.

(** The condition that [FindStatusCondition] finds is the first of its
    type. *)
Lemma FindStatusCondition_first (conds : list Condition) (T : string) (i : nat)
    (c : Condition) :
  firstOfType conds T i c → apimeta.FindStatusCondition conds T = Some i.
Proof.
  intros (Hl & Ht & Hfirst).
  destruct (apimeta.FindStatusCondition conds T) as [k|] eqn:Hk.
  - destruct (FindStatusCondition_Some _ _ _ Hk) as (c0 & Hl0 & Ht0 & Hfirst0).
    f_equal. destruct (lt_eq_lt_dec k i) as [[Hlt| ->]|Hgt]; [|done|].
    + exfalso. by apply (Hfirst k c0).
    + exfalso. by apply (Hfirst0 i c).
  - exfalso. eapply FindStatusCondition_None; [exact Hk| |exact Ht].
    by eapply list_elem_of_lookup_2.
Qed.

Lemma FindStatusCondition_firstOfType (conds : list Condition) (T : string) (i : nat) :
  apimeta.FindStatusCondition conds T = Some i → ∃ c, firstOfType conds T i c.
Proof.
  intros Hfind. destruct (FindStatusCondition_Some _ _ _ Hfind) as (c & Hl & Ht & Hfirst).
  by exists c.
Qed.

(** C7.  The timestamp that orders the queue, for the conditions that the
    workload stores ([GetQueueOrderTimestamp] returns a pointer, the
    timestamp is what it points to):
    - when the Evicted condition has status True and reason
      PodsReadyTimeout, the pointer is to its transition time, and the
      timestamp is that time;
    - the pointer is to the transition time of a condition only then;
    - when the workload has no Evicted condition, when the Evicted
      condition has another status, and when it has another reason (such as
      Preempted), the pointer is to the creation timestamp, and the
      timestamp is that of the creation;
    - when the condition types are distinct, as the API has them, the
      above holds for the Evicted condition wherever it is stored. *)
Theorem GetQueueOrderTimestamp_spec (w : Workload) :
  let conds := Conditions (Status w) in
  let timestamp := loadTime w (GetQueueOrderTimestamp w) in
  (∀ i c, firstOfType conds WorkloadEvicted i c →
     cond_Status c = ConditionTrue →
     cond_Reason c = WorkloadEvictedByPodsReadyTimeout →
     GetQueueOrderTimestamp w = LastTransitionTimeRef i
     ∧ timestamp = Some (cond_LastTransitionTime c))
  ∧ (∀ i, GetQueueOrderTimestamp w = LastTransitionTimeRef i →
       ∃ c, firstOfType conds WorkloadEvicted i c
            ∧ cond_Status c = ConditionTrue
            ∧ cond_Reason c = WorkloadEvictedByPodsReadyTimeout)
  ∧ (noneOfType conds WorkloadEvicted →
       GetQueueOrderTimestamp w = CreationTimestampRef
       ∧ timestamp = Some (CreationTimestamp w))
  ∧ (∀ i c, firstOfType conds WorkloadEvicted i c →
       cond_Status c ≠ ConditionTrue →
       GetQueueOrderTimestamp w = CreationTimestampRef
       ∧ timestamp = Some (CreationTimestamp w))
  ∧ (∀ i c, firstOfType conds WorkloadEvicted i c →
       cond_Reason c ≠ WorkloadEvictedByPodsReadyTimeout →
       GetQueueOrderTimestamp w = CreationTimestampRef
       ∧ timestamp = Some (CreationTimestamp w))
  ∧ (NoDup (cond_Type <$> conds) →
     ∀ c, c ∈ conds → cond_Type c = WorkloadEvicted →
       timestamp
       = Some (if bool_decide (cond_Status c = ConditionTrue
                               ∧ cond_Reason c = WorkloadEvictedByPodsReadyTimeout)
               then cond_LastTransitionTime c else CreationTimestamp w)).
Proof.
  cbn zeta.
  assert (Hat : ∀ i c, firstOfType (Conditions (Status w)) WorkloadEvicted i c →
    GetQueueOrderTimestamp w
    = if bool_decide (cond_Status c = ConditionTrue)
         && bool_decide (cond_Reason c = WorkloadEvictedByPodsReadyTimeout)
      then LastTransitionTimeRef i else CreationTimestampRef).
  { intros i c Hfirst. unfold GetQueueOrderTimestamp.
    rewrite (FindStatusCondition_first _ _ _ _ Hfirst).
    destruct Hfirst as (-> & _). done. }
  split_and!.
  - intros i c Hfirst Hs Hr. rewrite (Hat i c Hfirst).
    rewrite !bool_decide_eq_true_2 by done. cbn.
    destruct Hfirst as (-> & _). done.
  - intros i Hptr. unfold GetQueueOrderTimestamp in Hptr.
    destruct (apimeta.FindStatusCondition (Conditions (Status w)) WorkloadEvicted)
      as [k|] eqn:Hfind; [|done].
    destruct (FindStatusCondition_firstOfType _ _ _ Hfind) as (c & Hfirst).
    pose proof Hfirst as (Hl & _). rewrite Hl in Hptr.
    destruct (bool_decide (cond_Status c = ConditionTrue)) eqn:Hs; [|done].
    destruct (bool_decide (cond_Reason c = WorkloadEvictedByPodsReadyTimeout)) eqn:Hr;
      [|done].
    cbn in Hptr. injection Hptr as <-. exists c.
    apply bool_decide_eq_true in Hs, Hr. done.
  - intros Hnone. apply FindStatusCondition_None in Hnone.
    unfold GetQueueOrderTimestamp. by rewrite Hnone.
  - intros i c Hfirst Hs. rewrite (Hat i c Hfirst).
    by rewrite (bool_decide_eq_false_2 _ Hs).
  - intros i c Hfirst Hr. rewrite (Hat i c Hfirst).
    by rewrite (bool_decide_eq_false_2 _ Hr), andb_false_r.
  - intros Hnd c Hin Ht.
    destruct (FindStatusCondition_unique _ _ _ Hnd Hin Ht) as (i & Hfind & Hl).
    destruct (FindStatusCondition_firstOfType _ _ _ Hfind) as (c0 & Hfirst).
    pose proof Hfirst as (Hl0 & _). rewrite Hl in Hl0. injection Hl0 as <-.
    rewrite (Hat i c Hfirst).
    destruct (decide (cond_Status c = ConditionTrue)) as [Hs|Hs];
      destruct (decide (cond_Reason c = WorkloadEvictedByPodsReadyTimeout)) as [Hr|Hr].
    + rewrite !bool_decide_eq_true_2 by done. cbn. by rewrite Hl.
    + rewrite (bool_decide_eq_false_2 _ Hr), andb_false_r.
      rewrite bool_decide_eq_false_2 by (by intros [_ ?]). done.
    + rewrite (bool_decide_eq_false_2 _ Hs). cbn.
      rewrite bool_decide_eq_false_2 by (by intros [? _]). done.
    + rewrite (bool_decide_eq_false_2 _ Hs). cbn.
      rewrite bool_decide_eq_false_2 by (by intros [? _]). done.
Qed.

(** The four cases of [TestGetQueueOrderTimestamp], with creation time 100
    and condition time 3700. *)
Example queueOrder_no_condition :
  let w := mkWorkload "ns" "name" 100 (mkWorkloadSpec [] "") (mkWorkloadStatus None []) in
  loadTime w (GetQueueOrderTimestamp w) = Some 100%Z.
Proof. reflexivity. Qed.

Example queueOrder_evicted_by_preemption :
  let w := mkWorkload "ns" "name" 100 (mkWorkloadSpec [] "")
             (mkWorkloadStatus None
                [mkCondition WorkloadEvicted ConditionTrue 3700
                   WorkloadEvictedByPreemption "" 0]) in
  loadTime w (GetQueueOrderTimestamp w) = Some 100%Z.
Proof. reflexivity. Qed.

Example queueOrder_evicted_by_timeout :
  let w := mkWorkload "ns" "name" 100 (mkWorkloadSpec [] "")
             (mkWorkloadStatus None
                [mkCondition WorkloadEvicted ConditionTrue 3700
                   WorkloadEvictedByPodsReadyTimeout "" 0]) in
  loadTime w (GetQueueOrderTimestamp w) = Some 3700%Z.
Proof. reflexivity. Qed.

Example queueOrder_after_eviction :
  let w := mkWorkload "ns" "name" 100 (mkWorkloadSpec [] "")
             (mkWorkloadStatus None
                [mkCondition WorkloadEvicted ConditionFalse 3700
                   WorkloadEvictedByPodsReadyTimeout "" 0]) in
  loadTime w (GetQueueOrderTimestamp w) = Some 100%Z.
Proof. reflexivity. Qed.

End Conditions.

(** *** Admission bookkeeping *)

Section AdmissionInvariant.
Import kueue workload.

Lemma SetAdmission_result (now1 now2 sysnow : Z) (w : Workload) (adm : Admission) :
  ∃ w', SetAdmission now1 now2 sysnow w (Some adm) = Some w'
        ∧ Admission_ (Status w') = Some adm
        ∧ IsAdmitted w' = true.
Proof.
  unfold SetAdmission, IsAdmitted, apimeta.IsStatusConditionTrue.
  eexists. split; [reflexivity|]. split; [done|]. cbn.
  set (admittedCond := mkCondition WorkloadAdmitted ConditionTrue now1 "Admitted"
                         ("Admitted by ClusterQueue " +:+ ClusterQueue adm) 0).
  set (conds := apimeta.SetStatusCondition sysnow (Conditions (Status w)) admittedCond).
  assert (Hadm : apimeta.IsStatusConditionPresentAndEqual conds WorkloadAdmitted
                   ConditionTrue = true).
  { subst conds. rewrite (SetStatusCondition_status sysnow _ admittedCond ConditionTrue).
    done. }
  destruct (apimeta.FindStatusCondition conds WorkloadEvicted) as [i|] eqn:Hfind;
    [|done].
  destruct (FindStatusCondition_Some _ _ _ Hfind) as (c & Hl & Ht & _).
  rewrite Hl. erewrite IsPresentAndEqual_insert_other; [done..|].
  rewrite Ht. done.
Qed.

Lemma UnsetAdmission_result (trunc : string → string) (now sysnow : Z)
    (wl : Workload) (reason message : string) :
  let wl' := UnsetAdmissionWithCondition trunc now sysnow wl reason message in
  Admission_ (Status wl') = None ∧ IsAdmitted wl' = false.
Proof.
  cbn zeta. split; [done|].
  unfold UnsetAdmissionWithCondition, IsAdmitted, apimeta.IsStatusConditionTrue. cbn.
  by rewrite (SetStatusCondition_status sysnow _
                (mkCondition WorkloadAdmitted ConditionFalse now reason (trunc message) 0)
                ConditionTrue).
Qed.

(** [SetStatusCondition] stores the new status, reason and message in the
    condition of the type of the new condition. *)
Lemma SetStatusCondition_first (sysnow : Z) (conds : list Condition) (c : Condition) :
  ∃ i c', firstOfType (apimeta.SetStatusCondition sysnow conds c) (cond_Type c) i c'
          ∧ cond_Status c' = cond_Status c
          ∧ cond_Reason c' = cond_Reason c
          ∧ cond_Message c' = cond_Message c.
Proof.
  unfold apimeta.SetStatusCondition.
  destruct (apimeta.FindStatusCondition conds (cond_Type c)) as [i|] eqn:Hfind.
  - destruct (FindStatusCondition_Some _ _ _ Hfind) as (c0 & Hl & Ht & Hfirst).
    rewrite Hl. eexists i, _. split.
    { split_and!.
      + apply list_lookup_insert_eq. by eapply lookup_lt_Some.
      + done.
      + intros j c' Hj Hl'. rewrite list_lookup_insert_ne in Hl' by lia.
        by eapply Hfirst. }
    done.
  - eexists (length conds), _. split.
    { split_and!.
      + rewrite lookup_app_r by lia. by rewrite Nat.sub_diag.
      + done.
      + intros j c' Hj Hl'. rewrite lookup_app_l in Hl' by done.
        eapply FindStatusCondition_None; [exact Hfind|].
        by eapply list_elem_of_lookup_2. }
    done.
Qed.

(** Rewriting a condition of another type in place keeps the condition of a
    type where it is. *)
Lemma firstOfType_insert_other (conds : list Condition) (T : string) (i k : nat)
    (c old new : Condition) :
  firstOfType conds T i c → conds !! k = Some old →
  cond_Type new = cond_Type old → cond_Type old ≠ T →
  firstOfType (<[ k := new ]> conds) T i c.
Proof.
  intros (Hl & Ht & Hfirst) Hk Hnew Hold.
  assert (k ≠ i) by (intros ->; congruence).
  split_and!.
  - by rewrite list_lookup_insert_ne.
  - done.
  - intros j c' Hj Hl'. destruct (decide (k = j)) as [->|Hkj].
    + rewrite list_lookup_insert_eq in Hl' by (by eapply lookup_lt_Some).
      injection Hl' as <-. congruence.
    + rewrite list_lookup_insert_ne in Hl' by done. by eapply Hfirst.
Qed.

(** C9.  The operations that change the admission of a workload keep
    "non-nil admission ⇔ Admitted condition true", from every workload,
    whatever its conditions were:
    - [SetAdmission] stores the admission and leaves the workload with an
      Admitted condition of status True (reason "Admitted", message
      "Admitted by ClusterQueue ..."), so [IsAdmitted] holds after it;
    - [UnsetAdmissionWithCondition] clears the admission and leaves the
      workload with an Admitted condition of status False that carries the
      given reason and the truncated message, so [IsAdmitted] fails after
      it. *)
Theorem admission_operations_keep_equivalence (trunc : string → string)
    (now1 now2 sysnow : Z) (w : Workload) (adm : Admission)
    (reason message : string) :
  (∃ w', SetAdmission now1 now2 sysnow w (Some adm) = Some w'
         ∧ Admission_ (Status w') = Some adm
         ∧ (∃ i c, firstOfType (Conditions (Status w')) WorkloadAdmitted i c
                   ∧ cond_Status c = ConditionTrue
                   ∧ cond_Reason c = "Admitted"
                   ∧ cond_Message c = "Admitted by ClusterQueue " +:+ ClusterQueue adm)
         ∧ IsAdmitted w' = true
         ∧ admissionMatchesCondition w')
  ∧ (let w' := UnsetAdmissionWithCondition trunc now1 sysnow w reason message in
     Admission_ (Status w') = None
     ∧ (∃ i c, firstOfType (Conditions (Status w')) WorkloadAdmitted i c
               ∧ cond_Status c = ConditionFalse
               ∧ cond_Reason c = reason
               ∧ cond_Message c = trunc message)
     ∧ IsAdmitted w' = false
     ∧ admissionMatchesCondition w').
Proof.
  split.
  - destruct (SetAdmission_result now1 now2 sysnow w adm) as (w' & Hw' & Ha & Hc).
    exists w'. unfold admissionMatchesCondition. rewrite Ha, Hc.
    split_and!; try done.
    unfold SetAdmission in Hw'. injection Hw' as <-. cbn [Status Conditions].
    set (admittedCond := mkCondition WorkloadAdmitted ConditionTrue now1 "Admitted"
                           ("Admitted by ClusterQueue " +:+ ClusterQueue adm) 0).
    destruct (SetStatusCondition_first sysnow (Conditions (Status w)) admittedCond)
      as (i & c & Hfirst & Hs & Hr & Hm).
    exists i, c. split; [|done].
    destruct (apimeta.FindStatusCondition
                (apimeta.SetStatusCondition sysnow (Conditions (Status w)) admittedCond)
                WorkloadEvicted) as [k|] eqn:Hfind; [|done].
    destruct (FindStatusCondition_Some _ _ _ Hfind) as (old & Hl & Ht & _).
    rewrite Hl. eapply firstOfType_insert_other; [done|done|done|].
    by rewrite Ht.
  - destruct (UnsetAdmission_result trunc now1 sysnow w reason message) as [Ha Hc].
    cbn zeta. unfold admissionMatchesCondition. rewrite Ha, Hc.
    split_and!; try done; try (by intros [? [=]]).
    destruct (SetStatusCondition_first sysnow (Conditions (Status w))
                (mkCondition WorkloadAdmitted ConditionFalse now1 reason (trunc message) 0))
      as (i & c & Hfirst & Hs & Hr & Hm).
    by exists i, c.
Qed.

(** A workload whose admission is set and then unset, as the scheduler and
    the PodsReady monitor do in turn. *)
Example set_then_unset_admission :
  let w := mkWorkload "ns" "w1" 100 (mkWorkloadSpec [] "q") (mkWorkloadStatus None []) in
  (w' ← SetAdmission 200 200 200 w (Some (mkAdmission "prod" []));
   Some (IsAdmitted w',
         IsAdmitted (UnsetAdmissionWithCondition id 300 300 w' "Evicted" "timeout")))
  = Some (true, false).
Proof. reflexivity. Qed.

End AdmissionInvariant.

(** *** Representative modes *)

Section RepresentativeMode.
Context `{KubeHelpers}.
Import kueue cache workload flavorassigner.

(** C10.  An assignment without pod sets has representative mode [NoFit],
    although the loop over its (no) pod sets would leave [Fit]; the
    assignment computed for a workload without pod sets is such an
    assignment. *)
Theorem empty_workload_is_NoFit :
  (∀ totalBorrow usage cached,
     (Assignment_RepresentativeMode (mkAssignment [] totalBorrow usage cached)).1 = NoFit)
  ∧ worstPodSetMode [] = Fit
  ∧ (∀ obj name resourceFlavors cq,
       ∃ a, AssignFlavors (mkInfo obj [] name) resourceFlavors cq = Some a
            ∧ asg_PodSets a = []
            ∧ (Assignment_RepresentativeMode a).1 = NoFit).
Proof.
  split; [done|]. split; [done|].
  intros obj name resourceFlavors cq. eexists. by split; [reflexivity|].
Qed.

End RepresentativeMode.

(** *** The selector of a resource group *)

Section Selector.
Import kueue cache workload flavorassigner.

Lemma elem_of_groupLabelKeys (resourceFlavors : gmap string ResourceFlavor)
    (rg : ResourceGroup) (k : string) :
  k ∈ groupLabelKeys resourceFlavors rg ↔ labelsSomeFlavor resourceFlavors rg k.
Proof.
  unfold groupLabelKeys, labelsSomeFlavor. rewrite elem_of_union_list. split.
  - intros (X & HX & Hk). apply list_elem_of_fmap in HX as (fq & -> & Hfq).
    destruct (resourceFlavors !! fq_Name fq) as [flavor|] eqn:Hf; [|set_solver].
    exists fq, flavor. by rewrite <- elem_of_dom.
  - intros (fq & flavor & Hfq & Hf & Hk).
    eexists. split; [apply list_elem_of_fmap; by exists fq|].
    rewrite Hf. by apply elem_of_dom.
Qed.

(** The loop over the terms either copies every term, filtered, or stops at
    the first term that becomes empty and leaves nothing. *)
Lemma filterTerms_spec (allowedKeys : gset string) (terms acc : list NodeSelectorTerm) :
  filterTerms allowedKeys terms acc
  = if bool_decide (Forall (λ t, allowedExpressions allowedKeys t ≠ []) terms)
    then acc ++ ((λ t, mkTerm (allowedExpressions allowedKeys t) []) <$> terms)
    else [].
Proof.
  revert acc. induction terms as [|t terms IH]; intros acc.
  - cbn [filterTerms]. rewrite bool_decide_eq_true_2 by constructor.
    by rewrite app_nil_r.
  - change (filterTerms allowedKeys (t :: terms) acc)
      with (if bool_decide (length (allowedExpressions allowedKeys t) = 0%nat) then []
            else filterTerms allowedKeys terms
                   (acc ++ [mkTerm (allowedExpressions allowedKeys t) []])).
    destruct (allowedExpressions allowedKeys t) as [|e es] eqn:He.
    + rewrite (bool_decide_eq_true_2 (length [] = 0%nat)) by done.
      rewrite bool_decide_eq_false_2; [done|].
      intros [Hne _]%Forall_cons. by rewrite He in Hne.
    + rewrite (bool_decide_eq_false_2 (length (e :: es) = 0%nat)) by done.
      rewrite IH. case_bool_decide as Hall.
      * rewrite bool_decide_eq_true_2.
        -- rewrite fmap_cons, He. by rewrite <- app_assoc.
        -- constructor; [by rewrite He | done].
      * rewrite bool_decide_eq_false_2; [done|]. by intros [_ ?]%Forall_cons.
Qed.

(** C6.  The selector built for a resource group keeps of the node selector
    the entries, and of every required term the match expressions, whose
    key labels some flavor of the group.  When that leaves some required
    term empty, the required node affinity is dropped as a whole and the
    filtered node selector is the only constraint; when it leaves no term
    empty, every term is kept with its filtered expressions. *)
Theorem flavorSelector_filters (resourceFlavors : gmap string ResourceFlavor)
    (rg : ResourceGroup) (spec : PodSpec) :
  LabelKeys rg = groupLabelKeys resourceFlavors rg →
  let selector := flavorSelector spec (LabelKeys rg) in
  (∀ k v, spec_NodeSelector selector !! k = Some v
          ↔ spec_NodeSelector spec !! k = Some v
            ∧ labelsSomeFlavor resourceFlavors rg k)
  ∧ (∀ t e, e ∈ allowedExpressions (LabelKeys rg) t
            ↔ e ∈ MatchExpressions t ∧ labelsSomeFlavor resourceFlavors rg (nsr_Key e))
  ∧ (∀ terms, requiredTerms spec = Some terms →
       (Exists (λ t, allowedExpressions (LabelKeys rg) t = []) terms →
          spec_Affinity selector = None
          ∧ selector = mkPodSpec (spec_NodeSelector selector) None [])
       ∧ (Forall (λ t, allowedExpressions (LabelKeys rg) t ≠ []) terms → terms ≠ [] →
          requiredTerms selector
          = Some ((λ t, mkTerm (allowedExpressions (LabelKeys rg) t) []) <$> terms)))
  ∧ (requiredTerms spec = None → spec_Affinity selector = None).
Proof.
  intros Hkeys. cbn zeta.
  assert (Hin : ∀ k, k ∈ LabelKeys rg ↔ labelsSomeFlavor resourceFlavors rg k).
  { intros k. rewrite Hkeys. apply elem_of_groupLabelKeys. }
  split_and!.
  - intros k v. unfold flavorSelector. cbn. case_bool_decide as Hsize.
    + rewrite map_lookup_filter_Some. cbn. by rewrite Hin.
    + assert (spec_NodeSelector spec = ∅) as ->.
      { apply map_size_empty_iff. lia. }
      rewrite lookup_empty. split; [done | by intros [? _]].
  - intros t e. unfold allowedExpressions.
    rewrite !list_elem_of_In, filter_In, bool_decide_eq_true, Hin. done.
  - intros terms Hterms. unfold requiredTerms in Hterms.
    unfold flavorSelector, requiredTerms. cbn.
    destruct (spec_Affinity spec) as [a|]; [|done]. cbn in *.
    destruct (aff_NodeAffinity a) as [na|]; [|done]. cbn in *.
    destruct (RequiredDuringSchedulingIgnoredDuringExecution na) as [req|]; [|done].
    cbn in *. injection Hterms as <-.
    rewrite filterTerms_spec. cbn [app].
    destruct (decide (Forall (λ t, allowedExpressions (LabelKeys rg) t ≠ [])
                        (NodeSelectorTerms req))) as [Hall|Hnall].
    + rewrite (bool_decide_eq_true_2 (Forall _ _) Hall). split.
      * intros Hex. exfalso. apply Exists_exists in Hex as (t & Ht & Hempty).
        rewrite Forall_forall in Hall. by apply (Hall t).
      * intros _ Hne. rewrite bool_decide_eq_true_2; [done|].
        rewrite length_fmap. destruct (NodeSelectorTerms req); [done|]. cbn. lia.
    + rewrite (bool_decide_eq_false_2 (Forall _ _) Hnall). by split.
  - unfold requiredTerms, flavorSelector. cbn.
    destruct (spec_Affinity spec) as [a|]; [|done]. cbn.
    destruct (aff_NodeAffinity a) as [na|]; [|done]. cbn.
    destruct (RequiredDuringSchedulingIgnoredDuringExecution na) as [req|]; done.
Qed.

Lemma flavorSelector_filters_witness :
  LabelKeys tests.oneTwoGroup = groupLabelKeys tests.resourceFlavors tests.oneTwoGroup
  ∧ flavorSelector tests.anyFlavorSpec (LabelKeys tests.oneTwoGroup)
    = mkPodSpec ∅ None [].
Proof.
  assert (Hkeys : LabelKeys tests.oneTwoGroup
                  = groupLabelKeys tests.resourceFlavors tests.oneTwoGroup)
    by (vm_compute; reflexivity).
  split; [exact Hkeys|].
  destruct (flavorSelector_filters tests.resourceFlavors tests.oneTwoGroup
              tests.anyFlavorSpec Hkeys) as (_ & _ & Hterms & _).
  destruct (Hterms _ eq_refl) as [Hdrop _].
  destruct Hdrop as [_ ->]; [by left | reflexivity].
Defined.

(** "multiple flavors, fits a node selector": the entry [ignored1] and the
    term on [ignored2] are dropped, the entry [type] stays. *)
Example flavorSelector_nodeSelector :
  flavorSelector tests.nodeSelectorSpec (LabelKeys tests.oneTwoGroup)
  = mkPodSpec {[ "type" := "two" ]} None [].
Proof. vm_compute. reflexivity. Qed.

End Selector.

(** *** The flavors of a resource group *)

Section FlavorLoop.
Context `{KubeHelpers}.
Import kueue cache workload flavorassigner.

Lemma FindMatchingUntoleratedTaint_Some (taints : list Taint) (spec : PodSpec)
    (taint : Taint) :
  FindMatchingUntoleratedTaint taints (spec_Tolerations spec) taintFilter = Some taint →
  taint ∈ taints ∧ schedulingTaint taint ∧ ¬ toleratedByPod spec taint.
Proof.
  unfold FindMatchingUntoleratedTaint. intros Hfind.
  apply find_some in Hfind as [Hin Hneg].
  apply filter_In in Hin as [Hin Hfilter].
  split; [by apply list_elem_of_In|]. split.
  - unfold taintFilter in Hfilter. apply orb_true_iff in Hfilter.
    unfold schedulingTaint. by rewrite !bool_decide_eq_true in Hfilter.
  - intros (tol & Htol & Htolerates).
    apply negb_true_iff in Hneg.
    assert (existsb (λ tol, ToleratesTaint tol taint) (spec_Tolerations spec) = true);
      [|congruence].
    apply existsb_exists. exists tol. by rewrite <- list_elem_of_In.
Qed.

Lemma FindMatchingUntoleratedTaint_None (taints : list Taint) (spec : PodSpec) :
  FindMatchingUntoleratedTaint taints (spec_Tolerations spec) taintFilter = None
  ↔ ∀ taint, taint ∈ taints → schedulingTaint taint → toleratedByPod spec taint.
Proof.
  unfold FindMatchingUntoleratedTaint. split.
  - intros Hnone taint Hin Hsched.
    pose proof (find_none _ _ Hnone taint) as Hall.
    rewrite negb_false_iff in Hall.
    assert (Hex : existsb (λ tol, ToleratesTaint tol taint) (spec_Tolerations spec) = true).
    { apply Hall. apply filter_In. split; [by apply list_elem_of_In|].
      unfold taintFilter. apply orb_true_iff.
      rewrite !bool_decide_eq_true. exact Hsched. }
    apply existsb_exists in Hex as (tol & Htol & Htolerates).
    exists tol. by rewrite list_elem_of_In.
  - intros Hall.
    destruct (List.find _ _) as [taint|] eqn:Hfind; [|done].
    exfalso. apply FindMatchingUntoleratedTaint_Some in Hfind as (Hin & Hsched & Hnot).
    by apply Hnot, Hall.
Qed.

(** The three gates of the loop body, as [tryFlavor] checks them in turn. *)
Lemma tryFlavor_gates (a : Assignment)
    (resourceFlavors : gmap string ResourceFlavor) (cq : ClusterQueue)
    (spec selector : PodSpec) (requests : Requests) (flvQuotas : FlavorQuotas) :
  let try := tryFlavor a resourceFlavors cq spec selector requests flvQuotas in
  (resourceFlavors !! fq_Name flvQuotas = None →
     try = Skipped (msgFlavorNotFound (fq_Name flvQuotas)))
  ∧ (∀ flavor,
       resourceFlavors !! fq_Name flvQuotas = Some flavor →
       (∃ taint, taint ∈ NodeTaints flavor ∧ schedulingTaint taint
                 ∧ ¬ toleratedByPod spec taint) →
       ∃ taint, taint ∈ NodeTaints flavor ∧ schedulingTaint taint
                ∧ ¬ toleratedByPod spec taint
                ∧ try = Skipped (msgUntolerated taint (fq_Name flvQuotas)))
  ∧ (∀ flavor,
       resourceFlavors !! fq_Name flvQuotas = Some flavor →
       (∀ taint, taint ∈ NodeTaints flavor → schedulingTaint taint →
                 toleratedByPod spec taint) →
       SelectorMatch selector (NodeLabels flavor) = (false, None) →
       try = Skipped (msgNoAffinity (fq_Name flvQuotas))).
Proof.
  cbn zeta. split_and!.
  - intros Hnone. unfold tryFlavor. by rewrite Hnone.
  - intros flavor Hflavor (taint0 & Hin0 & Hsched0 & Hnot0).
    destruct (FindMatchingUntoleratedTaint (NodeTaints flavor) (spec_Tolerations spec)
                taintFilter) as [taint|] eqn:Hfind.
    + exists taint.
      destruct (FindMatchingUntoleratedTaint_Some _ _ _ Hfind) as (Hin & Hsched & Hnot).
      split_and!; [done..|].
      unfold tryFlavor. by rewrite Hflavor, Hfind.
    + exfalso. apply Hnot0.
      by apply (proj1 (FindMatchingUntoleratedTaint_None _ _) Hfind).
  - intros flavor Hflavor Htolerated Hmatch.
    apply FindMatchingUntoleratedTaint_None in Htolerated.
    unfold tryFlavor. by rewrite Hflavor, Htolerated, Hmatch.
Qed.

Lemma mode_eqb_eq (m1 m2 : FlavorAssignmentMode) : mode_eqb m1 m2 = true ↔ m1 = m2.
Proof. by destruct m1, m2. Qed.

Lemma bestOutcomeMode_cons (o : FlavorOutcome) (os : list FlavorOutcome) :
  bestOutcomeMode (o :: os)
  = if mode_ltb (bestOutcomeMode os) (outcomeMode o) then outcomeMode o
    else bestOutcomeMode os.
Proof. reflexivity. Qed.

Lemma bestOutcomeMode_achieved (os : list FlavorOutcome) :
  bestOutcomeMode os = NoFit ∨ ∃ o, o ∈ os ∧ outcomeMode o = bestOutcomeMode os.
Proof.
  induction os as [|o os IH]; [by left|]. rewrite bestOutcomeMode_cons.
  destruct (mode_ltb (bestOutcomeMode os) (outcomeMode o)).
  - right. exists o. split; [by left | done].
  - destruct IH as [IH|(o' & Hin & Ho')]; [by left|].
    right. exists o'. split; [by right | done].
Qed.

Lemma bestOutcomeMode_belowFit (os : list FlavorOutcome) :
  Forall belowFit os → bestOutcomeMode os ≠ Fit.
Proof.
  intros Hall Hfit.
  destruct (bestOutcomeMode_achieved os) as [Hno|(o & Hin & Ho)]; [congruence|].
  rewrite Forall_forall in Hall. specialize (Hall o Hin).
  rewrite Hfit in Ho. destruct o; cbn in *; congruence.
Qed.

Lemma firstBestAssignments_NoFit (o : FlavorOutcome) (os : list FlavorOutcome) :
  outcomeMode o = NoFit → firstBestAssignments (o :: os) = firstBestAssignments os.
Proof.
  intros Ho. unfold firstBestAssignments. rewrite bestOutcomeMode_cons.
  cbn [List.find]. rewrite Ho.
  assert (mode_ltb (bestOutcomeMode os) NoFit = false) as -> by (by destruct (bestOutcomeMode os)).
  destruct (mode_eqb (bestOutcomeMode os) NoFit) eqn:Hbest; [done|].
  assert (mode_eqb NoFit (bestOutcomeMode os) = false) as ->; [|done].
  by destruct (bestOutcomeMode os).
Qed.

Lemma firstBestAssignments_Preempt (o : FlavorOutcome) (os : list FlavorOutcome) :
  outcomeMode o = Preempt → Forall belowFit os →
  firstBestAssignments (o :: os) = outcomeAssignments o.
Proof.
  intros Ho Hall. unfold firstBestAssignments. rewrite bestOutcomeMode_cons.
  cbn [List.find]. rewrite Ho.
  pose proof (bestOutcomeMode_belowFit os Hall).
  by destruct (bestOutcomeMode os).
Qed.

(** The loop over flavors none of which reaches [Fit]: every reason is
    accumulated in declared order, and the assignment kept is the one held
    at [Preempt] already, or else that of the first flavor achieving the
    best mode. *)
Lemma findFlavorLoop_belowFit (a : Assignment)
    (resourceFlavors : gmap string ResourceFlavor) (cq : ClusterQueue)
    (spec selector : PodSpec) (requests : Requests) (flavors : list FlavorQuotas)
    (status : Status) (best : ResourceAssignment) (bestMode : FlavorAssignmentMode) :
  let try := tryFlavor a resourceFlavors cq spec selector requests in
  bestMode ≠ Fit →
  (bestMode = NoFit → best = ∅) →
  Forall (λ flvQuotas, belowFit (try flvQuotas)) flavors →
  findFlavorLoop a resourceFlavors cq spec selector requests flavors status best bestMode
  = Some (if mode_eqb bestMode NoFit then firstBestAssignments (try <$> flavors) else best,
          Some (mkStatus (reasons status ++ concat ((λ fq, outcomeReasons (try fq)) <$> flavors))
                         (err status))).
Proof.
  cbn zeta. revert status best bestMode.
  induction flavors as [|fq rest IH]; intros status best bestMode Hbm Hbest Hall.
  - cbn. rewrite app_nil_r. destruct status, bestMode; cbn; try done.
    by rewrite Hbest.
  - apply Forall_cons in Hall as [Hfq Hrest].
    assert (Hrest' : Forall belowFit
              (tryFlavor a resourceFlavors cq spec selector requests <$> rest)).
    { by apply Forall_fmap. }
    cbn [findFlavorLoop fmap list_fmap concat].
    destruct (tryFlavor a resourceFlavors cq spec selector requests fq)
      as [reason| | |asg m rs] eqn:Htry; cbn in Hfq; try done.
    + rewrite IH by done. cbn. rewrite <- app_assoc. f_equal. f_equal.
      destruct (mode_eqb bestMode NoFit); [|done].
      by rewrite firstBestAssignments_NoFit.
    + destruct m; [| |done].
      * assert (mode_ltb bestMode NoFit = false) as -> by (by destruct bestMode).
        rewrite IH by done. cbn. rewrite <- app_assoc. f_equal. f_equal.
        destruct (mode_eqb bestMode NoFit); [|done].
        by rewrite firstBestAssignments_NoFit.
      * destruct bestMode; [| |done]; cbn.
        -- rewrite IH by done. cbn. rewrite <- app_assoc. f_equal. f_equal.
           by rewrite firstBestAssignments_Preempt.
        -- rewrite IH by done. cbn. by rewrite <- app_assoc.
Qed.

(** The loop returns at the first flavor that reaches [Fit]. *)
Lemma findFlavorLoop_Fit (a : Assignment)
    (resourceFlavors : gmap string ResourceFlavor) (cq : ClusterQueue)
    (spec selector : PodSpec) (requests : Requests)
    (pre : list FlavorQuotas) (fq : FlavorQuotas) (post : list FlavorQuotas)
    (asg : ResourceAssignment) (rs : list string)
    (status : Status) (best : ResourceAssignment) (bestMode : FlavorAssignmentMode) :
  let try := tryFlavor a resourceFlavors cq spec selector requests in
  bestMode ≠ Fit →
  Forall (λ flvQuotas, belowFit (try flvQuotas)) pre →
  try fq = Evaluated asg Fit rs →
  findFlavorLoop a resourceFlavors cq spec selector requests (pre ++ fq :: post)
    status best bestMode
  = Some (asg, None).
Proof.
  cbn zeta. intros Hbm Hpre Hfq. revert status best bestMode Hbm.
  induction pre as [|fq' pre IH]; intros status best bestMode Hbm.
  - cbn [app findFlavorLoop]. rewrite Hfq. by destruct bestMode.
  - apply Forall_cons in Hpre as [Hfq' Hpre]. cbn [app findFlavorLoop].
    destruct (tryFlavor a resourceFlavors cq spec selector requests fq')
      as [reason| | |asg' m rs'] eqn:Htry; cbn in Hfq'; try done.
    + by apply IH.
    + destruct m; [| |done].
      * assert (mode_ltb bestMode NoFit = false) as -> by (by destruct bestMode).
        by apply IH.
      * destruct bestMode; [| |done]; cbn; by apply IH.
Qed.

(** The loop returns at the first flavor whose selector fails with an
    error, with the reasons accumulated up to there. *)
Lemma findFlavorLoop_SelectorError (a : Assignment)
    (resourceFlavors : gmap string ResourceFlavor) (cq : ClusterQueue)
    (spec selector : PodSpec) (requests : Requests)
    (pre : list FlavorQuotas) (fq : FlavorQuotas) (post : list FlavorQuotas)
    (e : string)
    (status : Status) (best : ResourceAssignment) (bestMode : FlavorAssignmentMode) :
  let try := tryFlavor a resourceFlavors cq spec selector requests in
  bestMode ≠ Fit →
  Forall (λ flvQuotas, belowFit (try flvQuotas)) pre →
  try fq = SelectorError e →
  findFlavorLoop a resourceFlavors cq spec selector requests (pre ++ fq :: post)
    status best bestMode
  = Some (∅, Some (mkStatus
                     (reasons status ++ concat ((λ fq', outcomeReasons (try fq')) <$> pre))
                     (Some e))).
Proof.
  cbn zeta. intros Hbm Hpre Hfq. revert status best bestMode Hbm.
  induction pre as [|fq' pre IH]; intros status best bestMode Hbm.
  - cbn [app findFlavorLoop fmap list_fmap concat]. rewrite Hfq. by rewrite app_nil_r.
  - apply Forall_cons in Hpre as [Hfq' Hpre].
    cbn [app findFlavorLoop fmap list_fmap concat].
    destruct (tryFlavor a resourceFlavors cq spec selector requests fq')
      as [reason| | |asg' m rs'] eqn:Htry; cbn in Hfq'; try done.
    + rewrite IH by done. cbn. by rewrite <- app_assoc.
    + destruct m; [| |done].
      * assert (mode_ltb bestMode NoFit = false) as -> by (by destruct bestMode).
        rewrite IH by done. cbn. by rewrite <- app_assoc.
      * destruct bestMode; [| |done]; cbn; rewrite IH by done; cbn;
          by rewrite <- app_assoc.
Qed.

Lemma bestOutcomeMode_skip (o : FlavorOutcome) (l1 l2 : list FlavorOutcome) :
  outcomeMode o = NoFit → bestOutcomeMode (l1 ++ o :: l2) = bestOutcomeMode (l1 ++ l2).
Proof.
  intros Ho. induction l1 as [|o' l1 IH]; cbn [app].
  - rewrite bestOutcomeMode_cons, Ho. by destruct (bestOutcomeMode l2).
  - by rewrite !bestOutcomeMode_cons, IH.
Qed.

(** A flavor at [NoFit] plays no part in the choice of the best
    assignment. *)
Lemma firstBestAssignments_skip (o : FlavorOutcome) (l1 l2 : list FlavorOutcome) :
  outcomeMode o = NoFit →
  firstBestAssignments (l1 ++ o :: l2) = firstBestAssignments (l1 ++ l2).
Proof.
  intros Ho. unfold firstBestAssignments. rewrite bestOutcomeMode_skip by done.
  generalize (bestOutcomeMode (l1 ++ l2)). intros m.
  destruct (mode_eqb m NoFit) eqn:Hbest; [done|].
  assert (Hfind : ∀ l,
    List.find (λ o', mode_eqb (outcomeMode o') m) (l ++ o :: l2)
    = List.find (λ o', mode_eqb (outcomeMode o') m) (l ++ l2)).
  { intros l. induction l as [|o' l IH]; cbn [app List.find]; [|by rewrite IH].
    rewrite Ho. by destruct m. }
  by rewrite Hfind.
Qed.

(** A flavor that the loop skips, the flavors before it not reaching
    [Fit]. *)
Lemma skipped_flavor (a : Assignment)
    (resourceFlavors : gmap string ResourceFlavor) (cq : ClusterQueue)
    (spec : PodSpec) (rg : ResourceGroup) (requests : Requests)
    (pre : list FlavorQuotas) (flvQuotas : FlavorQuotas) (post : list FlavorQuotas)
    (reason : string) :
  let outcome := groupOutcome a resourceFlavors cq spec rg requests in
  Flavors rg = pre ++ flvQuotas :: post →
  Forall (λ fq, belowFit (outcome fq)) pre →
  outcome flvQuotas = Skipped reason →
  skippedWith a resourceFlavors cq spec rg requests pre post reason.
Proof.
  cbn zeta. intros Hflavors Hpre Hskip.
  unfold skippedWith, findFlavorForResourceGroup, groupOutcome in *. cbn zeta.
  set (try := tryFlavor a resourceFlavors cq spec (flavorSelector spec (LabelKeys rg))
                (filterRequestedResources requests (CoveredResources rg))) in *.
  rewrite Hflavors.
  assert (Hupto : ∀ mid, Forall (λ fq, belowFit (try fq)) mid →
            Forall (λ fq, belowFit (try fq)) (pre ++ flvQuotas :: mid)).
  { intros mid Hmid. apply Forall_app. split; [done|]. apply Forall_cons.
    split; [|done]. by rewrite Hskip. }
  split_and!.
  - intros mid next rest asg rs -> Hmid Hnext.
    replace (pre ++ flvQuotas :: mid ++ next :: rest)
      with ((pre ++ flvQuotas :: mid) ++ next :: rest) by (by rewrite <- app_assoc).
    eapply findFlavorLoop_Fit; [done|by apply Hupto|exact Hnext].
  - intros mid next rest e -> Hmid Hnext.
    replace (pre ++ flvQuotas :: mid ++ next :: rest)
      with ((pre ++ flvQuotas :: mid) ++ next :: rest) by (by rewrite <- app_assoc).
    rewrite (findFlavorLoop_SelectorError _ _ _ _ _ _ _ _ _ e); [|done|by apply Hupto|done].
    fold try. cbn [reasons app]. do 4 f_equal.
    rewrite fmap_app, fmap_cons, concat_app. cbn [concat]. by rewrite Hskip.
  - intros Hpost. rewrite findFlavorLoop_belowFit; [|done|done|].
    + fold try. cbn [reasons err app]. do 2 f_equal.
      * rewrite !fmap_app, fmap_cons, Hskip.
        by apply firstBestAssignments_skip.
      * f_equal. rewrite fmap_app, fmap_cons, concat_app. cbn [concat].
        by rewrite Hskip.
    + apply Forall_app. split; [done|]. apply Forall_cons. split; [|done].
      fold try. by rewrite Hskip.
Qed.

(** C5.  A flavor of a resource group that the loop reaches (every flavor
    declared before it was skipped or evaluated to a mode below [Fit]) and
    that does not pass a gate is skipped with the reason of the gate, and
    the flavors declared after it are tried:
    - a flavor that is absent from the catalogue, with
      "flavor ... not found";
    - a flavor with a [NoSchedule] or [NoExecute] taint that the pod does
      not tolerate, with "untolerated taint ..." for such a taint;
    - a flavor whose taints are tolerated and whose labels the filtered
      selector does not match, with "flavor ... doesn't match node
      affinity".
    Skipped means: the first later flavor to reach [Fit] is returned with a
    nil status; a later flavor whose selector fails with an error ends the
    loop with the reasons up to there; when no later flavor reaches [Fit],
    the returned status holds the reasons of all the flavors in declared
    order, and the returned assignment is the best of the other flavors.
    In the reasons the skipped flavor has the one reason of its gate. *)
Theorem gated_flavor_is_skipped (a : Assignment)
    (resourceFlavors : gmap string ResourceFlavor) (cq : ClusterQueue)
    (spec : PodSpec) (rg : ResourceGroup) (requests : Requests)
    (pre : list FlavorQuotas) (flvQuotas : FlavorQuotas) (post : list FlavorQuotas) :
  let selector := flavorSelector spec (LabelKeys rg) in
  let outcome := groupOutcome a resourceFlavors cq spec rg requests in
  let skipped := skippedWith a resourceFlavors cq spec rg requests pre post in
  Flavors rg = pre ++ flvQuotas :: post →
  Forall (λ fq, belowFit (outcome fq)) pre →
  (resourceFlavors !! fq_Name flvQuotas = None →
     skipped (msgFlavorNotFound (fq_Name flvQuotas)))
  ∧ (∀ flavor,
       resourceFlavors !! fq_Name flvQuotas = Some flavor →
       (∃ taint, taint ∈ NodeTaints flavor ∧ schedulingTaint taint
                 ∧ ¬ toleratedByPod spec taint) →
       ∃ taint, taint ∈ NodeTaints flavor ∧ schedulingTaint taint
                ∧ ¬ toleratedByPod spec taint
                ∧ skipped (msgUntolerated taint (fq_Name flvQuotas)))
  ∧ (∀ flavor,
       resourceFlavors !! fq_Name flvQuotas = Some flavor →
       (∀ taint, taint ∈ NodeTaints flavor → schedulingTaint taint →
                 toleratedByPod spec taint) →
       SelectorMatch selector (NodeLabels flavor) = (false, None) →
       skipped (msgNoAffinity (fq_Name flvQuotas))).
Proof.
  cbn zeta. intros Hflavors Hpre.
  destruct (tryFlavor_gates a resourceFlavors cq spec (flavorSelector spec (LabelKeys rg))
              (filterRequestedResources requests (CoveredResources rg)) flvQuotas)
    as (Hcatalogue & Htaint & Haffinity).
  split_and!.
  - intros Hnone. eapply skipped_flavor; [done|done|]. by apply Hcatalogue.
  - intros flavor Hflavor Huntolerated.
    destruct (Htaint flavor Hflavor Huntolerated) as (taint & Hin & Hsched & Hnot & Htry).
    exists taint. split_and!; [done..|]. by eapply skipped_flavor.
  - intros flavor Hflavor Htolerated Hmatch.
    eapply skipped_flavor; [done|done|]. by eapply Haffinity.
Qed.

(** C4.  For a resource group, with the outcome of each of its flavors for
    the requests of the pod set:
    - the flavors are evaluated in declared order and the assigner returns
      at the first flavor whose mode is [Fit], with the assignments of that
      flavor and a nil status, whatever comes after it;
    - when no flavor reaches [Fit], the assigner keeps the first flavor, in
      declared order, that achieves the best mode, and returns it with all
      accumulated reasons; in particular of two flavors at [Preempt] the
      earlier-declared one is kept;
    - when every flavor is [NoFit], the assigner returns no assignment and
      all accumulated reasons. *)
Theorem findFlavorForResourceGroup_best (a : Assignment) (rg : ResourceGroup)
    (requests : Requests) (resourceFlavors : gmap string ResourceFlavor)
    (cq : ClusterQueue) (spec : PodSpec) :
  let outcome := groupOutcome a resourceFlavors cq spec rg requests in
  let result := findFlavorForResourceGroup a rg requests resourceFlavors cq spec in
  let allReasons := concat ((λ fq, outcomeReasons (outcome fq)) <$> Flavors rg) in
  (∀ pre fq post asg rs,
     Flavors rg = pre ++ fq :: post →
     Forall (λ fq', belowFit (outcome fq')) pre →
     outcome fq = Evaluated asg Fit rs →
     result = Some (asg, None))
  ∧ (Forall (λ fq, belowFit (outcome fq)) (Flavors rg) →
     result = Some (firstBestAssignments (outcome <$> Flavors rg),
                    Some (mkStatus allReasons None)))
  ∧ (∀ pre fq post asg rs,
     Flavors rg = pre ++ fq :: post →
     Forall (λ fq', belowFit (outcome fq')) (Flavors rg) →
     Forall (λ fq', outcomeMode (outcome fq') = NoFit) pre →
     outcome fq = Evaluated asg Preempt rs →
     result = Some (asg, Some (mkStatus allReasons None)))
  ∧ (Forall (λ fq, belowFit (outcome fq) ∧ outcomeMode (outcome fq) = NoFit)
            (Flavors rg) →
     result = Some (∅, Some (mkStatus allReasons None))).
Proof.
  cbn zeta. unfold findFlavorForResourceGroup, groupOutcome.
  set (try := tryFlavor a resourceFlavors cq spec (flavorSelector spec (LabelKeys rg))
                (filterRequestedResources requests (CoveredResources rg))).
  assert (Hbelow : Forall (λ fq, belowFit (try fq)) (Flavors rg) →
    findFlavorLoop a resourceFlavors cq spec (flavorSelector spec (LabelKeys rg))
      (filterRequestedResources requests (CoveredResources rg)) (Flavors rg)
      (mkStatus [] None) ∅ NoFit
    = Some (firstBestAssignments (try <$> Flavors rg),
            Some (mkStatus (concat ((λ fq, outcomeReasons (try fq)) <$> Flavors rg)) None))).
  { intros Hall. by rewrite findFlavorLoop_belowFit. }
  split_and!.
  - intros pre fq post asg rs -> Hpre Hfq.
    by eapply findFlavorLoop_Fit.
  - exact Hbelow.
  - intros pre fq post asg rs Hflavors Hall Hpre Hfq.
    rewrite Hbelow by done. do 2 f_equal.
    rewrite Hflavors in Hall |- *. clear Hflavors Hbelow.
    apply Forall_app in Hall as [_ Hall]. apply Forall_cons in Hall as [_ Hpost].
    induction pre as [|fq' pre IH]; cbn [app fmap list_fmap].
    + rewrite firstBestAssignments_Preempt; [by rewrite Hfq | by rewrite Hfq |].
      by apply Forall_fmap.
    + apply Forall_cons in Hpre as [Hfq' Hpre].
      rewrite firstBestAssignments_NoFit by done. by apply IH.
  - intros Hall. rewrite Hbelow by (eapply Forall_impl; [exact Hall | by intros ? [? _]]).
    do 2 f_equal. clear Hbelow. induction (Flavors rg) as [|fq fqs IH]; [done|].
    apply Forall_cons in Hall as [[_ Hfq] Hall]. cbn [fmap list_fmap].
    rewrite firstBestAssignments_NoFit by done. by apply IH.
Qed.

End FlavorLoop.

(** *** The repository's tests, replayed *)

Section Replay.
Import kueue cache workload flavorassigner tests.

Example test_single_flavor_fits :
  view (run (infoOf [(mkPodSet "main" 1 plainSpec, [("cpu", 1000); ("memory", Mi)])])
          (queueOf
             [mkResourceGroup {[ "cpu"; "memory" ]}
                [mkFlavorQuotas "default"
                   {[ "cpu" := mkResourceQuota 1000 None;
                      "memory" := mkResourceQuota (2 * Mi) None ]}] ∅]
             ∅ None))%Z
  = Some (Fit,
          [("main",
            [("cpu", mkFlavorAssignment "default" Fit 0);
             ("memory", mkFlavorAssignment "default" Fit 0)], None)],
          []).
Proof. vm_compute. reflexivity. Qed.

Example test_fits_with_different_modes :
  view (run (infoOf [(mkPodSet "main" 1 plainSpec,
                      [("cpu", 3000); ("memory", 10 * Mi); ("example.com/gpu", 3)])])
          (queueOf
             [mkResourceGroup {[ "cpu"; "memory" ]}
                [mkFlavorQuotas "one"
                   {[ "cpu" := mkResourceQuota 2000 None;
                      "memory" := mkResourceQuota Gi None ]};
                 mkFlavorQuotas "two"
                   {[ "cpu" := mkResourceQuota 4000 None;
                      "memory" := mkResourceQuota (15 * Mi) None ]}] {[ "type" ]};
              mkResourceGroup {[ "example.com/gpu" ]}
                [mkFlavorQuotas "b_one"
                   {[ "example.com/gpu" := mkResourceQuota 4 None ]}] {[ "b_type" ]}]
             {[ "two" := {[ "memory" := 10 * Mi ]} ]}
             (Some (mkCohort
                      {[ "one" := {[ "cpu" := 2000; "memory" := Gi ]};
                         "two" := {[ "cpu" := 4000; "memory" := 15 * Mi ]};
                         "b_one" := {[ "example.com/gpu" := 4 ]} ]}
                      {[ "two" := {[ "memory" := 10 * Mi ]};
                         "b_one" := {[ "example.com/gpu" := 2 ]} ]}))))%Z
  = Some (Preempt,
          [("main",
            [("cpu", mkFlavorAssignment "two" Fit 0);
             ("memory", mkFlavorAssignment "two" Preempt 0);
             ("example.com/gpu", mkFlavorAssignment "b_one" Preempt 0)],
            Some (mkStatus
                    ["insufficient unused quota in cohort for cpu in flavor one, 1 more needed";
                     "insufficient unused quota in cohort for memory in flavor two, 5Mi more needed";
                     "insufficient unused quota in cohort for example.com/gpu in flavor b_one, 1 more needed"]
                    None))],
          []).
Proof. vm_compute. reflexivity. Qed.

Example test_skip_missing_flavor_and_node_selector :
  view (run (infoOf [(mkPodSet "main" 1 nodeSelectorSpec, [("cpu", 1000%Z)])])
          (queueOf
             [mkResourceGroup {[ "cpu" ]}
                [mkFlavorQuotas "non-existent" {[ "cpu" := mkResourceQuota 4000 None ]};
                 mkFlavorQuotas "one" {[ "cpu" := mkResourceQuota 4000 None ]};
                 mkFlavorQuotas "two" {[ "cpu" := mkResourceQuota 4000 None ]}]
                {[ "type" ]}]
             ∅ None))
  = Some (Fit, [("main", [("cpu", mkFlavorAssignment "two" Fit 0)], None)], []).
Proof. vm_compute. reflexivity. Qed.

Example test_node_affinity_fits_any_flavor :
  view (run (infoOf [(mkPodSet "main" 1 anyFlavorSpec, [("cpu", 1000%Z)])])
          (queueOf [oneTwoGroup] ∅ None))
  = Some (Fit, [("main", [("cpu", mkFlavorAssignment "one" Fit 0)], None)], []).
Proof. vm_compute. reflexivity. Qed.

Example test_each_podset_preempts_on_a_different_flavor :
  view (run (infoOf
               [(mkPodSet "launcher" 1 plainSpec, [("cpu", 2000%Z)]);
                (mkPodSet "workers" 10
                   (mkPodSpec ∅ None [mkToleration "instance" "Equal" "spot" "NoSchedule"]),
                 [("cpu", 10000%Z)])])
          (queueOf
             [mkResourceGroup {[ "cpu" ]}
                [mkFlavorQuotas "one" {[ "cpu" := mkResourceQuota 4000 None ]};
                 mkFlavorQuotas "tainted" {[ "cpu" := mkResourceQuota 10000 None ]}] ∅]
             {[ "one" := {[ "cpu" := 3000%Z ]}; "tainted" := {[ "cpu" := 3000%Z ]} ]}
             None))
  = Some (Preempt,
          [("launcher", [("cpu", mkFlavorAssignment "one" Preempt 0)],
            Some (mkStatus
                    ["insufficient unused quota for cpu in flavor one, 1 more needed";
                     "untolerated taint {instance spot NoSchedule <nil>} in flavor tainted"]
                    None));
           ("workers", [("cpu", mkFlavorAssignment "tainted" Preempt 0)],
            Some (mkStatus
                    ["insufficient quota for cpu in flavor one in ClusterQueue";
                     "insufficient unused quota for cpu in flavor tainted, 3 more needed"]
                    None))],
          []).
Proof. vm_compute. reflexivity. Qed.

Example test_multiple_specs_fit_borrowing :
  view (run (infoOf
               [(mkPodSet "driver" 1 plainSpec, [("cpu", 4000); ("memory", Gi)]);
                (mkPodSet "worker" 1 plainSpec, [("cpu", 6000); ("memory", 4 * Gi)])])
          (queueOf
             [mkResourceGroup {[ "cpu"; "memory" ]}
                [mkFlavorQuotas "default"
                   {[ "cpu" := mkResourceQuota 2000 (Some 98000);
                      "memory" := mkResourceQuota (2 * Gi) None ]}] ∅]
             ∅
             (Some (mkCohort
                      {[ "default" := {[ "cpu" := 200000; "memory" := 200 * Gi ]} ]}
                      ∅))))%Z
  = Some (Fit,
          [("driver",
            [("cpu", mkFlavorAssignment "default" Fit 2000);
             ("memory", mkFlavorAssignment "default" Fit 0)], None);
           ("worker",
            [("cpu", mkFlavorAssignment "default" Fit 8000);
             ("memory", mkFlavorAssignment "default" Fit (3 * Gi))], None)],
          [("default", [("cpu", 8000); ("memory", 3 * Gi)])])%Z.
Proof. vm_compute. reflexivity. Qed.

Example test_past_max_but_can_preempt :
  view (run (infoOf [(mkPodSet "main" 1 plainSpec, [("cpu", 2000%Z)])]) pastMaxQueue)
  = Some (Preempt,
          [("main", [("cpu", mkFlavorAssignment "one" Preempt 0)],
            Some (mkStatus ["borrowing limit for cpu in flavor one exceeded"] None))],
          []).
Proof. vm_compute. reflexivity. Qed.

Example test_resource_not_listed :
  view (run (infoOf [(mkPodSet "main" 1 plainSpec, [("example.com/gpu", 2%Z)])])
          (queueOf
             [mkResourceGroup {[ "cpu" ]}
                [mkFlavorQuotas "one" {[ "cpu" := mkResourceQuota 4000 None ]}] ∅]
             ∅ None))
  = Some (NoFit,
          [("main", [],
            Some (mkStatus ["resource example.com/gpu unavailable in ClusterQueue"] None))],
          []).
Proof. vm_compute. reflexivity. Qed.

Example test_num_pods_do_not_fit :
  view (run (infoOf [(mkPodSet "main" 3 plainSpec, [("cpu", 3000%Z)])])
          (queueOf
             [mkResourceGroup {[ "cpu"; "pods" ]}
                [mkFlavorQuotas "default"
                   {[ "pods" := mkResourceQuota 2 None;
                      "cpu" := mkResourceQuota 10000 None ]}] ∅]
             ∅ None))
  = Some (NoFit,
          [("main", [],
            Some (mkStatus ["insufficient quota for pods in flavor default in ClusterQueue"]
                           None))],
          []).
Proof. vm_compute. reflexivity. Qed.

End Replay.

(** *** Pod sets *)

Section PodSets.
Context `{KubeHelpers}.
Import kueue cache workload flavorassigner.

Lemma mode_min_Fit (m1 m2 : FlavorAssignmentMode) :
  (if mode_ltb m1 m2 then m1 else m2) = Fit → m1 = Fit ∧ m2 = Fit.
Proof. by destruct m1, m2. Qed.

Lemma fitRequests_produced (a : Assignment) (cq : ClusterQueue) (fq : FlavorQuotas)
    (reqs0 reqs : Requests) (asg0 asg : ResourceAssignment)
    (m0 m : FlavorAssignmentMode) (rs0 rs : list string) :
  (∀ rv, rv ∈ reqs → rv ∈ reqs0) →
  fitRequests a cq fq reqs asg0 m0 rs0 = Some (asg, m, rs) →
  (∀ r fa, asg0 !! r = Some fa → producedBy a cq fq reqs0 r fa) →
  ∀ r fa, asg !! r = Some fa → producedBy a cq fq reqs0 r fa.
Proof.
  revert asg0 m0 rs0. induction reqs as [|[rName val] rest IH];
    intros asg0 m0 rs0 Hsub Hrun Hasg0.
  - cbn in Hrun. by simplify_eq.
  - cbn [fitRequests] in Hrun.
    destruct (fq_Resources fq !! rName) as [resQuota|] eqn:Hq; [|done].
    destruct (fitsResourceQuota (fq_Name fq) rName
                (int64.add val (frq_get (usage a) (fq_Name fq) rName)) cq resQuota)
      as [[mode borrow] s] eqn:Hfit.
    destruct (mode_eqb (if mode_ltb mode m0 then mode else m0) NoFit).
    + by simplify_eq.
    + eapply IH; [|exact Hrun|].
      * intros rv Hrv. apply Hsub. by right.
      * intros r fa. destruct (decide (rName = r)) as [<-|Hne].
        -- rewrite lookup_insert_eq. intros [= <-]. split; [done|].
           exists val, resQuota. split_and!; [apply Hsub; by left | done |].
           by rewrite Hfit.
        -- rewrite lookup_insert_ne by done. apply Hasg0.
Qed.

Lemma fitRequests_Fit (a : Assignment) (cq : ClusterQueue) (fq : FlavorQuotas)
    (reqs : Requests) (asg0 asg : ResourceAssignment)
    (m0 : FlavorAssignmentMode) (rs0 rs : list string) :
  fitRequests a cq fq reqs asg0 m0 rs0 = Some (asg, Fit, rs) →
  m0 = Fit
  ∧ (∀ r v, (r, v) ∈ reqs → is_Some (asg !! r))
  ∧ (∀ r, is_Some (asg0 !! r) → is_Some (asg !! r))
  ∧ (allFit asg0 → allFit asg).
Proof.
  revert asg0 m0 rs0. induction reqs as [|[rName val] rest IH];
    intros asg0 m0 rs0 Hrun.
  - cbn in Hrun. simplify_eq. split_and!; try done. by intros r v ?%elem_of_nil.
  - cbn [fitRequests] in Hrun.
    destruct (fq_Resources fq !! rName) as [resQuota|] eqn:Hq; [|done].
    destruct (fitsResourceQuota (fq_Name fq) rName
                (int64.add val (frq_get (usage a) (fq_Name fq) rName)) cq resQuota)
      as [[mode borrow] s] eqn:Hfit.
    destruct (mode_eqb (if mode_ltb mode m0 then mode else m0) NoFit) eqn:Hno.
    + injection Hrun as _ Hmin _. by rewrite Hmin in Hno.
    + apply IH in Hrun as (Hmin & Hall & Hkeep & Hfits).
      apply mode_min_Fit in Hmin as [-> ->]. split_and!; [done| | |].
      * intros r v [[= -> ->]|Hin]%elem_of_cons; [|by eapply Hall].
        apply Hkeep. by rewrite lookup_insert_eq.
      * intros r Hr. apply Hkeep. destruct (decide (rName = r)) as [<-|Hne].
        -- by rewrite lookup_insert_eq.
        -- by rewrite lookup_insert_ne.
      * intros Hasg0. apply Hfits. intros r fa.
        destruct (decide (rName = r)) as [<-|Hne].
        -- rewrite lookup_insert_eq. by intros [= <-].
        -- rewrite lookup_insert_ne by done. apply Hasg0.
Qed.

Lemma fitRequests_assigned (a : Assignment) (cq : ClusterQueue) (fq : FlavorQuotas)
    (reqs : Requests) (asg0 asg : ResourceAssignment)
    (m0 m : FlavorAssignmentMode) (rs0 rs : list string) :
  fitRequests a cq fq reqs asg0 m0 rs0 = Some (asg, m, rs) →
  m ≠ NoFit →
  (∀ r v, (r, v) ∈ reqs → is_Some (asg !! r))
  ∧ (∀ r, is_Some (asg0 !! r) → is_Some (asg !! r)).
Proof.
  revert asg0 m0 rs0. induction reqs as [|[rName val] rest IH];
    intros asg0 m0 rs0 Hrun Hm.
  - cbn in Hrun. simplify_eq. split; [by intros r v ?%elem_of_nil | done].
  - cbn [fitRequests] in Hrun.
    destruct (fq_Resources fq !! rName) as [resQuota|] eqn:Hq; [|done].
    destruct (fitsResourceQuota (fq_Name fq) rName
                (int64.add val (frq_get (usage a) (fq_Name fq) rName)) cq resQuota)
      as [[mode borrow] s] eqn:Hfit.
    destruct (mode_eqb (if mode_ltb mode m0 then mode else m0) NoFit) eqn:Hno.
    + apply mode_eqb_eq in Hno. by simplify_eq.
    + destruct (IH _ _ _ Hrun Hm) as [Hall Hkeep].
      assert (Hins : ∀ r, is_Some (asg0 !! r) ∨ r = rName → is_Some (asg !! r)).
      { intros r Hr. apply Hkeep. destruct (decide (rName = r)) as [<-|Hne].
        - by rewrite lookup_insert_eq.
        - rewrite lookup_insert_ne by done. by destruct Hr. }
      split.
      * intros r v [[= -> ->]|Hin]%elem_of_cons; [|by eapply Hall].
        apply Hins. by right.
      * intros r Hr. apply Hins. by left.
Qed.

Lemma fitRequests_total (a : Assignment) (cq : ClusterQueue) (fq : FlavorQuotas)
    (reqs : Requests) (asg0 : ResourceAssignment)
    (m0 : FlavorAssignmentMode) (rs0 : list string) :
  (∀ r v, (r, v) ∈ reqs → is_Some (fq_Resources fq !! r)) →
  is_Some (fitRequests a cq fq reqs asg0 m0 rs0).
Proof.
  revert asg0 m0 rs0. induction reqs as [|[rName val] rest IH];
    intros asg0 m0 rs0 Hcover; [done|].
  cbn [fitRequests].
  destruct (Hcover rName val) as [resQuota ->]; [by left|].
  destruct (fitsResourceQuota _ _ _ _ _) as [[mode borrow] s].
  destruct (mode_eqb _ _); [done|].
  apply IH. intros r v Hin. eapply Hcover. by right.
Qed.

Lemma tryFlavor_Evaluated (a : Assignment)
    (resourceFlavors : gmap string ResourceFlavor) (cq : ClusterQueue)
    (spec selector : PodSpec) (reqs : Requests) (fq : FlavorQuotas)
    (asg : ResourceAssignment) (m : FlavorAssignmentMode) (rs : list string) :
  tryFlavor a resourceFlavors cq spec selector reqs fq = Evaluated asg m rs →
  (∀ r fa, asg !! r = Some fa → producedBy a cq fq reqs r fa)
  ∧ (m = Fit → allFit asg)
  ∧ (m ≠ NoFit → ∀ r v, (r, v) ∈ reqs → is_Some (asg !! r)).
Proof.
  unfold tryFlavor. intros Htry.
  destruct (resourceFlavors !! fq_Name fq) as [flavor|]; [|done].
  destruct (FindMatchingUntoleratedTaint _ _ _); [done|].
  destruct (SelectorMatch selector (NodeLabels flavor)) as [match_ err].
  destruct (negb match_ || bool_decide (is_Some err)); [by destruct err|].
  destruct (fitRequests a cq fq reqs ∅ Fit []) as [[[asg' m'] rs']|] eqn:Hrun; [|done].
  injection Htry as -> -> ->. split_and!.
  - eapply fitRequests_produced; [|exact Hrun|]; [done|].
    intros r fa. by rewrite lookup_empty.
  - intros ->. apply fitRequests_Fit in Hrun as (_ & _ & _ & Hfits).
    apply Hfits. intros r fa. by rewrite lookup_empty.
  - intros Hm. by destruct (fitRequests_assigned _ _ _ _ _ _ _ _ _ _ Hrun Hm).
Qed.

Lemma tryFlavor_no_panic (a : Assignment)
    (resourceFlavors : gmap string ResourceFlavor) (cq : ClusterQueue)
    (spec selector : PodSpec) (reqs : Requests) (fq : FlavorQuotas) :
  (∀ r v, (r, v) ∈ reqs → is_Some (fq_Resources fq !! r)) →
  tryFlavor a resourceFlavors cq spec selector reqs fq ≠ Panicked.
Proof.
  intros Hcover. unfold tryFlavor.
  destruct (resourceFlavors !! fq_Name fq) as [flavor|]; [|done].
  destruct (FindMatchingUntoleratedTaint _ _ _); [done|].
  destruct (SelectorMatch selector (NodeLabels flavor)) as [match_ err].
  destruct (negb match_ || bool_decide (is_Some err)); [by destruct err|].
  destruct (fitRequests_total a cq fq reqs ∅ Fit [] Hcover) as [[[asg m] rs] ->].
  done.
Qed.

(** What the loop over the flavors returns: every assigned flavor was held
    already or comes from the fit checks of a flavor in the list; a nil
    status comes with the assignments of a flavor that reached [Fit]; an
    error comes with no assignment. *)
Lemma findFlavorLoop_inv (a : Assignment)
    (resourceFlavors : gmap string ResourceFlavor) (cq : ClusterQueue)
    (spec selector : PodSpec) (reqs : Requests) (flavors : list FlavorQuotas)
    (status : Status) (best : ResourceAssignment) (bestMode : FlavorAssignmentMode)
    (res : ResourceAssignment) (st : option Status) :
  findFlavorLoop a resourceFlavors cq spec selector reqs flavors status best bestMode
  = Some (res, st) →
  (∀ r fa, res !! r = Some fa →
     best !! r = Some fa ∨ ∃ fq, fq ∈ flavors ∧ producedBy a cq fq reqs r fa)
  ∧ (st = None →
     ∃ fq rs, fq ∈ flavors
              ∧ tryFlavor a resourceFlavors cq spec selector reqs fq = Evaluated res Fit rs)
  ∧ (err status = None → Status_IsError st = true → res = ∅)
  ∧ (res = best ∨ res = ∅
     ∨ ∃ fq m rs, fq ∈ flavors ∧ m ≠ NoFit
         ∧ tryFlavor a resourceFlavors cq spec selector reqs fq = Evaluated res m rs).
Proof.
  revert status best bestMode.
  induction flavors as [|fq rest IH]; intros status best bestMode Hrun.
  - cbn in Hrun. simplify_eq. split_and!; [by left | done | | by left].
    intros Herr. cbn. rewrite Herr. intros Hdec.
    apply bool_decide_eq_true in Hdec. by destruct Hdec.
  - cbn [findFlavorLoop] in Hrun.
    assert (Hlift : ∀ status' best' bestMode',
      (∀ r fa, best' !! r = Some fa →
         best !! r = Some fa ∨ ∃ fq', fq' ∈ fq :: rest ∧ producedBy a cq fq' reqs r fa) →
      err status' = err status →
      (best' = best
       ∨ ∃ m rs, m ≠ NoFit
           ∧ tryFlavor a resourceFlavors cq spec selector reqs fq = Evaluated best' m rs) →
      findFlavorLoop a resourceFlavors cq spec selector reqs rest status' best' bestMode'
      = Some (res, st) →
      (∀ r fa, res !! r = Some fa →
         best !! r = Some fa ∨ ∃ fq', fq' ∈ fq :: rest ∧ producedBy a cq fq' reqs r fa)
      ∧ (st = None →
         ∃ fq' rs, fq' ∈ fq :: rest
           ∧ tryFlavor a resourceFlavors cq spec selector reqs fq' = Evaluated res Fit rs)
      ∧ (err status = None → Status_IsError st = true → res = ∅)
      ∧ (res = best ∨ res = ∅
         ∨ ∃ fq' m rs, fq' ∈ fq :: rest ∧ m ≠ NoFit
             ∧ tryFlavor a resourceFlavors cq spec selector reqs fq' = Evaluated res m rs)).
    { intros status' best' bestMode' Hbest' Herr' Hfrom Hrun'.
      apply IH in Hrun' as (Hres & Hnone & Herr & Hwhich). split_and!.
      - intros r fa Hr. destruct (Hres r fa Hr) as [Hb|(fq' & Hin & Hp)].
        + by apply Hbest'.
        + right. exists fq'. split; [by right | done].
      - intros Hst. destruct (Hnone Hst) as (fq' & rs & Hin & Htry).
        exists fq', rs. split; [by right | done].
      - rewrite <- Herr'. exact Herr.
      - destruct Hwhich as [->|[->|(fq' & m & rs & Hin & Hm & Htry)]].
        + destruct Hfrom as [->|(m & rs & Hm & Htry)]; [by left|].
          right. right. exists fq, m, rs. split_and!; [by left | done..].
        + right. by left.
        + right. right. exists fq', m, rs. split_and!; [by right | done..]. }
    destruct (tryFlavor a resourceFlavors cq spec selector reqs fq)
      as [reason|e| |asg m rs] eqn:Htry.
    + refine (Hlift _ _ _ _ _ _ Hrun); [intros r fa ?; by left | done | by left].
    + simplify_eq.
      split_and!; [by intros r fa; rewrite lookup_empty | done | done |].
      right. by left.
    + done.
    + destruct (tryFlavor_Evaluated _ _ _ _ _ _ _ _ _ _ Htry) as [Hprod _].
      destruct (mode_ltb bestMode m) eqn:Hlt.
      * assert (Hm0 : m ≠ NoFit) by (by destruct bestMode, m).
        destruct (mode_eqb m Fit) eqn:Hm.
        -- apply mode_eqb_eq in Hm as ->. simplify_eq. split_and!.
           ++ intros r fa Hr. right. exists fq. split; [by left | by apply Hprod].
           ++ intros _. exists fq, rs. split; [by left | done].
           ++ done.
           ++ right. right. exists fq, Fit, rs. split_and!; [by left | done..].
        -- refine (Hlift _ _ _ _ _ _ Hrun); [|done|].
           ++ intros r fa Hr. right. exists fq. split; [by left | by apply Hprod].
           ++ right. by exists m, rs.
      * refine (Hlift _ _ _ _ _ _ Hrun); [intros r fa ?; by left | done | by left].
Qed.

Lemma findFlavorLoop_total (a : Assignment)
    (resourceFlavors : gmap string ResourceFlavor) (cq : ClusterQueue)
    (spec selector : PodSpec) (reqs : Requests) (flavors : list FlavorQuotas)
    (status : Status) (best : ResourceAssignment) (bestMode : FlavorAssignmentMode) :
  Forall (λ fq, tryFlavor a resourceFlavors cq spec selector reqs fq ≠ Panicked) flavors →
  is_Some (findFlavorLoop a resourceFlavors cq spec selector reqs flavors
             status best bestMode).
Proof.
  revert status best bestMode.
  induction flavors as [|fq rest IH]; intros status best bestMode Hall; [done|].
  apply Forall_cons in Hall as [Hfq Hrest]. cbn [findFlavorLoop].
  destruct (tryFlavor a resourceFlavors cq spec selector reqs fq)
    as [reason|e| |asg m rs]; try done.
  - by apply IH.
  - destruct (mode_ltb bestMode m); [destruct (mode_eqb m Fit); [done|] |];
      by apply IH.
Qed.

Lemma elem_of_filterRequestedResources (reqs : Requests) (allowList : gset string)
    (rv : string * Z) :
  rv ∈ filterRequestedResources reqs allowList ↔ rv ∈ reqs ∧ rv.1 ∈ allowList.
Proof.
  unfold filterRequestedResources.
  by rewrite !list_elem_of_In, filter_In, bool_decide_eq_true.
Qed.

Lemma findFlavorForResourceGroup_inv (a : Assignment) (rg : ResourceGroup)
    (requests : Requests) (resourceFlavors : gmap string ResourceFlavor)
    (cq : ClusterQueue) (spec : PodSpec) (res : ResourceAssignment)
    (st : option Status) :
  findFlavorForResourceGroup a rg requests resourceFlavors cq spec = Some (res, st) →
  (∀ r fa, res !! r = Some fa →
     ∃ fq, fq ∈ Flavors rg
           ∧ producedBy a cq fq
               (filterRequestedResources requests (CoveredResources rg)) r fa)
  ∧ (st = None → allFit res)
  ∧ (Status_IsError st = true → res = ∅)
  ∧ (res ≠ ∅ →
     ∀ r v, (r, v) ∈ requests → r ∈ CoveredResources rg → is_Some (res !! r))
  ∧ (st = None → res = ∅ →
     ∀ r v, (r, v) ∈ requests → r ∈ CoveredResources rg → False).
Proof.
  unfold findFlavorForResourceGroup. intros Hrun.
  apply findFlavorLoop_inv in Hrun as (Hres & Hnone & Herr & Hwhich). split_and!.
  - intros r fa Hr. destruct (Hres r fa Hr) as [Hempty|Hfq]; [|done].
    by rewrite lookup_empty in Hempty.
  - intros Hst. destruct (Hnone Hst) as (fq & rs & _ & Htry).
    apply tryFlavor_Evaluated in Htry as (_ & Hfit & _). by apply Hfit.
  - by apply Herr.
  - intros Hne r v Hin Hcov.
    destruct Hwhich as [->|[->|(fq & m & rs & _ & Hm & Htry)]]; [done..|].
    apply tryFlavor_Evaluated in Htry as (_ & _ & Hall).
    apply (Hall Hm r v). by apply elem_of_filterRequestedResources.
  - intros Hst -> r v Hin Hcov. destruct (Hnone Hst) as (fq & rs & _ & Htry).
    apply tryFlavor_Evaluated in Htry as (_ & _ & Hall).
    destruct (Hall ltac:(done) r v) as [fa Hfa].
    + by apply elem_of_filterRequestedResources.
    + by rewrite lookup_empty in Hfa.
Qed.

Lemma findFlavorForResourceGroup_total (a : Assignment) (rg : ResourceGroup)
    (requests : Requests) (resourceFlavors : gmap string ResourceFlavor)
    (cq : ClusterQueue) (spec : PodSpec) :
  Forall (λ fq, set_Forall (λ r, is_Some (fq_Resources fq !! r)) (CoveredResources rg))
         (Flavors rg) →
  is_Some (findFlavorForResourceGroup a rg requests resourceFlavors cq spec).
Proof.
  intros Hcover. unfold findFlavorForResourceGroup. apply findFlavorLoop_total.
  eapply Forall_impl; [exact Hcover|]. intros fq Hfq. apply tryFlavor_no_panic.
  intros r v [_ Hr]%elem_of_filterRequestedResources. by apply Hfq.
Qed.

(** The index maps a resource to a group that covers it. *)
Lemma indexConsistent_covers (cq : ClusterQueue) (r : string) (rg : ResourceGroup) :
  indexConsistent cq → RGByResource cq !! r = Some rg → r ∈ CoveredResources rg.
Proof. intros Hidx Hr. by destruct (Hidx r rg Hr). Qed.

(** A resource that an indexed group covers is indexed to that group. *)
Lemma indexConsistent_indexed (cq : ClusterQueue) (r0 r : string) (rg : ResourceGroup) :
  indexConsistent cq → RGByResource cq !! r0 = Some rg → r ∈ CoveredResources rg →
  RGByResource cq !! r = Some rg.
Proof. intros Hidx Hr0 Hr. destruct (Hidx r0 rg Hr0) as [_ Hall]. by apply Hall. Qed.

Lemma checked_covered (a : Assignment) (cq : ClusterQueue) (requests : Requests)
    (r : string) (fa : FlavorAssignment) :
  indexConsistent cq → checked a cq requests r fa →
  is_Some (RGByResource cq !! r) ∧ ∃ v, (r, v) ∈ requests.
Proof.
  intros Hidx (r0 & rg & fq & Hrg & _ & _ & v & q & Hin & _).
  apply elem_of_filterRequestedResources in Hin as [Hin Hcov].
  split; [|by exists v]. exists rg. by eapply indexConsistent_indexed.
Qed.

(** The loop over the requested resources of a pod set.  Its result either
    has no flavors and a status (the loop broke), or has a flavor for every
    resource it went through; every flavor it has was checked; a nil status
    comes with flavors that all fit; an error comes with no flavors. *)
Lemma assignResources_inv (a : Assignment)
    (resourceFlavors : gmap string ResourceFlavor) (cq : ClusterQueue)
    (spec : option PodSpec) (requests todo : Requests)
    (psa psa' : PodSetAssignment) :
  indexConsistent cq →
  (∀ rv, rv ∈ todo → rv ∈ requests) →
  assignResources a resourceFlavors cq spec requests todo psa = Some psa' →
  psa_Name psa' = psa_Name psa
  ∧ psa_Requests psa' = psa_Requests psa
  ∧ ((∀ r fa, psa_Flavors psa !! r = Some fa → checked a cq requests r fa) →
     ∀ r fa, psa_Flavors psa' !! r = Some fa → checked a cq requests r fa)
  ∧ ((psa_Status psa = None → allFit (psa_Flavors psa)) →
     psa_Status psa' = None → allFit (psa_Flavors psa'))
  ∧ (Status_IsError (psa_Status psa) = false →
     Status_IsError (psa_Status psa') = true → psa_Flavors psa' = ∅)
  ∧ ((psa_Flavors psa' = ∅ ∧ is_Some (psa_Status psa'))
     ∨ ((∀ rv, rv ∈ todo → is_Some (psa_Flavors psa' !! rv.1))
        ∧ (∀ r, is_Some (psa_Flavors psa !! r) → is_Some (psa_Flavors psa' !! r)))).
Proof.
  intros Hidx. revert psa.
  induction todo as [|[resName val] rest IH]; intros psa Hsub Hrun.
  - cbn in Hrun. simplify_eq. split_and!; try done.
    + intros Hf Ht. congruence.
    + right. split; [by intros rv ?%elem_of_nil | done].
  - cbn [assignResources] in Hrun.
    assert (Hsub' : ∀ rv, rv ∈ rest → rv ∈ requests).
    { intros rv Hrv. apply Hsub. by right. }
    case_bool_decide as Hassigned.
    { destruct (IH psa Hsub' Hrun) as (Hn & Hr & Hchk & Hfit & Herr & Hcases).
      split_and!; try done.
      destruct Hcases as [Hbroke|[Hall Hkeep]]; [by left|]. right. split; [|done].
      intros rv [->|Hin]%elem_of_cons; [by apply Hkeep | by apply Hall]. }
    destruct (RGByResource cq !! resName) as [rg|] eqn:Hrg.
    2:{ simplify_eq. cbn. split_and!; try done. left. by split. }
    destruct spec as [spec'|]; [|done].
    destruct (findFlavorForResourceGroup a rg requests resourceFlavors cq spec')
      as [[flavors status]|] eqn:Hfind; [|done].
    destruct (findFlavorForResourceGroup_inv _ _ _ _ _ _ _ _ Hfind)
      as (Hprod & Hnone & Herror & Hassign & Hnonempty).
    assert (Hreq : (resName, val) ∈ requests) by (apply Hsub; by left).
    assert (Hcov : resName ∈ CoveredResources rg) by (by eapply indexConsistent_covers).
    destruct (Status_IsError status || bool_decide (size flavors = 0%nat)) eqn:Hbreak.
    { simplify_eq. cbn. split_and!; try done.
      left. split; [done|]. destruct status as [s|]; [done|]. exfalso.
        apply orb_true_iff in Hbreak as [Hb|Hb]; [done|].
        apply bool_decide_eq_true in Hb. apply map_size_empty_iff in Hb.
        by eapply (Hnonempty eq_refl Hb resName val). }
    apply orb_false_iff in Hbreak as [Hnoerr Hsize].
    apply bool_decide_eq_false in Hsize.
    assert (Hne : flavors ≠ ∅).
    { intros ->. by rewrite map_size_empty in Hsize. }
    destruct (IH _ Hsub' Hrun) as (Hn & Hr & Hchk & Hfit & Herr & Hcases).
    cbn in Hn, Hr, Hchk, Hfit, Herr, Hcases.
    split_and!; try done.
    + intros Hpsa. apply Hchk. intros r fa [Hfl|[_ Hold]]%lookup_union_Some_raw.
      * destruct (Hprod r fa Hfl) as (fq & Hfq & Hp). by exists resName, rg, fq.
      * by apply Hpsa.
    + intros Hpsa. apply Hfit. intros Hst.
      destruct (psa_Status psa) as [s|] eqn:Hs; [by destruct status|].
      subst status.
      intros r fa [Hfl|[_ Hold]]%lookup_union_Some_raw; [by eapply Hnone|].
      by eapply (Hpsa eq_refl).
    + intros Hpsaerr. apply Herr.
      destruct (psa_Status psa) as [s|] eqn:Hs; [|done].
      destruct status as [s'|]; cbn in *; done.
    + destruct Hcases as [Hbroke|[Hall Hkeep]]; [by left|]. right. split.
      * intros rv [->|Hin]%elem_of_cons; [|by apply Hall]. cbn.
        apply Hkeep. apply lookup_union_is_Some. left. by eapply Hassign.
      * intros r Hr'. apply Hkeep. apply lookup_union_is_Some. by right.
Qed.

Lemma groupsWellFormed_cover (cq : ClusterQueue) (r : string) (rg : ResourceGroup) :
  groupsWellFormed cq → RGByResource cq !! r = Some rg →
  Forall (λ fq, set_Forall (λ r', is_Some (fq_Resources fq !! r')) (CoveredResources rg))
         (Flavors rg).
Proof. intros Hwf Hr. by destruct (Hwf r rg Hr). Qed.

(** With quotas for every covered resource, the loop over the resources of
    a pod set does not panic. *)
Lemma assignResources_total (a : Assignment)
    (resourceFlavors : gmap string ResourceFlavor) (cq : ClusterQueue)
    (spec : PodSpec) (requests todo : Requests) (psa : PodSetAssignment) :
  groupsWellFormed cq →
  is_Some (assignResources a resourceFlavors cq (Some spec) requests todo psa).
Proof.
  intros Hwf. revert psa.
  induction todo as [|[resName val] rest IH]; intros psa; [done|].
  cbn [assignResources]. case_bool_decide; [by apply IH|].
  destruct (RGByResource cq !! resName) as [rg|] eqn:Hrg; [|done].
  destruct (findFlavorForResourceGroup_total a rg requests resourceFlavors cq spec)
    as [[flavors status] ->]; [by eapply groupsWellFormed_cover|].
  destruct (Status_IsError status || bool_decide (size flavors = 0%nat)); [done|].
  by apply IH.
Qed.

Lemma PodSetAssignment_mode_broke (psa : PodSetAssignment) :
  psa_Flavors psa = ∅ → is_Some (psa_Status psa) →
  PodSetAssignment_RepresentativeMode psa = NoFit.
Proof.
  intros Hfl [s Hs]. unfold PodSetAssignment_RepresentativeMode.
  by rewrite Hs, Hfl, map_size_empty.
Qed.

(** The loop reaches a resource when the groups of the resources before it
    yield flavors; an uncovered resource that is reached ends the loop. *)
Lemma assignResources_reach (a : Assignment)
    (resourceFlavors : gmap string ResourceFlavor) (cq : ClusterQueue)
    (spec : PodSpec) (requests pre : Requests) (r : string) (v : Z)
    (post : Requests) (psa : PodSetAssignment) :
  indexConsistent cq →
  Forall (λ rv, assignable a resourceFlavors cq spec requests rv.1) pre →
  RGByResource cq !! r = None →
  (∀ r' fa, psa_Flavors psa !! r' = Some fa → checked a cq requests r' fa) →
  assignResources a resourceFlavors cq (Some spec) requests (pre ++ (r, v) :: post) psa
  = Some (mkPSA (psa_Name psa) ∅ (Some (mkStatus [msgUnavailable r] None))
            (psa_Requests psa)).
Proof.
  intros Hidx Hpre Hr. revert psa.
  induction pre as [|[r' v'] pre IH]; intros psa Hchk.
  - cbn [app assignResources]. rewrite bool_decide_eq_false_2.
    + by rewrite Hr.
    + intros [fa Hfa]. destruct (checked_covered _ _ _ _ _ Hidx (Hchk r fa Hfa))
        as [[rg Hrg] _]. congruence.
  - apply Forall_cons in Hpre as [Hhead Hpre]. cbn [app assignResources].
    case_bool_decide; [by apply IH|].
    destruct Hhead as (rg & flavors & status & Hrg & Hfind & Hnoerr & Hne).
    cbn in Hrg. rewrite Hrg, Hfind, Hnoerr. cbn.
    rewrite bool_decide_eq_false_2.
    2:{ intros Hsize. by apply map_size_empty_iff in Hsize. }
    rewrite IH; [done|done|]. cbn.
    intros r0 fa [Hfl|[_ Hold]]%lookup_union_Some_raw; [|by apply Hchk].
    destruct (findFlavorForResourceGroup_inv _ _ _ _ _ _ _ _ Hfind) as (Hprod & _).
    destruct (Hprod r0 fa Hfl) as (fq & Hfq & Hp). by exists r', rg, fq.
Qed.

(** C8, as the code has it.  A pod set that requests a resource which no
    resource group of the cluster queue covers gets no flavors and mode
    [NoFit], in whatever order its resources are visited.  When the
    uncovered resource is reached, that is when the groups of the resources
    visited before it yield flavors, the status is the single reason
    "resource ... unavailable in ClusterQueue" and the resources after it
    are not evaluated. *)
Theorem uncovered_resource_is_NoFit (a : Assignment)
    (resourceFlavors : gmap string ResourceFlavor) (cq : ClusterQueue)
    (spec : PodSpec) (name : string) (requests : Requests) (r : string) :
  indexConsistent cq →
  groupsWellFormed cq →
  r ∈ requests.*1 →
  RGByResource cq !! r = None →
  let psAssignment := mkPSA name ∅ None (ToResourceList requests) in
  let result :=
    assignResources a resourceFlavors cq (Some spec) requests requests psAssignment in
  (∃ psa, result = Some psa
          ∧ psa_Flavors psa = ∅
          ∧ PodSetAssignment_RepresentativeMode psa = NoFit)
  ∧ (∀ pre v post,
       requests = pre ++ (r, v) :: post →
       Forall (λ rv, assignable a resourceFlavors cq spec requests rv.1) pre →
       result = Some (mkPSA name ∅ (Some (mkStatus [msgUnavailable r] None))
                        (ToResourceList requests))).
Proof.
  intros Hidx Hwf Hin Hr. cbn zeta. split.
  - destruct (assignResources_total a resourceFlavors cq spec requests requests
                (mkPSA name ∅ None (ToResourceList requests)) Hwf) as [psa Hrun].
    exists psa. split; [done|].
    destruct (assignResources_inv _ _ _ _ _ _ _ _ Hidx ltac:(done) Hrun)
      as (_ & _ & Hchk & _ & _ & Hcases).
    destruct Hcases as [[Hempty Hst]|[Hall _]].
    + split; [done|]. by apply PodSetAssignment_mode_broke.
    + exfalso. apply list_elem_of_fmap in Hin as ([r0 v] & -> & Hin).
      destruct (Hall _ Hin) as [fa Hfa]. cbn in Hfa.
      assert (Hc : checked a cq requests r0 fa).
      { apply Hchk; [|done]. cbn. intros r' fa'. by rewrite lookup_empty. }
      destruct (checked_covered _ _ _ _ _ Hidx Hc) as [[rg Hrg] _].
      cbn in Hr. congruence.
  - intros pre v post Hreq Hpre. rewrite Hreq at 2.
    by rewrite assignResources_reach.
Qed.

End PodSets.

Section FlavorLoopExamples.
Import kueue cache workload flavorassigner.

(** The three gates on inputs of the repository's tests.  In "multiple
    flavors, skip missing ResourceFlavor" the catalogue does not have the
    first flavor, and the second one is tried and fits.  With the queue of
    "each podset requires preemption on a different flavor" the pod has no
    tolerations: the tainted flavor is skipped, and its reason follows that
    of the first flavor.  In "multiple flavors, fits a node selector" the
    pod selects [type=two]: the flavor labelled [type=one] is skipped, and
    the second one is tried and fits. *)
Lemma gated_flavor_is_skipped_witness :
  let result := findFlavorForResourceGroup (H := reference.helpers) tests.noAssignment in
  result tests.missingFlavorGroup [("cpu", 1000%Z)] tests.resourceFlavors
    tests.cpuOnlyQueue tests.plainSpec
  = Some ({[ "cpu" := mkFlavorAssignment "two" Fit 0 ]}, None)
  ∧ (∃ taint,
       schedulingTaint taint
       ∧ result tests.oneTaintedGroup [("cpu", 2000%Z)] tests.resourceFlavors
           tests.oneTaintedQueue tests.plainSpec
         = Some ({[ "cpu" := mkFlavorAssignment "one" Preempt 0 ]},
                 Some (mkStatus
                         ["insufficient unused quota for cpu in flavor one, 1 more needed";
                          msgUntolerated (H := reference.helpers) taint "tainted"]
                         None)))
  ∧ result tests.oneTwoGroup [("cpu", 1000%Z)] tests.resourceFlavors
      tests.cpuOnlyQueue tests.nodeSelectorSpec
    = Some ({[ "cpu" := mkFlavorAssignment "two" Fit 0 ]}, None).
Proof.
  cbn zeta. split_and!.
  - destruct (gated_flavor_is_skipped (H := reference.helpers) tests.noAssignment
                tests.resourceFlavors tests.cpuOnlyQueue tests.plainSpec
                tests.missingFlavorGroup [("cpu", 1000%Z)] []
                (mkFlavorQuotas "nonexistent-flavor" {[ "cpu" := mkResourceQuota 4000 None ]})
                [mkFlavorQuotas "two" {[ "cpu" := mkResourceQuota 4000 None ]}]
                eq_refl (Forall_nil_2 _)) as (Hcatalogue & _ & _).
    destruct Hcatalogue as (Hnext & _ & _); [vm_compute; reflexivity|].
    apply (Hnext [] (mkFlavorQuotas "two" {[ "cpu" := mkResourceQuota 4000 None ]}) []
             {[ "cpu" := mkFlavorAssignment "two" Fit 0 ]} []);
      [reflexivity | constructor | vm_compute; reflexivity].
  - assert (Hpre : Forall
              (λ fq, belowFit (groupOutcome (H := reference.helpers) tests.noAssignment
                                 tests.resourceFlavors tests.oneTaintedQueue
                                 tests.plainSpec tests.oneTaintedGroup
                                 [("cpu", 2000%Z)] fq))
              [mkFlavorQuotas "one" {[ "cpu" := mkResourceQuota 4000 None ]}]).
    { constructor; [vm_compute; discriminate | constructor]. }
    destruct (gated_flavor_is_skipped (H := reference.helpers) tests.noAssignment
                tests.resourceFlavors tests.oneTaintedQueue tests.plainSpec
                tests.oneTaintedGroup [("cpu", 2000%Z)]
                [mkFlavorQuotas "one" {[ "cpu" := mkResourceQuota 4000 None ]}]
                (mkFlavorQuotas "tainted" {[ "cpu" := mkResourceQuota 10000 None ]})
                [] eq_refl Hpre) as (_ & Htaint & _).
    destruct (Htaint (mkResourceFlavor ∅ [mkTaint "instance" "spot" "NoSchedule"]))
      as (taint & _ & Hsched & _ & _ & _ & Hall).
    + vm_compute. reflexivity.
    + exists (mkTaint "instance" "spot" "NoSchedule"). split_and!.
      * by left.
      * by left.
      * intros (tol & Htol & _). by apply elem_of_nil in Htol.
    + exists taint. split; [done|]. rewrite (Hall (Forall_nil_2 _)).
      vm_compute. reflexivity.
  - destruct (gated_flavor_is_skipped (H := reference.helpers) tests.noAssignment
                tests.resourceFlavors tests.cpuOnlyQueue tests.nodeSelectorSpec
                tests.oneTwoGroup [("cpu", 1000%Z)] []
                (mkFlavorQuotas "one" {[ "cpu" := mkResourceQuota 4000 None ]})
                [mkFlavorQuotas "two" {[ "cpu" := mkResourceQuota 4000 None ]}]
                eq_refl (Forall_nil_2 _)) as (_ & _ & Haffinity).
    destruct (Haffinity (mkResourceFlavor {[ "type" := "one" ]} []))
      as (Hnext & _ & _).
    + vm_compute. reflexivity.
    + by intros taint ?%elem_of_nil.
    + vm_compute. reflexivity.
    + apply (Hnext [] (mkFlavorQuotas "two" {[ "cpu" := mkResourceQuota 4000 None ]}) []
               {[ "cpu" := mkFlavorAssignment "two" Fit 0 ]} []);
        [reflexivity | constructor | vm_compute; reflexivity].
Defined.

(** The launcher of "each podset requires preemption on a different
    flavor": the first flavor can only preempt, the second is skipped, and
    the first is kept with the reasons of both. *)
Lemma findFlavorForResourceGroup_best_witness :
  findFlavorForResourceGroup (H := reference.helpers) tests.noAssignment
    tests.oneTaintedGroup [("cpu", 2000%Z)] tests.resourceFlavors
    tests.oneTaintedQueue tests.plainSpec
  = Some ({[ "cpu" := mkFlavorAssignment "one" Preempt 0 ]},
          Some (mkStatus
                  ["insufficient unused quota for cpu in flavor one, 1 more needed";
                   "untolerated taint {instance spot NoSchedule <nil>} in flavor tainted"]
                  None)).
Proof.
  destruct (findFlavorForResourceGroup_best (H := reference.helpers) tests.noAssignment
              tests.oneTaintedGroup [("cpu", 2000%Z)] tests.resourceFlavors
              tests.oneTaintedQueue tests.plainSpec) as (_ & _ & Hfirst & _).
  rewrite (Hfirst []
             (mkFlavorQuotas "one" {[ "cpu" := mkResourceQuota 4000 None ]})
             [mkFlavorQuotas "tainted" {[ "cpu" := mkResourceQuota 10000 None ]}]
             {[ "cpu" := mkFlavorAssignment "one" Preempt 0 ]}
             ["insufficient unused quota for cpu in flavor one, 1 more needed"]).
  - vm_compute. reflexivity.
  - reflexivity.
  - constructor; [vm_compute; discriminate|].
    constructor; [vm_compute; exact I | constructor].
  - constructor.
  - vm_compute. reflexivity.
Defined.

End FlavorLoopExamples.

Section UncoveredResource.
Import kueue cache workload flavorassigner.

Lemma uncovered_resource_is_NoFit_witness :
  indexConsistent tests.cpuOnlyQueue
  ∧ groupsWellFormed tests.cpuOnlyQueue
  ∧ "example.com/gpu" ∈ [("example.com/gpu", 2%Z)].*1
  ∧ RGByResource tests.cpuOnlyQueue !! "example.com/gpu" = None
  ∧ assignResources (H := reference.helpers) tests.noAssignment tests.resourceFlavors
      tests.cpuOnlyQueue (Some tests.plainSpec)
      [("example.com/gpu", 2%Z)] [("example.com/gpu", 2%Z)]
      (mkPSA "main" ∅ None (ToResourceList [("example.com/gpu", 2%Z)]))
    = Some (mkPSA "main" ∅
              (Some (mkStatus [msgUnavailable "example.com/gpu"] None))
              (ToResourceList [("example.com/gpu", 2%Z)])).
Proof.
  assert (Hidx : indexConsistent tests.cpuOnlyQueue).
  { apply (bool_decide_unpack _). vm_compute. exact I. }
  assert (Hwf : groupsWellFormed tests.cpuOnlyQueue).
  { apply (bool_decide_unpack _). vm_compute. exact I. }
  assert (Hin : "example.com/gpu" ∈ [("example.com/gpu", 2%Z)].*1).
  { apply (bool_decide_unpack _). vm_compute. exact I. }
  assert (Hr : RGByResource tests.cpuOnlyQueue !! "example.com/gpu" = None).
  { vm_compute. reflexivity. }
  split; [exact Hidx|]. split; [exact Hwf|]. split; [exact Hin|]. split; [exact Hr|].
  destruct (uncovered_resource_is_NoFit (H := reference.helpers) tests.noAssignment
              tests.resourceFlavors tests.cpuOnlyQueue tests.plainSpec "main"
              [("example.com/gpu", 2%Z)] "example.com/gpu" Hidx Hwf Hin Hr)
    as [_ Hreached].
  apply (Hreached [] 2%Z []); [reflexivity | constructor].
Defined.

(** The claim as stated fails when a resource visited before the uncovered
    one ends the evaluation: the pod set has no flavors, and its status
    holds the reason of the resource that was visited first. *)
Lemma uncovered_resource_other_reason :
  "example.com/gpu" ∈ tests.cpuThenGpu.*1
  ∧ RGByResource tests.cpuOnlyQueue !! "example.com/gpu" = None
  ∧ ∃ psa,
      assignResources (H := reference.helpers) tests.noAssignment tests.resourceFlavors
        tests.cpuOnlyQueue (Some tests.plainSpec) tests.cpuThenGpu tests.cpuThenGpu
        (mkPSA "main" ∅ None (ToResourceList tests.cpuThenGpu))
      = Some psa
      ∧ psa_Status psa
        = Some (mkStatus ["insufficient quota for cpu in flavor one in ClusterQueue"] None)
      ∧ psa_Status psa
        ≠ Some (mkStatus ["resource example.com/gpu unavailable in ClusterQueue"] None).
Proof.
  split; [apply (bool_decide_unpack _); vm_compute; exact I|].
  split; [vm_compute; reflexivity|].
  eexists. split; [vm_compute; reflexivity|]. split; [reflexivity|]. discriminate.
Qed.

End UncoveredResource.

Section PodSetsOfWorkload.
Context `{KubeHelpers}.
Import kueue cache workload flavorassigner.

Lemma frq_get_lookup (q : FlavorResourceQuantities) (f r : string) :
  frq_get q f r = default 0%Z (frq_lookup q f r).
Proof. reflexivity. Qed.

Lemma frq_lookup_set (q : FlavorResourceQuantities) (f r : string) (v : Z)
    (f' r' : string) :
  frq_lookup (frq_set q f r v) f' r'
  = if decide (f = f' ∧ r = r') then Some v else frq_lookup q f' r'.
Proof.
  unfold frq_lookup, frq_set. destruct (decide (f = f')) as [<-|Hf].
  - rewrite lookup_insert_eq. cbn. destruct (decide (r = r')) as [<-|Hr].
    + rewrite lookup_insert_eq. by rewrite decide_True.
    + rewrite lookup_insert_ne by done. rewrite decide_False by (by intros [_ ?]).
      destruct (q !! f); cbn; [done|]. by rewrite lookup_empty.
  - rewrite lookup_insert_ne by done. by rewrite decide_False by (by intros [? _]).
Qed.

Lemma Assignment_append_PodSets (a : Assignment) (requests : Requests)
    (psa : PodSetAssignment) :
  asg_PodSets (Assignment_append a requests psa) = asg_PodSets a ++ [psa]
  ∧ representativeMode (Assignment_append a requests psa) = representativeMode a.
Proof.
  unfold Assignment_append.
  apply (map_fold_weak_ind
           (λ acc _, asg_PodSets acc = asg_PodSets a ++ [psa]
                     ∧ representativeMode acc = representativeMode a)); [done|].
  intros r fa m acc _ [Hps Hrep]. by cbn.
Qed.

(** The usage after a pod set has been appended: the request of every
    resource is added at the flavor that the resource was assigned. *)
Lemma Assignment_append_usage (a : Assignment) (requests : Requests)
    (psa : PodSetAssignment) (f r : string) :
  frq_lookup (usage (Assignment_append a requests psa)) f r
  = match psa_Flavors psa !! r with
    | Some fa =>
        if decide (fa_Name fa = f)
        then Some (int64.add (frq_get (usage a) f r) (requests_get requests r))
        else frq_lookup (usage a) f r
    | None => frq_lookup (usage a) f r
    end.
Proof.
  unfold Assignment_append. revert f r.
  apply (map_fold_weak_ind
           (λ acc (m : ResourceAssignment), ∀ f r,
              frq_lookup (usage acc) f r
              = match m !! r with
                | Some fa =>
                    if decide (fa_Name fa = f)
                    then Some (int64.add (frq_get (usage a) f r) (requests_get requests r))
                    else frq_lookup (usage a) f r
                | None => frq_lookup (usage a) f r
                end)).
  - intros f r. by rewrite lookup_empty.
  - intros i fa m acc Hi IH f r. cbn. unfold frq_add. rewrite frq_lookup_set.
    destruct (decide (i = r)) as [<-|Hne].
    + rewrite lookup_insert_eq. destruct (decide (fa_Name fa = f)) as [<-|Hf].
      * rewrite decide_True by done. rewrite !frq_get_lookup, IH. by rewrite Hi.
      * rewrite decide_False by (by intros [? _]). rewrite IH. by rewrite Hi.
    + rewrite lookup_insert_ne by done. rewrite decide_False by (by intros [_ ?]).
      apply IH.
Qed.

(** The loop that keeps the smaller mode, started at [m0], leaves the
    minimum of [m0] and the modes it went through. *)
Lemma fold_min_mode (ms : list FlavorAssignmentMode) (m0 : FlavorAssignmentMode) :
  let m := foldr (λ x mode, if mode_ltb x mode then x else mode) m0 ms in
  (mode_int m <= mode_int m0)%Z
  ∧ (∀ x, x ∈ ms → (mode_int m <= mode_int x)%Z)
  ∧ (m = m0 ∨ m ∈ ms).
Proof.
  cbn zeta. induction ms as [|x ms (Hle & Hall & Hin)]; cbn.
  - split_and!; [lia | by intros x ?%elem_of_nil | by left].
  - set (m := foldr _ m0 ms) in *.
    unfold mode_ltb. destruct (Z.ltb_spec (mode_int x) (mode_int m)).
    + split_and!; [lia| |right; by left].
      intros y [->|Hy]%elem_of_cons; [lia|]. specialize (Hall y Hy). lia.
    + split_and!; [lia| |].
      * intros y [->|Hy]%elem_of_cons; [lia | by apply Hall].
      * destruct Hin as [Hin|Hin]; [by left | right; by right].
Qed.

Lemma mode_int_Fit_max (m : FlavorAssignmentMode) : (mode_int m <= mode_int Fit)%Z.
Proof. destruct m; cbn; lia. Qed.

Lemma mode_int_inj (m1 m2 : FlavorAssignmentMode) : mode_int m1 = mode_int m2 → m1 = m2.
Proof. by destruct m1, m2. Qed.

Lemma fold_min_mode_isMinimum (ms : list FlavorAssignmentMode) :
  isMinimumMode (foldr (λ x mode, if mode_ltb x mode then x else mode) Fit ms) ms.
Proof.
  destruct (fold_min_mode ms Fit) as (Hle & Hall & Hin). cbn zeta in *.
  split_and!; [done| |].
  - by intros ->.
  - intros Hne. destruct Hin as [Heq|Hin]; [|done].
    destruct ms as [|x ms]; [done|]. rewrite Heq.
    assert (x = Fit) as ->; [|by left].
    apply mode_int_inj. pose proof (Hall x ltac:(by left)) as Hx.
    rewrite Heq in Hx. pose proof (mode_int_Fit_max x). lia.
Qed.

(** The loops of the two [RepresentativeMode] methods compute minima. *)
Lemma worstFlavorMode_isMinimum (flavors : ResourceAssignment) :
  isMinimumMode (worstFlavorMode flavors) (flavorModes flavors).
Proof.
  unfold worstFlavorMode, flavorModes. rewrite map_fold_foldr.
  assert (Hfold : ∀ l : list (string * FlavorAssignment),
    foldr (uncurry (λ (_ : string) flvAssignment mode,
                      if mode_ltb (fa_Mode flvAssignment) mode
                      then fa_Mode flvAssignment else mode)) Fit l
    = foldr (λ x mode, if mode_ltb x mode then x else mode) Fit
            ((λ kv, fa_Mode kv.2) <$> l)).
  { induction l as [|[k fa] l IH]; [done|]. cbn. by rewrite IH. }
  rewrite Hfold. apply fold_min_mode_isMinimum.
Qed.

Lemma fold_left_min_mode (ms : list FlavorAssignmentMode) (m0 : FlavorAssignmentMode) :
  let m := fold_left (λ mode x, if mode_ltb x mode then x else mode) ms m0 in
  (mode_int m <= mode_int m0)%Z
  ∧ (∀ x, x ∈ ms → (mode_int m <= mode_int x)%Z)
  ∧ (m = m0 ∨ m ∈ ms).
Proof.
  cbn zeta. revert m0. induction ms as [|x ms IH]; intros m0; cbn [fold_left].
  - split_and!; [lia | by intros x ?%elem_of_nil | by left].
  - destruct (IH (if mode_ltb x m0 then x else m0)) as (Hle & Hall & Hin).
    set (m := fold_left _ ms _) in *.
    assert (Hmin : (mode_int (if mode_ltb x m0 then x else m0) <= mode_int x
                    ∧ mode_int (if mode_ltb x m0 then x else m0) <= mode_int m0)%Z).
    { unfold mode_ltb. destruct (Z.ltb_spec (mode_int x) (mode_int m0)); lia. }
    split_and!; [lia| |].
    + intros y [->|Hy]%elem_of_cons; [lia | by apply Hall].
    + destruct Hin as [Hin|Hin]; [|right; by right].
      rewrite Hin. destruct (mode_ltb x m0); [right; by left | by left].
Qed.

Lemma worstPodSetMode_isMinimum (podSets : list PodSetAssignment) :
  isMinimumMode (worstPodSetMode podSets)
    (PodSetAssignment_RepresentativeMode <$> podSets).
Proof.
  assert (Hfold : ∀ (l : list PodSetAssignment) m0,
    fold_left (λ mode ps,
                 let psMode := PodSetAssignment_RepresentativeMode ps in
                 if mode_ltb psMode mode then psMode else mode) l m0
    = fold_left (λ mode x, if mode_ltb x mode then x else mode)
                (PodSetAssignment_RepresentativeMode <$> l) m0).
  { induction l as [|ps l IH]; intros m0; [done|]. cbn. by rewrite IH. }
  unfold worstPodSetMode. rewrite Hfold.
  destruct (fold_left_min_mode (PodSetAssignment_RepresentativeMode <$> podSets) Fit)
    as (Hle & Hall & Hin). cbn zeta in *.
  set (ms := PodSetAssignment_RepresentativeMode <$> podSets) in *.
  split_and!; [done| |].
  - by intros ->.
  - intros Hne. destruct Hin as [Heq|Hin]; [|done].
    destruct ms as [|x ms']; [done|]. rewrite Heq.
    assert (x = Fit) as ->; [|by left].
    apply mode_int_inj. pose proof (Hall x ltac:(by left)) as Hx.
    rewrite Heq in Hx. pose proof (mode_int_Fit_max x). lia.
Qed.

Lemma isMinimumMode_Fit (ms : list FlavorAssignmentMode) :
  isMinimumMode Fit ms ↔ ∀ x, x ∈ ms → x = Fit.
Proof.
  split.
  - intros (Hall & _ & _) x Hx. apply mode_int_inj.
    pose proof (Hall x Hx). pose proof (mode_int_Fit_max x). lia.
  - intros Hall. split_and!; [|done|].
    + intros x Hx. rewrite (Hall x Hx). lia.
    + destruct ms as [|x ms]; [done|]. intros _.
      rewrite <- (Hall x ltac:(by left)). by left.
Qed.

Lemma worstFlavorMode_Fit (flavors : ResourceAssignment) :
  worstFlavorMode flavors = Fit ↔ allFit flavors.
Proof.
  pose proof (worstFlavorMode_isMinimum flavors) as Hmin.
  unfold allFit, flavorModes in *. split.
  - intros Hfit r fa Hr. rewrite Hfit in Hmin.
    apply (proj1 (isMinimumMode_Fit _) Hmin).
    apply list_elem_of_fmap. exists (r, fa). split; [done|].
    by apply elem_of_map_to_list.
  - intros Hall. destruct Hmin as (_ & Hnil & Hin).
    destruct (map_to_list flavors) as [|[r fa] l] eqn:Hl; [by apply Hnil|].
    pose proof (Hin ltac:(done)) as Hx.
    apply list_elem_of_fmap in Hx as ([r' fa'] & -> & Hkv).
    cbn. apply (Hall r'). apply elem_of_map_to_list. by rewrite Hl.
Qed.

Lemma worstPodSetMode_Fit (podSets : list PodSetAssignment) :
  worstPodSetMode podSets = Fit
  ↔ ∀ ps, ps ∈ podSets → PodSetAssignment_RepresentativeMode ps = Fit.
Proof.
  pose proof (worstPodSetMode_isMinimum podSets) as Hmin. split.
  - intros Hfit ps Hps. rewrite Hfit in Hmin.
    apply (proj1 (isMinimumMode_Fit _) Hmin). apply list_elem_of_fmap. by exists ps.
  - intros Hall. destruct Hmin as (_ & Hnil & Hin).
    destruct podSets as [|ps l]; [by apply Hnil|].
    pose proof (Hin ltac:(done)) as Hx.
    apply list_elem_of_fmap in Hx as (ps' & -> & Hps'). by apply Hall.
Qed.

Lemma PodSetAssignment_mode_cases (ps : PodSetAssignment) :
  nilStatusFits ps →
  (psa_Flavors ps = ∅ → is_Some (psa_Status ps) →
     PodSetAssignment_RepresentativeMode ps = NoFit)
  ∧ (psa_Flavors ps ≠ ∅ ∨ psa_Status ps = None →
     PodSetAssignment_RepresentativeMode ps = worstFlavorMode (psa_Flavors ps)).
Proof.
  intros Hnil. split; [by apply PodSetAssignment_mode_broke|].
  unfold PodSetAssignment_RepresentativeMode.
  destruct (psa_Status ps) as [s|] eqn:Hs.
  - intros [Hne|?]; [|done]. rewrite bool_decide_eq_false_2; [done|].
    intros Hsize. by apply map_size_empty_iff in Hsize.
  - intros _. symmetry. apply worstFlavorMode_Fit. by apply Hnil.
Qed.

Lemma PodSetAssignment_mode_Fit (ps : PodSetAssignment) :
  nilStatusFits ps → PodSetAssignment_RepresentativeMode ps = Fit →
  allFit (psa_Flavors ps) ∧ ¬ (psa_Flavors ps = ∅ ∧ is_Some (psa_Status ps)).
Proof.
  intros Hnil Hfit. split.
  - destruct (psa_Status ps) as [s|] eqn:Hs; [|by apply Hnil].
    unfold PodSetAssignment_RepresentativeMode in Hfit. rewrite Hs in Hfit.
    case_bool_decide; [done|]. by apply worstFlavorMode_Fit.
  - intros [Hempty Hst].
    by rewrite (PodSetAssignment_mode_broke ps Hempty Hst) in Hfit.
Qed.

(** A pod set whose mode is [Fit]: every requested resource has a flavor,
    every flavor fits and was checked, and [AssignFlavors] goes on with the
    next pod set. *)
Lemma podSet_Fit (a : Assignment)
    (resourceFlavors : gmap string ResourceFlavor) (cq : ClusterQueue)
    (spec : option PodSpec) (requests : Requests) (name : string)
    (rl : list (string * Quantity)) (psa : PodSetAssignment) :
  indexConsistent cq →
  assignResources a resourceFlavors cq spec requests requests (mkPSA name ∅ None rl)
  = Some psa →
  nilStatusFits psa
  ∧ psa_Requests psa = rl
  ∧ (∀ r fa, psa_Flavors psa !! r = Some fa → checked a cq requests r fa)
  ∧ (PodSetAssignment_RepresentativeMode psa = Fit →
     allFit (psa_Flavors psa)
     ∧ (∀ r, r ∈ requests.*1 → is_Some (psa_Flavors psa !! r))
     ∧ Status_IsError (psa_Status psa)
       || (bool_decide (length requests ≠ 0%nat)
           && bool_decide (size (psa_Flavors psa) = 0%nat)) = false).
Proof.
  intros Hidx Hrun.
  destruct (assignResources_inv _ _ _ _ _ _ _ _ Hidx ltac:(done) Hrun)
    as (_ & Hrl & Hchk & Hnil & Herr & Hcases). cbn in Hrl, Hchk, Hnil, Herr, Hcases.
  assert (Hnil' : nilStatusFits psa).
  { unfold nilStatusFits. apply Hnil. intros _ r fa. by rewrite lookup_empty. }
  split_and!; [done|done| |].
  { apply Hchk. intros r fa. by rewrite lookup_empty. }
  intros Hfit. destruct (PodSetAssignment_mode_Fit psa Hnil' Hfit) as [Hall Hnot].
  destruct Hcases as [Hbroke|[Hassigned _]]; [done|].
  split_and!; [done| |].
  - intros r [[r' v] [-> Hin]]%list_elem_of_fmap. exact (Hassigned _ Hin).
  - apply orb_false_iff. split.
    + destruct (Status_IsError (psa_Status psa)) eqn:Hiserr; [|done].
      exfalso. apply Hnot. split; [by apply Herr|].
      by destruct (psa_Status psa).
    + apply andb_false_iff. destruct requests as [|rv rest]; [by left|]. right.
      apply bool_decide_eq_false. intros Hsize. apply map_size_empty_iff in Hsize.
      destruct (Hassigned rv ltac:(by left)) as [fa Hfa].
      by rewrite Hsize, lookup_empty in Hfa.
Qed.

(** One turn of the loop of [AssignFlavors] over the pod sets. *)
Lemma assignPodSets_step (podSets : list PodSet)
    (resourceFlavors : gmap string ResourceFlavor) (cq : ClusterQueue) (i : nat)
    (podSet : PodSetResources) (rest : list PodSetResources) (a a' : Assignment) :
  assignPodSets podSets resourceFlavors cq i (podSet :: rest) a = Some a' →
  ∃ requests psa,
    podSetRequests podSets cq i podSet = Some requests
    ∧ assignResources a resourceFlavors cq (ps_TemplateSpec <$> podSets !! i)
        requests requests (mkPSA (psr_Name podSet) ∅ None (ToResourceList requests))
      = Some psa
    ∧ let a1 := Assignment_append a requests psa in
      if Status_IsError (psa_Status psa)
         || (bool_decide (length requests ≠ 0%nat)
             && bool_decide (size (psa_Flavors psa) = 0%nat))
      then a' = mkAssignment (asg_PodSets a1) ∅ (usage a1) (representativeMode a1)
      else assignPodSets podSets resourceFlavors cq (S i) rest a1 = Some a'.
Proof.
  cbn [assignPodSets]. intros Hrun.
  destruct (podSetRequests podSets cq i podSet) as [requests|] eqn:Hreq; [|done].
  destruct (assignResources a resourceFlavors cq (ps_TemplateSpec <$> podSets !! i)
              requests requests _) as [psa|] eqn:Hpsa; [|done].
  exists requests, psa. split; [done|]. split; [exact Hpsa|]. cbn zeta.
  destruct (Status_IsError (psa_Status psa) || _); [by simplify_eq | done].
Qed.

(** The pod sets of the result: those it started with, then one for each
    pod set that the loop went through. *)
Lemma assignPodSets_new (podSets : list PodSet)
    (resourceFlavors : gmap string ResourceFlavor) (cq : ClusterQueue) (i : nat)
    (todo : list PodSetResources) (a a' : Assignment) :
  indexConsistent cq →
  assignPodSets podSets resourceFlavors cq i todo a = Some a' →
  ∃ new, asg_PodSets a' = asg_PodSets a ++ new
         ∧ representativeMode a' = representativeMode a
         ∧ Forall nilStatusFits new.
Proof.
  intros Hidx. revert i a. induction todo as [|podSet rest IH]; intros i a Hrun.
  - cbn in Hrun. simplify_eq. exists []. by rewrite app_nil_r.
  - apply assignPodSets_step in Hrun as (requests & psa & Hreq & Hpsa & Hnext).
    cbn zeta in Hnext.
    destruct (podSet_Fit _ _ _ _ _ _ _ _ Hidx Hpsa) as (Hnil & _).
    destruct (Assignment_append_PodSets a requests psa) as [Hps Hrep].
    destruct (Status_IsError (psa_Status psa) || _).
    + subst a'. cbn. exists [psa]. split_and!; [done|done|]. by constructor.
    + apply IH in Hnext as (new & Hnew & Hrep' & Hall).
      exists (psa :: new). rewrite Hnew, Hps, Hrep', Hrep, <- app_assoc.
      split_and!; [done|done|]. by constructor.
Qed.

(** When every pod set of the result has mode [Fit], the loop went through
    all the pod sets, and every resource that a pod set requests has a
    flavor that fits. *)
Lemma assignPodSets_Fit (podSets : list PodSet)
    (resourceFlavors : gmap string ResourceFlavor) (cq : ClusterQueue) (i : nat)
    (todo : list PodSetResources) (a a' : Assignment) (new : list PodSetAssignment) :
  indexConsistent cq →
  assignPodSets podSets resourceFlavors cq i todo a = Some a' →
  asg_PodSets a' = asg_PodSets a ++ new →
  (∀ ps, ps ∈ new → PodSetAssignment_RepresentativeMode ps = Fit) →
  length new = length todo
  ∧ ∀ k podSet, todo !! k = Some podSet →
      ∃ ps requests,
        new !! k = Some ps
        ∧ podSetRequests podSets cq (i + k) podSet = Some requests
        ∧ ∀ r, r ∈ requests.*1 →
            ∃ fa, psa_Flavors ps !! r = Some fa ∧ fa_Mode fa = Fit.
Proof.
  intros Hidx. revert i a new.
  induction todo as [|podSet rest IH]; intros i a new Hrun Hnew Hfit.
  - cbn in Hrun. simplify_eq.
    assert (new = []) as ->.
    { apply (app_inv_head (asg_PodSets a')). by rewrite app_nil_r. }
    split; [done|]. by intros k podSet ?.
  - apply assignPodSets_step in Hrun as (requests & psa & Hreq & Hpsa & Hnext).
    cbn zeta in Hnext.
    destruct (podSet_Fit _ _ _ _ _ _ _ _ Hidx Hpsa) as (_ & _ & _ & Hpsfit).
    destruct (Assignment_append_PodSets a requests psa) as [Hps _].
    assert (Hhead : ∃ new', new = psa :: new'
              ∧ (Status_IsError (psa_Status psa)
                 || (bool_decide (length requests ≠ 0%nat)
                     && bool_decide (size (psa_Flavors psa) = 0%nat)) = false →
                 asg_PodSets a' = asg_PodSets (Assignment_append a requests psa) ++ new')).
    { destruct (Status_IsError (psa_Status psa) || _) eqn:Hbreak.
      - subst a'. cbn in Hnew. rewrite Hps in Hnew.
        apply app_inv_head in Hnew. exists []. by split.
      - destruct (assignPodSets_new _ _ _ _ _ _ _ Hidx Hnext) as (new' & Hnew' & _).
        exists new'. split; [|done]. rewrite Hnew', Hps, <- app_assoc in Hnew.
        by apply app_inv_head in Hnew. }
    destruct Hhead as (new' & -> & Hrest).
    destruct (Hpsfit (Hfit psa ltac:(by left))) as (Hall & Hassigned & Hgo).
    rewrite Hgo in Hnext. specialize (Hrest Hgo).
    destruct (IH _ _ new' Hnext Hrest) as [Hlen Hnth].
    { intros ps Hps'. apply Hfit. by right. }
    split; [by cbn; rewrite Hlen|].
    intros [|k] podSet' Hk; cbn in Hk.
    + simplify_eq. exists psa, requests. rewrite Nat.add_0_r.
      split_and!; [done|done|].
      intros r Hr. destruct (Hassigned r Hr) as [fa Hfa].
      exists fa. split; [done|]. by apply (Hall r).
    + destruct (Hnth k podSet' Hk) as (ps & requests' & Hps' & Hreq' & Hfits).
      exists ps, requests'. split_and!; [done| |done].
      by rewrite <- Nat.add_succ_comm.
Qed.

(** *** Usage of a workload that fits *)

Lemma int64_add_id (a b : Z) : int64.in_range (a + b) → int64.add a b = (a + b)%Z.
Proof. apply int64_wrap_id. Qed.

Lemma int64_sub_id (a b : Z) : int64.in_range (a - b) → int64.sub a b = (a - b)%Z.
Proof. apply int64_wrap_id. Qed.

Lemma quantitiesInRange_get (q : FlavorResourceQuantities) (f r : string) :
  quantitiesInRange q → quantity (frq_get q f r).
Proof.
  intros Hq. unfold frq_get. destruct (q !! f) as [inner|] eqn:Hf; cbn.
  - destruct (inner !! r) as [v|] eqn:Hr; cbn; [by eapply (Hq f inner Hf r v)|].
    unfold quantity. lia.
  - unfold quantity. lia.
Qed.

Lemma queueInRange_numbers (cq : ClusterQueue) (f r : string) (rQuota : ResourceQuota) :
  queueInRange cq → quantity (Nominal rQuota) →
  quantity (frq_get (Usage cq) f r)
  ∧ quantity (cohortUsedOf cq f r)
  ∧ quantity (cohortAvailableOf cq f r (Nominal rQuota)).
Proof.
  intros (Husage & Hcohort & _) Hnominal.
  unfold cohortUsedOf, cohortAvailableOf.
  destruct (cq_Cohort cq) as [cohort|].
  - destruct Hcohort as [Hreq Hused].
    split_and!; by apply quantitiesInRange_get.
  - split_and!; [by apply quantitiesInRange_get..|done].
Qed.

(** A fit check that answers [Fit] has checked the bounds of the claim. *)
Lemma fitsResourceQuota_Fit_bounds (f r : string) (val : Z) (cq : ClusterQueue)
    (rQuota : ResourceQuota) :
  queueInRange cq → quotaInRange rQuota → (0 <= val < 2 ^ 62)%Z →
  (fitsResourceQuota f r val cq rQuota).1.1 = Fit →
  withinQuota cq f r rQuota val.
Proof.
  intros Hcq [Hnominal Hlimit] Hval.
  destruct (queueInRange_numbers cq f r rQuota Hcq Hnominal) as (Hu & HcU & HcA).
  unfold fitsResourceQuota, withinQuota, cohortUsedOf, cohortAvailableOf, quantity in *.
  destruct rQuota as [nominal bl]; cbn [Nominal BorrowingLimit] in *.
  assert (Hin : ∀ z, (- 2 ^ 63 <= z < 2 ^ 63)%Z → int64.in_range z) by done.
  destruct (cq_Cohort cq) as [cohort|], bl as [limit|];
    repeat rewrite int64_add_id by (apply Hin; lia);
    repeat rewrite int64_sub_id by (apply Hin; lia);
    repeat case_match; cbn; intros Hfit; try done;
    (split_and!; [intros l [= <-] || intros l [=] | intros c [= <-] || intros c [=]
                 | intros [=] || intros _]); lia.
Qed.

Lemma requests_get_NoDup (requests : Requests) (r : string) (v : Z) :
  NoDup (requests.*1) → (r, v) ∈ requests → requests_get requests r = v.
Proof.
  induction requests as [|[n x] rest IH]; [by intros _ ?%elem_of_nil|].
  cbn. intros [Hn Hnd]%NoDup_cons [[= -> ->]|Hin]%elem_of_cons.
  - by rewrite bool_decide_eq_true_2.
  - rewrite bool_decide_eq_false_2; [by apply IH|].
    intros ->. apply Hn. apply list_elem_of_fmap. by exists (r, v).
Qed.

Lemma resourceListValue_ToResourceList (requests : Requests) (r : string) :
  resourceListValue (ToResourceList requests) r = requests_get requests r.
Proof.
  induction requests as [|[n x] rest IH]; [done|]. cbn.
  case_bool_decide; [|done]. unfold ResourceQuantity. by repeat case_match.
Qed.

Lemma find_by_name (flavors : list FlavorQuotas) (fq : FlavorQuotas) :
  NoDup (fq_Name <$> flavors) → fq ∈ flavors →
  List.find (λ flvQuotas, bool_decide (fq_Name flvQuotas = fq_Name fq)) flavors = Some fq.
Proof.
  induction flavors as [|fq' rest IH]; [by intros _ ?%elem_of_nil|].
  cbn. intros [Hn Hnd]%NoDup_cons [->|Hin]%elem_of_cons.
  - by rewrite bool_decide_eq_true_2.
  - rewrite bool_decide_eq_false_2; [by apply IH|].
    intros Heq. apply Hn. rewrite Heq. apply list_elem_of_fmap. by exists fq.
Qed.

(** In a well-formed cluster queue, the quota against which an assigned
    flavor was checked is the quota of its flavor and resource. *)
Lemma checked_quotaOf (a : Assignment) (cq : ClusterQueue) (requests : Requests)
    (r : string) (fa : FlavorAssignment) :
  indexConsistent cq → groupsWellFormed cq → queueInRange cq →
  checked a cq requests r fa →
  ∃ v rQuota,
    (r, v) ∈ requests
    ∧ quotaOf cq (fa_Name fa) r = Some rQuota
    ∧ quotaInRange rQuota
    ∧ (fitsResourceQuota (fa_Name fa) r
         (int64.add v (frq_get (usage a) (fa_Name fa) r)) cq rQuota).1
      = (fa_Mode fa, fa_borrow fa).
Proof.
  intros Hidx Hwf (_ & _ & Hquotas) (r0 & rg & fq & Hrg & Hfq & Hname & v & q & Hin & Hq & Hfit).
  apply elem_of_filterRequestedResources in Hin as [Hin Hcov]. cbn in Hcov.
  exists v, q. rewrite Hname. split_and!; [done| | |done].
  - unfold quotaOf. rewrite (indexConsistent_indexed cq r0 r rg Hidx Hrg Hcov). cbn.
    destruct (Hwf r0 rg Hrg) as [_ Hnd]. by rewrite (find_by_name _ fq Hnd Hfq).
  - specialize (Hquotas r0 rg Hrg). cbn in Hquotas.
    rewrite Forall_forall in Hquotas. by apply (Hquotas fq Hfq r q).
Qed.

Lemma workloadUsage_snoc (podSets : list PodSetAssignment) (ps : PodSetAssignment)
    (f r : string) :
  workloadUsage (podSets ++ [ps]) f r
  = (workloadUsage podSets f r + podSetUsage ps f r)%Z.
Proof.
  unfold workloadUsage. induction podSets as [|ps' podSets IH]; cbn; [lia|].
  rewrite IH. lia.
Qed.

(** Appending a pod set whose flavors all fit keeps the accumulated usage
    within the quotas. *)
Lemma append_keeps_usage_within_quota (a : Assignment) (cq : ClusterQueue)
    (requests : Requests) (psa : PodSetAssignment) :
  indexConsistent cq → groupsWellFormed cq → queueInRange cq →
  requestsWellFormed requests →
  usageWithinQuota cq a →
  allFit (psa_Flavors psa) →
  (∀ r fa, psa_Flavors psa !! r = Some fa → checked a cq requests r fa) →
  psa_Requests psa = ToResourceList requests →
  usageWithinQuota cq (Assignment_append a requests psa).
Proof.
  intros Hidx Hwf Hcq [Hnd Hreqs] Hinv Hfit Hchk Hrl f r.
  destruct (Hinv f r) as [Hsum Hbound].
  destruct (Assignment_append_PodSets a requests psa) as [-> _].
  rewrite workloadUsage_snoc, frq_get_lookup, Assignment_append_usage.
  unfold podSetUsage.
  destruct (psa_Flavors psa !! r) as [fa|] eqn:Hfa.
  2:{ rewrite <- frq_get_lookup. split; [lia | done]. }
  destruct (decide (fa_Name fa = f)) as [<-|Hf].
  2:{ rewrite bool_decide_eq_false_2 by done. rewrite <- frq_get_lookup.
      split; [lia | done]. }
  rewrite bool_decide_eq_true_2 by done.
  destruct (checked_quotaOf _ _ _ _ _ Hidx Hwf Hcq (Hchk r fa Hfa))
    as (v & q & Hin & Hq & Hqrange & Hcheck).
  rewrite (requests_get_NoDup requests r v Hnd Hin).
  rewrite Hrl, resourceListValue_ToResourceList, (requests_get_NoDup requests r v Hnd Hin).
  assert (Hv : quantity v).
  { rewrite Forall_forall in Hreqs. exact (Hreqs _ Hin). }
  assert (Hold : quantity (frq_get (usage a) (fa_Name fa) r)).
  { rewrite frq_get_lookup.
    destruct (frq_lookup (usage a) (fa_Name fa) r) as [t|] eqn:Ht; cbn.
    - by destruct (Hbound t eq_refl).
    - unfold quantity. lia. }
  unfold quantity in Hv, Hold.
  assert (Hadd : int64.add (frq_get (usage a) (fa_Name fa) r) v
                 = (frq_get (usage a) (fa_Name fa) r + v)%Z).
  { apply int64_add_id. unfold int64.in_range, int64.half. lia. }
  assert (Hadd' : int64.add v (frq_get (usage a) (fa_Name fa) r)
                  = (frq_get (usage a) (fa_Name fa) r + v)%Z).
  { rewrite <- Hadd. unfold int64.add. f_equal. lia. }
  rewrite Hadd' in Hcheck. rewrite Hadd. cbn.
  assert (Hwithin : withinQuota cq (fa_Name fa) r q
                      (frq_get (usage a) (fa_Name fa) r + v)).
  { apply fitsResourceQuota_Fit_bounds; [done|done|lia|].
    rewrite Hcheck. cbn. by apply (Hfit r). }
  split; [lia|]. intros t [= <-]. split; [|by exists q].
  destruct Hqrange as [Hnominal _].
  destruct (queueInRange_numbers cq (fa_Name fa) r q Hcq Hnominal) as (Hu & HcU & HcA).
  destruct Hwithin as (_ & Hcohort & Hnone).
  unfold quantity, cohortUsedOf, cohortAvailableOf in *.
  destruct (cq_Cohort cq) as [cohort|].
  - specialize (Hcohort cohort eq_refl). lia.
  - specialize (Hnone eq_refl). lia.
Qed.

Lemma requests_set_keys (requests : Requests) (name : string) (v : Z) (n : string) :
  n ∈ (requests_set requests name v).*1 → n ∈ requests.*1 ∨ n = name.
Proof.
  induction requests as [|[n0 x] rest IH]; cbn.
  - intros ?%list_elem_of_singleton. by right.
  - case_bool_decide; cbn.
    + intros [->|Hin]%elem_of_cons; [left; by left | left; by right].
    + intros [->|Hin]%elem_of_cons; [left; by left|].
      destruct (IH Hin) as [?|?]; [left; by right | by right].
Qed.

Lemma requests_set_wellFormed (requests : Requests) (name : string) (v : Z) :
  requestsWellFormed requests → quantity v →
  requestsWellFormed (requests_set requests name v).
Proof.
  intros [Hnd Hq] Hv. unfold requestsWellFormed.
  induction requests as [|[n x] rest IH]; cbn.
  - split; [apply NoDup_singleton | by constructor].
  - apply NoDup_cons in Hnd as [Hn Hnd]. apply Forall_cons in Hq as [Hx Hq].
    case_bool_decide as Heq; cbn.
    + split; [by apply NoDup_cons | by constructor].
    + destruct (IH Hnd Hq) as [Hnd' Hq'].
      split; [|by constructor]. apply NoDup_cons. split; [|done].
      intros Hin. by destruct (requests_set_keys _ _ _ _ Hin).
Qed.

Lemma podSetRequests_wellFormed (podSets : list PodSet) (cq : ClusterQueue) (i : nat)
    (podSet : PodSetResources) (requests : Requests) :
  Forall (λ ps, quantity (ps_Count ps)) podSets →
  requestsWellFormed (psr_Requests podSet) →
  podSetRequests podSets cq i podSet = Some requests →
  requestsWellFormed requests.
Proof.
  intros Hcounts Hwf. unfold podSetRequests. case_bool_decide; [|by intros [= <-]].
  destruct (podSets !! i) as [ps|] eqn:Hps; [|done]. cbn. intros [= <-].
  apply requests_set_wellFormed; [done|].
  rewrite Forall_forall in Hcounts. apply Hcounts. by eapply list_elem_of_lookup_2.
Qed.

(** When every pod set of the result has mode [Fit], the usage that the
    assignment accumulates stays within the quotas. *)
Lemma assignPodSets_usage (podSets : list PodSet)
    (resourceFlavors : gmap string ResourceFlavor) (cq : ClusterQueue) (i : nat)
    (todo : list PodSetResources) (a a' : Assignment) (new : list PodSetAssignment) :
  indexConsistent cq → groupsWellFormed cq → queueInRange cq →
  Forall (λ ps, quantity (ps_Count ps)) podSets →
  Forall (λ podSet, requestsWellFormed (psr_Requests podSet)) todo →
  assignPodSets podSets resourceFlavors cq i todo a = Some a' →
  asg_PodSets a' = asg_PodSets a ++ new →
  (∀ ps, ps ∈ new → PodSetAssignment_RepresentativeMode ps = Fit) →
  usageWithinQuota cq a →
  usageWithinQuota cq a'.
Proof.
  intros Hidx Hwf Hcq Hcounts. revert i a new.
  induction todo as [|podSet rest IH]; intros i a new Htodo Hrun Hnew Hfit Hinv.
  - cbn in Hrun. by simplify_eq.
  - apply Forall_cons in Htodo as [Hreqwf Htodo].
    apply assignPodSets_step in Hrun as (requests & psa & Hreq & Hpsa & Hnext).
    cbn zeta in Hnext.
    destruct (podSet_Fit _ _ _ _ _ _ _ _ Hidx Hpsa) as (_ & Hrl & Hchk & Hpsfit).
    destruct (Assignment_append_PodSets a requests psa) as [Hps _].
    assert (Hhead : ∃ new', new = psa :: new'
              ∧ (Status_IsError (psa_Status psa)
                 || (bool_decide (length requests ≠ 0%nat)
                     && bool_decide (size (psa_Flavors psa) = 0%nat)) = false →
                 asg_PodSets a' = asg_PodSets (Assignment_append a requests psa) ++ new')).
    { destruct (Status_IsError (psa_Status psa) || _) eqn:Hbreak.
      - subst a'. cbn in Hnew. rewrite Hps in Hnew.
        apply app_inv_head in Hnew. exists []. by split.
      - destruct (assignPodSets_new _ _ _ _ _ _ _ Hidx Hnext) as (new' & Hnew' & _).
        exists new'. split; [|done]. rewrite Hnew', Hps, <- app_assoc in Hnew.
        by apply app_inv_head in Hnew. }
    destruct Hhead as (new' & -> & Hrest).
    destruct (Hpsfit (Hfit psa ltac:(by left))) as (Hall & _ & Hgo).
    rewrite Hgo in Hnext. specialize (Hrest Hgo).
    eapply (IH _ _ new' Htodo Hnext Hrest).
    + intros ps Hps'. apply Hfit. by right.
    + apply append_keeps_usage_within_quota; try done.
      by eapply podSetRequests_wellFormed.
Qed.

(** With quotas for every covered resource and a pod set for every entry
    of the total requests, [AssignFlavors] returns an assignment. *)
Lemma assignPodSets_total (podSets : list PodSet)
    (resourceFlavors : gmap string ResourceFlavor) (cq : ClusterQueue) (i : nat)
    (todo : list PodSetResources) (a : Assignment) :
  groupsWellFormed cq → (i + length todo <= length podSets)%nat →
  is_Some (assignPodSets podSets resourceFlavors cq i todo a).
Proof.
  intros Hwf. revert i a. induction todo as [|podSet rest IH]; intros i a Hlen; [done|].
  cbn in Hlen. cbn [assignPodSets].
  destruct (lookup_lt_is_Some_2 podSets i ltac:(lia)) as [ps Hps].
  unfold podSetRequests. rewrite Hps. cbn.
  set (requests := if bool_decide _ then _ else _).
  assert (Hreq : ∃ reqs, requests = Some reqs).
  { subst requests. case_bool_decide; eauto. }
  destruct Hreq as [reqs ->].
  destruct (assignResources_total a resourceFlavors cq (ps_TemplateSpec ps) reqs reqs
              (mkPSA (psr_Name podSet) ∅ None (ToResourceList reqs)) Hwf)
    as [psa ->].
  destruct (Status_IsError (psa_Status psa) || _); [done|].
  apply IH. lia.
Qed.

(** C3, as the code has it.  On a well-formed cluster queue, when the
    quantities of the snapshot and of the workload are between 0 and [2^61],
    so that no [int64] sum of the fit checks wraps around, the assigner
    returns an assignment, and when its representative mode is [Fit]: for
    every flavor and resource that the workload uses, adding the usage of
    the workload to the usage of the snapshot stays within
    [Nominal + BorrowingLimit] when the borrowing limit is set, and keeps
    the usage of the cohort within what the cohort can give (the nominal
    quota when there is no cohort).  The usage of the workload is the sum
    over all its pod sets, and equals the usage that the assignment
    accumulated for the fit checks of later pod sets. *)
Theorem fit_assignment_within_quota (wl : Info)
    (resourceFlavors : gmap string ResourceFlavor) (cq : ClusterQueue) :
  indexConsistent cq → groupsWellFormed cq → queueInRange cq →
  workloadWellFormed wl →
  ∃ a, AssignFlavors wl resourceFlavors cq = Some a
       ∧ ((Assignment_RepresentativeMode a).1 = Fit →
          ∀ f r,
            frq_get (usage a) f r = workloadUsage (asg_PodSets a) f r
            ∧ ((0 < workloadUsage (asg_PodSets a) f r)%Z →
               ∃ rQuota,
                 quotaOf cq f r = Some rQuota
                 ∧ withinQuota cq f r rQuota (workloadUsage (asg_PodSets a) f r))).
Proof.
  intros Hidx Hwf Hcq (Hlen & Hreqs & Hcounts).
  destruct (assignPodSets_total (PodSets (Spec (Obj wl))) resourceFlavors cq 0
              (TotalRequests wl) (mkAssignment [] ∅ ∅ None) Hwf ltac:(lia))
    as [a Hrun].
  exists a. split; [done|]. intros Hfit f r.
  destruct (assignPodSets_new _ _ _ _ _ _ _ Hidx Hrun) as (new & Hnew & Hrep & _).
  cbn in Hnew, Hrep.
  assert (Hall : ∀ ps, ps ∈ new → PodSetAssignment_RepresentativeMode ps = Fit).
  { unfold Assignment_RepresentativeMode in Hfit. rewrite Hrep in Hfit.
    case_bool_decide; [done|]. cbn in Hfit. rewrite <- Hnew.
    by apply worstPodSetMode_Fit. }
  assert (Hinv : usageWithinQuota cq a).
  { eapply (assignPodSets_usage _ _ _ _ _ _ _ new Hidx Hwf Hcq Hcounts Hreqs Hrun);
      [done|done|].
    intros f' r'. split; [done|]. intros t. unfold frq_lookup. cbn.
    by rewrite lookup_empty. }
  destruct (Hinv f r) as [Hsum Hbound]. split; [done|].
  intros Hpos. rewrite <- Hsum in Hpos |- *.
  rewrite frq_get_lookup in Hpos |- *.
  destruct (frq_lookup (usage a) f r) as [t|] eqn:Ht; cbn in *; [|lia].
  destruct (Hbound t eq_refl) as [_ Hq]. exact Hq.
Qed.

(** C1, as the code has it.  For every computed assignment:
    - the representative mode of the workload is [NoFit] when the assignment
      has no pod sets, and otherwise the minimum of the modes of its pod
      sets under [NoFit < Preempt < Fit];
    - the mode of a pod set is [NoFit] when it has a status and no assigned
      flavors, and otherwise the minimum over its assigned flavors;
    - consequently, when the representative mode is [Fit], the assignment
      has a pod set for every pod set of the workload, and every resource
      that a pod set requests has an assignment with mode [Fit]. *)
Theorem representative_mode_guarded_minimum (wl : Info)
    (resourceFlavors : gmap string ResourceFlavor) (cq : ClusterQueue)
    (a : Assignment) :
  indexConsistent cq →
  AssignFlavors wl resourceFlavors cq = Some a →
  let mode := (Assignment_RepresentativeMode a).1 in
  (asg_PodSets a = [] → mode = NoFit)
  ∧ (asg_PodSets a ≠ [] →
     isMinimumMode mode (PodSetAssignment_RepresentativeMode <$> asg_PodSets a))
  ∧ (∀ ps, ps ∈ asg_PodSets a →
       (psa_Flavors ps = ∅ → is_Some (psa_Status ps) →
          PodSetAssignment_RepresentativeMode ps = NoFit)
       ∧ (psa_Flavors ps ≠ ∅ ∨ psa_Status ps = None →
          isMinimumMode (PodSetAssignment_RepresentativeMode ps)
            (flavorModes (psa_Flavors ps))))
  ∧ (mode = Fit →
     length (asg_PodSets a) = length (TotalRequests wl)
     ∧ ∀ i podSet, TotalRequests wl !! i = Some podSet →
         ∃ ps requests,
           asg_PodSets a !! i = Some ps
           ∧ podSetRequests (PodSets (Spec (Obj wl))) cq i podSet = Some requests
           ∧ ∀ r, r ∈ requests.*1 →
               ∃ fa, psa_Flavors ps !! r = Some fa ∧ fa_Mode fa = Fit).
Proof.
  intros Hidx Hrun. cbn zeta. unfold AssignFlavors in Hrun.
  destruct (assignPodSets_new _ _ _ _ _ _ _ Hidx Hrun) as (new & Hnew & Hrep & Hnil).
  cbn in Hnew, Hrep.
  assert (Hmode : (Assignment_RepresentativeMode a).1
                  = if bool_decide (length (asg_PodSets a) = 0%nat) then NoFit
                    else worstPodSetMode (asg_PodSets a)).
  { unfold Assignment_RepresentativeMode. rewrite Hrep. by case_bool_decide. }
  split_and!.
  - intros Hempty. by rewrite Hmode, Hempty.
  - intros Hne. rewrite Hmode, bool_decide_eq_false_2.
    + apply worstPodSetMode_isMinimum.
    + intros Hlen. by apply nil_length_inv in Hlen.
  - intros ps Hps. rewrite Hnew in Hps. rewrite Forall_forall in Hnil.
    destruct (PodSetAssignment_mode_cases ps (Hnil ps Hps)) as [Hbroke Hmin].
    split; [done|]. intros Hcase. rewrite (Hmin Hcase).
    apply worstFlavorMode_isMinimum.
  - intros Hfit. rewrite Hmode in Hfit. case_bool_decide as Hlen; [done|].
    pose proof (proj1 (worstPodSetMode_Fit _) Hfit) as Hall.
    destruct (assignPodSets_Fit _ _ _ _ _ _ _ new Hidx Hrun) as [Hlen' Hnth];
      [done | by rewrite <- Hnew |].
    rewrite Hnew. split; [done|]. intros i podSet Hi. by apply (Hnth i).
Qed.

End PodSetsOfWorkload.

Section RepresentativeModeExamples.
Import kueue cache workload flavorassigner.

Lemma representative_mode_guarded_minimum_witness :
  indexConsistent tests.borrowingQueue
  ∧ ∃ a, tests.run tests.borrowingWorkload tests.borrowingQueue = Some a
         ∧ (Assignment_RepresentativeMode a).1 = Fit
         ∧ length (asg_PodSets a) = 2%nat.
Proof.
  assert (Hidx : indexConsistent tests.borrowingQueue).
  { apply (bool_decide_unpack _). vm_compute. exact I. }
  split; [exact Hidx|].
  destruct (tests.run tests.borrowingWorkload tests.borrowingQueue) as [a|] eqn:Hrun;
    [|by vm_compute in Hrun].
  exists a. split; [done|].
  assert (Hfit : (Assignment_RepresentativeMode a).1 = Fit).
  { vm_compute in Hrun. injection Hrun as <-. vm_compute. reflexivity. }
  split; [exact Hfit|].
  destruct (representative_mode_guarded_minimum (H := reference.helpers)
              tests.borrowingWorkload tests.resourceFlavors tests.borrowingQueue a
              Hidx Hrun) as (_ & _ & _ & Hall).
  destruct (Hall Hfit) as [Hlen _]. exact Hlen.
Defined.

(** The claim as stated fails on a pod set that has a status and no
    assigned flavors, as every pod set that does not fit has: its mode is
    [NoFit], whereas the minimum over its (no) assigned flavors is [Fit].
    Here the workload of "resource not listed in clusterQueue". *)
Lemma representative_mode_is_not_the_minimum :
  ∃ a ps,
    tests.run tests.gpuWorkload tests.cpuOnlyQueue = Some a
    ∧ asg_PodSets a = [ps]
    ∧ PodSetAssignment_RepresentativeMode ps = NoFit
    ∧ worstFlavorMode (psa_Flavors ps) = Fit
    ∧ ¬ isMinimumMode (PodSetAssignment_RepresentativeMode ps)
          (flavorModes (psa_Flavors ps)).
Proof.
  eexists _, _. split; [vm_compute; reflexivity|]. split; [reflexivity|].
  split; [reflexivity|]. split; [reflexivity|].
  intros (_ & Hnil & _). specialize (Hnil eq_refl). discriminate Hnil.
Qed.

(** "multiple specs, fits borrowing": the two pod sets use 10 CPUs of the
    flavor together, within the nominal quota of 2 and the borrowing limit
    of 98, and within the 200 that the cohort can give. *)
Lemma fit_assignment_within_quota_witness :
  indexConsistent tests.borrowingQueue
  ∧ groupsWellFormed tests.borrowingQueue
  ∧ queueInRange tests.borrowingQueue
  ∧ workloadWellFormed tests.borrowingWorkload
  ∧ ∃ a, tests.run tests.borrowingWorkload tests.borrowingQueue = Some a
         ∧ workloadUsage (asg_PodSets a) "default" "cpu" = 10000%Z
         ∧ ∃ rQuota,
             quotaOf tests.borrowingQueue "default" "cpu" = Some rQuota
             ∧ withinQuota tests.borrowingQueue "default" "cpu" rQuota 10000.
Proof.
  assert (Hidx : indexConsistent tests.borrowingQueue).
  { apply (bool_decide_unpack _). vm_compute. exact I. }
  assert (Hwf : groupsWellFormed tests.borrowingQueue).
  { apply (bool_decide_unpack _). vm_compute. exact I. }
  assert (Hcq : queueInRange tests.borrowingQueue).
  { apply (bool_decide_unpack _). vm_compute. exact I. }
  assert (Hwl : workloadWellFormed tests.borrowingWorkload).
  { apply (bool_decide_unpack _). vm_compute. exact I. }
  split; [exact Hidx|]. split; [exact Hwf|]. split; [exact Hcq|]. split; [exact Hwl|].
  destruct (fit_assignment_within_quota (H := reference.helpers)
              tests.borrowingWorkload tests.resourceFlavors tests.borrowingQueue
              Hidx Hwf Hcq Hwl) as (a & Hrun & Hfits).
  exists a. split; [exact Hrun|].
  assert (Hfit : (Assignment_RepresentativeMode a).1 = Fit).
  { vm_compute in Hrun. injection Hrun as <-. vm_compute. reflexivity. }
  assert (Husage : workloadUsage (asg_PodSets a) "default" "cpu" = 10000%Z).
  { vm_compute in Hrun. injection Hrun as <-. vm_compute. reflexivity. }
  split; [exact Husage|].
  destruct (Hfits Hfit "default" "cpu") as [_ Hquota].
  rewrite Husage in Hquota. apply Hquota. reflexivity.
Defined.

(** The claim as stated fails when a sum of the fit check wraps around.
    The cluster queue uses its nominal quota of [2^62] in full and may
    borrow nothing, so that its usage is within [Nominal + BorrowingLimit],
    and the usage of the cohort is within what the cohort can give.  For a
    request of [2^62] the sum [used + val] of the check of the borrowing
    limit wraps to the smallest [int64]: the workload fits, and with it the
    cluster queue uses [2^63], more than [Nominal + BorrowingLimit]. *)
Lemma fit_assignment_exceeds_borrowing_limit :
  indexConsistent overflow.fullQueue
  ∧ groupsWellFormed overflow.fullQueue
  ∧ length (TotalRequests overflow.bigWorkload)
    = length (PodSets (Spec (Obj overflow.bigWorkload)))
  ∧ withinQuota overflow.fullQueue "one" "cpu" overflow.fullQuota 0
  ∧ ∃ a,
      tests.run overflow.bigWorkload overflow.fullQueue = Some a
      ∧ (Assignment_RepresentativeMode a).1 = Fit
      ∧ workloadUsage (asg_PodSets a) "one" "cpu" = (2 ^ 62)%Z
      ∧ frq_get (usage a) "one" "cpu" = (2 ^ 62)%Z
      ∧ quotaOf overflow.fullQueue "one" "cpu" = Some overflow.fullQuota
      ∧ BorrowingLimit overflow.fullQuota = Some 0%Z
      ∧ (Nominal overflow.fullQuota + 0
         < frq_get (Usage overflow.fullQueue) "one" "cpu"
           + workloadUsage (asg_PodSets a) "one" "cpu")%Z
      ∧ ¬ withinQuota overflow.fullQueue "one" "cpu" overflow.fullQuota
            (workloadUsage (asg_PodSets a) "one" "cpu").
Proof.
  split; [apply (bool_decide_unpack _); vm_compute; exact I|].
  split; [apply (bool_decide_unpack _); vm_compute; exact I|].
  split; [reflexivity|].
  split.
  { split_and!.
    - intros limit [= <-]. by vm_compute.
    - intros cohort [= <-]. by vm_compute.
    - intros [=]. }
  eexists. split; [vm_compute; reflexivity|].
  split; [vm_compute; reflexivity|]. split; [vm_compute; reflexivity|].
  split; [vm_compute; reflexivity|]. split; [vm_compute; reflexivity|].
  split; [reflexivity|]. split; [by vm_compute|].
  intros (Hlimit & _). specialize (Hlimit 0%Z eq_refl). by vm_compute in Hlimit.
Qed.

End RepresentativeModeExamples.

(** ** Part III: further properties of the code *)

(** *** Conditions of a workload *)

Section ConditionOperations.
Import kueue workload.

Lemma conditionOfType_Some (conds : list Condition) (T : string) (c : Condition) :
  conditionOfType conds T = Some c →
  ∃ i, apimeta.FindStatusCondition conds T = Some i ∧ conds !! i = Some c ∧ cond_Type c = T.
Proof.
  unfold conditionOfType. intros Hc.
  destruct (apimeta.FindStatusCondition conds T) as [i|] eqn:Hfind; [|done].
  cbn in Hc. exists i. destruct (FindStatusCondition_Some _ _ _ Hfind) as (c0 & Hl & Ht & _).
  split; [done|]. split; [done|]. congruence.
Qed.

Lemma conditionOfType_None (conds : list Condition) (T : string) :
  conditionOfType conds T = None ↔ apimeta.FindStatusCondition conds T = None.
Proof.
  unfold conditionOfType. split.
  - destruct (apimeta.FindStatusCondition conds T) as [i|] eqn:Hfind; [|done].
    destruct (FindStatusCondition_Some _ _ _ Hfind) as (c0 & Hl & _). cbn. by rewrite Hl.
  - by intros ->.
Qed.

Lemma FindStatusCondition_app (l1 l2 : list Condition) (T : string) :
  apimeta.FindStatusCondition (l1 ++ l2) T
  = match apimeta.FindStatusCondition l1 T with
    | Some i => Some i
    | None => (λ j, (length l1 + j)%nat) <$> apimeta.FindStatusCondition l2 T
    end.
Proof.
  induction l1 as [|c l1 IH]; cbn.
  - by destruct (apimeta.FindStatusCondition l2 T).
  - case_bool_decide; [done|]. rewrite IH.
    destruct (apimeta.FindStatusCondition l1 T); [done|].
    by destruct (apimeta.FindStatusCondition l2 T).
Qed.

Lemma conditionOfType_app (l1 l2 : list Condition) (T : string) :
  conditionOfType (l1 ++ l2) T
  = match conditionOfType l1 T with
    | Some c => Some c
    | None => conditionOfType l2 T
    end.
Proof.
  unfold conditionOfType. rewrite FindStatusCondition_app.
  destruct (apimeta.FindStatusCondition l1 T) as [i|] eqn:Hfind; cbn.
  - destruct (FindStatusCondition_Some _ _ _ Hfind) as (c0 & Hl & _).
    rewrite lookup_app_l by (by eapply lookup_lt_Some). by rewrite Hl.
  - destruct (apimeta.FindStatusCondition l2 T) as [j|]; cbn; [|done].
    rewrite lookup_app_r by lia. f_equal. lia.
Qed.

Lemma conditionOfType_insert (conds : list Condition) (T : string) (i : nat)
    (old new : Condition) :
  conds !! i = Some old → cond_Type new = cond_Type old →
  conditionOfType (<[ i := new ]> conds) T
  = if decide (apimeta.FindStatusCondition conds T = Some i) then Some new
    else conditionOfType conds T.
Proof.
  intros Hl Ht. unfold conditionOfType.
  rewrite (FindStatusCondition_insert _ _ _ old new Hl Ht).
  destruct (apimeta.FindStatusCondition conds T) as [j|] eqn:Hfind; cbn.
  - destruct (decide (Some j = Some i)) as [[= ->]|Hne].
    + rewrite list_lookup_insert_eq by (by eapply lookup_lt_Some). done.
    + rewrite list_lookup_insert_ne by congruence. done.
  - by rewrite decide_False.
Qed.

(** What [SetStatusCondition] leaves for the type of the new condition. *)
Lemma SetStatusCondition_found (sysnow : Z) (conds : list Condition) (c : Condition) :
  conditionOfType (apimeta.SetStatusCondition sysnow conds c) (cond_Type c)
  = Some (mkCondition (cond_Type c) (cond_Status c)
            (match conditionOfType conds (cond_Type c) with
             | Some existing =>
                 if bool_decide (cond_Status existing = cond_Status c)
                 then cond_LastTransitionTime existing
                 else storedTime sysnow (cond_LastTransitionTime c)
             | None => storedTime sysnow (cond_LastTransitionTime c)
             end)
            (cond_Reason c) (cond_Message c) (cond_ObservedGeneration c)).
Proof.
  unfold apimeta.SetStatusCondition, storedTime.
  destruct (conditionOfType conds (cond_Type c)) as [existing|] eqn:Hc.
  - apply conditionOfType_Some in Hc as (i & Hfind & Hl & Ht).
    rewrite Hfind, Hl. erewrite conditionOfType_insert by done.
    rewrite decide_True by done. rewrite Ht.
    case_bool_decide; cbn; [done|]. by destruct (apimeta.IsZero _).
  - apply conditionOfType_None in Hc. rewrite Hc.
    rewrite conditionOfType_app. unfold conditionOfType at 1. rewrite Hc. cbn.
    unfold conditionOfType. cbn. by rewrite bool_decide_eq_true_2.
Qed.

(** [SetStatusCondition] leaves the conditions of the other types as they
    are. *)
Lemma SetStatusCondition_other (sysnow : Z) (conds : list Condition) (c : Condition)
    (T : string) :
  cond_Type c ≠ T →
  conditionOfType (apimeta.SetStatusCondition sysnow conds c) T = conditionOfType conds T.
Proof.
  intros Hne. unfold apimeta.SetStatusCondition.
  destruct (apimeta.FindStatusCondition conds (cond_Type c)) as [i|] eqn:Hfind.
  - destruct (FindStatusCondition_Some _ _ _ Hfind) as (c0 & Hl & Ht & _).
    rewrite Hl. erewrite conditionOfType_insert by done.
    rewrite decide_False; [done|]. intros Hfind'.
    destruct (FindStatusCondition_Some _ _ _ Hfind') as (c1 & Hl1 & Ht1 & _). congruence.
  - rewrite conditionOfType_app.
    destruct (conditionOfType conds T); [done|].
    unfold conditionOfType. cbn. by rewrite bool_decide_eq_false_2.
Qed.

Lemma SetStatusCondition_types (sysnow : Z) (conds : list Condition) (c : Condition) :
  cond_Type <$> apimeta.SetStatusCondition sysnow conds c
  = match apimeta.FindStatusCondition conds (cond_Type c) with
    | Some _ => cond_Type <$> conds
    | None => (cond_Type <$> conds) ++ [cond_Type c]
    end.
Proof.
  unfold apimeta.SetStatusCondition.
  destruct (apimeta.FindStatusCondition conds (cond_Type c)) as [i|] eqn:Hfind.
  - destruct (FindStatusCondition_Some _ _ _ Hfind) as (c0 & Hl & Ht & _). rewrite Hl.
    rewrite list_fmap_insert. cbn. apply list_insert_id.
    by rewrite list_lookup_fmap, Hl.
  - by rewrite fmap_app.
Qed.

Lemma SetStatusCondition_NoDup (sysnow : Z) (conds : list Condition) (c : Condition) :
  NoDup (cond_Type <$> conds) →
  NoDup (cond_Type <$> apimeta.SetStatusCondition sysnow conds c).
Proof.
  intros Hnd. rewrite SetStatusCondition_types.
  destruct (apimeta.FindStatusCondition conds (cond_Type c)) eqn:Hfind; [done|].
  apply NoDup_app. split; [done|]. split; [|apply NoDup_singleton].
  intros T HT ->%list_elem_of_singleton.
  apply list_elem_of_fmap in HT as (c0 & Ht & Hin).
  by eapply FindStatusCondition_None.
Qed.

Lemma IsAdmitted_conditionOfType (w : Workload) :
  IsAdmitted w
  = match conditionOfType (Conditions (Status w)) WorkloadAdmitted with
    | Some c => bool_decide (cond_Status c = ConditionTrue)
    | None => false
    end.
Proof.
  unfold IsAdmitted, apimeta.IsStatusConditionTrue. apply IsPresentAndEqual_Find.
Qed.

(** The time that orders the queue, read off the Evicted condition. *)
Lemma queue_order_time (w : Workload) :
  loadTime w (GetQueueOrderTimestamp w)
  = Some (match evictedCondition w with
          | Some c =>
              if bool_decide (cond_Status c = ConditionTrue)
                 && bool_decide (cond_Reason c = WorkloadEvictedByPodsReadyTimeout)
              then cond_LastTransitionTime c
              else CreationTimestamp w
          | None => CreationTimestamp w
          end).
Proof.
  unfold evictedCondition, GetQueueOrderTimestamp, loadTime.
  destruct (apimeta.FindStatusCondition (Conditions (Status w)) WorkloadEvicted)
    as [i|] eqn:Hfind; cbn; [|done].
  destruct (Conditions (Status w) !! i) as [c|] eqn:Hl; [|done].
  destruct (_ && _); [|done]. by rewrite Hl.
Qed.

Lemma GetQueueOrderTimestamp_creation (w : Workload) :
  (∀ c, evictedCondition w = Some c →
        cond_Status c ≠ ConditionTrue
        ∨ cond_Reason c ≠ WorkloadEvictedByPodsReadyTimeout) →
  GetQueueOrderTimestamp w = CreationTimestampRef.
Proof.
  unfold evictedCondition, GetQueueOrderTimestamp. intros Hc.
  destruct (apimeta.FindStatusCondition (Conditions (Status w)) WorkloadEvicted)
    as [i|]; cbn in *; [|done].
  destruct (Conditions (Status w) !! i) as [c|]; [|done].
  destruct (Hc c eq_refl) as [Hs|Hr].
  - by rewrite (bool_decide_eq_false_2 _ Hs).
  - rewrite (bool_decide_eq_false_2 _ Hr). by rewrite andb_false_r.
Qed.

(** X1.  After [SetEvictedCondition] with reason PodsReadyTimeout the
    workload counts as evicted by PodsReady timeout, and the time that
    orders the queue is the time of the call only when the workload did
    not already have a true Evicted condition: a workload that was already
    evicted (for whatever reason) keeps the transition time of that earlier
    eviction. *)
Theorem eviction_queue_order_timestamp (now sysnow : Z) (w : Workload)
    (message : string) :
  let w' := SetEvictedCondition now sysnow w WorkloadEvictedByPodsReadyTimeout message in
  evictedByPodsReadyTimeout w'
  ∧ CreationTimestamp w' = CreationTimestamp w
  ∧ loadTime w' (GetQueueOrderTimestamp w')
    = Some (match evictedCondition w with
            | Some c =>
                if bool_decide (cond_Status c = ConditionTrue)
                then cond_LastTransitionTime c
                else storedTime sysnow now
            | None => storedTime sysnow now
            end).
Proof.
  cbn zeta.
  pose proof (SetStatusCondition_found sysnow (Conditions (Status w))
                (mkCondition WorkloadEvicted ConditionTrue now
                   WorkloadEvictedByPodsReadyTimeout message 0)) as Hfound.
  cbn [cond_Type cond_Status cond_LastTransitionTime cond_Reason cond_Message
       cond_ObservedGeneration] in Hfound.
  assert (Hev : ∀ w0, evictedCondition w0
                      = conditionOfType (Conditions (Status w0)) WorkloadEvicted) by done.
  split; [|split; [done|]].
  - eexists. rewrite Hev. split; [exact Hfound|]. done.
  - rewrite queue_order_time, !Hev. unfold SetEvictedCondition at 1. cbn [Status Conditions].
    rewrite Hfound. cbn [cond_Status cond_Reason cond_LastTransitionTime].
    rewrite !bool_decide_eq_true_2 by done. cbn [andb]. done.
Qed.

(** X2.  [SetAdmission] resets the eviction: the Evicted condition, when
    there is one, becomes false with the time of the call as its transition
    time (also when it was false already) and keeps its reason, so the
    workload no longer counts as evicted by PodsReady timeout and the time
    that orders the queue is the creation timestamp again. *)
Theorem admission_resets_eviction (now1 now2 sysnow : Z) (w : Workload)
    (adm : Admission) :
  ∃ w', SetAdmission now1 now2 sysnow w (Some adm) = Some w'
        ∧ evictedCondition w'
          = (λ c, mkCondition (cond_Type c) ConditionFalse now2 (cond_Reason c)
                    (cond_Message c) (cond_ObservedGeneration c)) <$> evictedCondition w
        ∧ ¬ evictedByPodsReadyTimeout w'
        ∧ GetQueueOrderTimestamp w' = CreationTimestampRef
        ∧ loadTime w' (GetQueueOrderTimestamp w') = Some (CreationTimestamp w).
Proof.
  unfold SetAdmission. eexists. split; [reflexivity|].
  set (admittedCond := mkCondition WorkloadAdmitted ConditionTrue now1 "Admitted"
                         ("Admitted by ClusterQueue " +:+ ClusterQueue adm) 0).
  set (conds := apimeta.SetStatusCondition sysnow (Conditions (Status w)) admittedCond).
  assert (Hother : conditionOfType conds WorkloadEvicted = evictedCondition w).
  { subst conds. by apply SetStatusCondition_other. }
  match goal with |- ?A ∧ _ => assert (Hev : A) end.
  { unfold evictedCondition at 1. cbn [Status Conditions].
    fold (conditionOfType
            (match apimeta.FindStatusCondition conds WorkloadEvicted with
             | Some i =>
                 match conds !! i with
                 | Some evictedCond =>
                     <[ i := mkCondition (cond_Type evictedCond) ConditionFalse now2
                               (cond_Reason evictedCond) (cond_Message evictedCond)
                               (cond_ObservedGeneration evictedCond) ]> conds
                 | None => conds
                 end
             | None => conds
             end) WorkloadEvicted).
    rewrite <- Hother.
    destruct (conditionOfType conds WorkloadEvicted) as [c|] eqn:Hc.
    - apply conditionOfType_Some in Hc as (i & Hfind & Hl & Ht).
      rewrite Hfind, Hl. erewrite conditionOfType_insert by done.
      by rewrite decide_True.
    - pose proof Hc as Hnone. apply conditionOfType_None in Hnone. by rewrite Hnone. }
  split; [exact Hev|].
  set (w' := mkWorkload _ _ _ _ _) in *.
  assert (Hstatus : ∀ c, evictedCondition w' = Some c → cond_Status c ≠ ConditionTrue).
  { intros c. rewrite Hev. destruct (evictedCondition w); [|done]. by intros [= <-]. }
  assert (Href : GetQueueOrderTimestamp w' = CreationTimestampRef).
  { apply GetQueueOrderTimestamp_creation. intros c Hc. left. by apply Hstatus. }
  split; [|split; [done|]].
  - intros (c & Hc & Htrue & _). by apply (Hstatus c).
  - by rewrite Href.
Qed.

(** X3.  [UnsetAdmissionWithCondition] leaves the Evicted condition as it
    is, so it changes neither whether the workload counts as evicted by
    PodsReady timeout nor the time that orders the queue. *)
Theorem unset_admission_keeps_queue_order (trunc : string → string) (now sysnow : Z)
    (w : Workload) (reason message : string) :
  let w' := UnsetAdmissionWithCondition trunc now sysnow w reason message in
  evictedCondition w' = evictedCondition w
  ∧ (evictedByPodsReadyTimeout w' ↔ evictedByPodsReadyTimeout w)
  ∧ loadTime w' (GetQueueOrderTimestamp w') = loadTime w (GetQueueOrderTimestamp w).
Proof.
  cbn zeta.
  match goal with |- ?A ∧ _ => assert (Hev : A) end.
  { unfold evictedCondition, UnsetAdmissionWithCondition. cbn [Status Conditions].
    by apply SetStatusCondition_other. }
  split; [exact Hev|]. split.
  - unfold evictedByPodsReadyTimeout. by rewrite Hev.
  - rewrite !queue_order_time. by rewrite Hev.
Qed.

(** X4.  [SetEvictedCondition] changes neither the admission nor the
    Admitted condition: an evicted workload stays admitted, and "non-nil
    admission ⇔ Admitted condition true" holds after the call exactly when
    it held before. *)
Theorem eviction_keeps_admission (now sysnow : Z) (w : Workload)
    (reason message : string) :
  let w' := SetEvictedCondition now sysnow w reason message in
  Admission_ (Status w') = Admission_ (Status w)
  ∧ IsAdmitted w' = IsAdmitted w
  ∧ (admissionMatchesCondition w' ↔ admissionMatchesCondition w).
Proof.
  cbn zeta. split; [done|].
  match goal with |- ?A ∧ _ => assert (Hadm : A) end.
  { rewrite !IsAdmitted_conditionOfType. unfold SetEvictedCondition.
    cbn [Status Conditions]. by rewrite SetStatusCondition_other. }
  split; [exact Hadm|]. unfold admissionMatchesCondition. by rewrite Hadm.
Qed.

(** X5.  The three operations on the conditions of a workload never create
    a second condition of a type: when the types of the conditions are
    distinct before [SetEvictedCondition], [UnsetAdmissionWithCondition] or
    [SetAdmission], they are distinct after it. *)
Theorem condition_types_stay_distinct (trunc : string → string)
    (now1 now2 sysnow : Z) (w : Workload) (adm : Admission)
    (reason message : string) :
  NoDup (cond_Type <$> Conditions (Status w)) →
  NoDup (cond_Type <$>
           Conditions (Status (SetEvictedCondition now1 sysnow w reason message)))
  ∧ NoDup (cond_Type <$>
             Conditions (Status (UnsetAdmissionWithCondition trunc now1 sysnow w
                                   reason message)))
  ∧ ∃ w', SetAdmission now1 now2 sysnow w (Some adm) = Some w'
          ∧ NoDup (cond_Type <$> Conditions (Status w')).
Proof.
  intros Hnd. split; [by apply SetStatusCondition_NoDup|].
  split; [by apply SetStatusCondition_NoDup|].
  unfold SetAdmission. eexists. split; [reflexivity|]. cbn [Status Conditions].
  set (conds := apimeta.SetStatusCondition sysnow (Conditions (Status w)) _).
  assert (Hconds : NoDup (cond_Type <$> conds)) by (by apply SetStatusCondition_NoDup).
  destruct (apimeta.FindStatusCondition conds WorkloadEvicted) as [i|]; [|done].
  destruct (conds !! i) as [c|] eqn:Hl; [|done].
  rewrite list_fmap_insert. cbn. rewrite list_insert_id; [done|].
  by rewrite list_lookup_fmap, Hl.
Qed.

(** X6.  The three operations never touch a condition of a type other than
    Admitted and Evicted (the PodsReady condition, say): the condition of
    such a type is the same after the call as before. *)
Theorem other_conditions_are_kept (trunc : string → string)
    (now1 now2 sysnow : Z) (w : Workload) (adm : Admission)
    (reason message T : string) :
  T ≠ WorkloadAdmitted → T ≠ WorkloadEvicted →
  conditionOfType
    (Conditions (Status (SetEvictedCondition now1 sysnow w reason message))) T
  = conditionOfType (Conditions (Status w)) T
  ∧ conditionOfType
      (Conditions (Status (UnsetAdmissionWithCondition trunc now1 sysnow w
                             reason message))) T
    = conditionOfType (Conditions (Status w)) T
  ∧ ∃ w', SetAdmission now1 now2 sysnow w (Some adm) = Some w'
          ∧ conditionOfType (Conditions (Status w')) T
            = conditionOfType (Conditions (Status w)) T.
Proof.
  intros Hadm Hev. split; [by apply SetStatusCondition_other|].
  split; [by apply SetStatusCondition_other|].
  unfold SetAdmission. eexists. split; [reflexivity|]. cbn [Status Conditions].
  set (conds := apimeta.SetStatusCondition sysnow (Conditions (Status w)) _).
  assert (Hconds : conditionOfType conds T = conditionOfType (Conditions (Status w)) T)
    by (by apply SetStatusCondition_other).
  destruct (apimeta.FindStatusCondition conds WorkloadEvicted) as [i|] eqn:Hfind; [|done].
  destruct (FindStatusCondition_Some _ _ _ Hfind) as (c & Hl & Ht & _). rewrite Hl.
  erewrite conditionOfType_insert by done.
  rewrite decide_False; [done|]. intros Hfind'.
  destruct (FindStatusCondition_Some _ _ _ Hfind') as (c1 & Hl1 & Ht1 & _). congruence.
Qed.

Lemma managedConditions_eq (conds : list Condition) :
  managedConditions conds
  = option_list (conditionOfType conds WorkloadAdmitted)
    ++ option_list (conditionOfType conds WorkloadEvicted).
Proof.
  unfold managedConditions, admissionManagedConditions, conditionOfType. cbn.
  destruct (apimeta.FindStatusCondition conds WorkloadAdmitted) as [i|]; cbn;
    [destruct (conds !! i); cbn|];
    (destruct (apimeta.FindStatusCondition conds WorkloadEvicted) as [j|]; cbn;
     [destruct (conds !! j); cbn|]); done.
Qed.

(** X7.  The patch that [admissionPatch] builds for server-side apply names
    the same workload, carries its admission and exactly its Admitted and
    Evicted conditions (the first of each type, Admitted first) and no
    condition of another type; so whether the workload is admitted and
    whether it was evicted by PodsReady timeout read the same from the
    patch as from the workload. *)
Theorem admissionPatch_carries_admission (GroupVersionString : string)
    (id : ObjectIdentity) (w : Workload) :
  let patch := (admissionPatch GroupVersionString id w).2 in
  Key patch = Key w
  ∧ Admission_ (Status patch) = Admission_ (Status w)
  ∧ Conditions (Status patch)
    = option_list (conditionOfType (Conditions (Status w)) WorkloadAdmitted)
      ++ option_list (conditionOfType (Conditions (Status w)) WorkloadEvicted)
  ∧ (∀ T, T ≠ WorkloadAdmitted → T ≠ WorkloadEvicted →
          conditionOfType (Conditions (Status patch)) T = None)
  ∧ IsAdmitted patch = IsAdmitted w
  ∧ (admissionMatchesCondition patch ↔ admissionMatchesCondition w)
  ∧ evictedCondition patch = evictedCondition w
  ∧ (evictedByPodsReadyTimeout patch ↔ evictedByPodsReadyTimeout w).
Proof.
  cbn zeta. unfold admissionPatch, BaseSSAWorkload. cbn [fst snd Status Conditions
    Namespace Name CreationTimestamp Spec Admission_ app].
  rewrite managedConditions_eq.
  set (conds := Conditions (Status w)).
  assert (Hadm : ∀ c, conditionOfType conds WorkloadAdmitted = Some c →
                      cond_Type c = WorkloadAdmitted).
  { intros c Hc. by apply conditionOfType_Some in Hc as (i & _ & _ & Ht). }
  assert (Hev : ∀ c, conditionOfType conds WorkloadEvicted = Some c →
                     cond_Type c = WorkloadEvicted).
  { intros c Hc. by apply conditionOfType_Some in Hc as (i & _ & _ & Ht). }
  assert (Hof : ∀ T,
            conditionOfType
              (option_list (conditionOfType conds WorkloadAdmitted)
               ++ option_list (conditionOfType conds WorkloadEvicted)) T
            = if decide (T = WorkloadAdmitted) then conditionOfType conds WorkloadAdmitted
              else if decide (T = WorkloadEvicted)
                   then conditionOfType conds WorkloadEvicted
                   else None).
  { intros T. rewrite conditionOfType_app.
    destruct (conditionOfType conds WorkloadAdmitted) as [c1|] eqn:H1;
      destruct (conditionOfType conds WorkloadEvicted) as [c2|] eqn:H2;
      unfold conditionOfType; cbn;
      try rewrite (Hadm c1 eq_refl); try rewrite (Hev c2 eq_refl);
      repeat case_bool_decide; repeat case_decide; simplify_eq; done. }
  split; [done|]. split; [done|]. split; [done|].
  split. { intros T H1 H2. rewrite Hof. by rewrite !decide_False. }
  match goal with |- ?A ∧ _ => assert (Hsame : A) end.
  { rewrite !IsAdmitted_conditionOfType. cbn [Status Conditions]. rewrite Hof.
    by rewrite decide_True. }
  split; [exact Hsame|].
  split. { unfold admissionMatchesCondition. by rewrite Hsame. }
  match goal with |- ?A ∧ _ => assert (Hevicted : A) end.
  { unfold evictedCondition. cbn [Status Conditions].
    fold (conditionOfType
            (option_list (conditionOfType conds WorkloadAdmitted)
             ++ option_list (conditionOfType conds WorkloadEvicted)) WorkloadEvicted).
    rewrite Hof. rewrite decide_False by done. by rewrite decide_True. }
  split; [exact Hevicted|]. unfold evictedByPodsReadyTimeout. by rewrite Hevicted.
Qed.

Lemma append_slash_inj (a1 a2 b1 b2 : string) :
  hasNoSlash a1 → hasNoSlash a2 →
  a1 +:+ "/" +:+ b1 = a2 +:+ "/" +:+ b2 → a1 = a2 ∧ b1 = b2.
Proof.
  unfold hasNoSlash. revert a2.
  induction a1 as [|c1 a1 IH]; intros [|c2 a2] H1 H2 Heq; simpl in H1, H2.
  - change (String slash b1 = String slash b2) in Heq. by injection Heq as ->.
  - change (String slash b1 = String c2 (a2 +:+ "/" +:+ b2)) in Heq.
    injection Heq as <- _. exfalso. apply H2. by left.
  - change (String c1 (a1 +:+ "/" +:+ b1) = String slash b2) in Heq.
    injection Heq as -> _. exfalso. apply H1. by left.
  - change (String c1 (a1 +:+ "/" +:+ b1) = String c2 (a2 +:+ "/" +:+ b2)) in Heq.
    injection Heq as -> Heq. destruct (IH a2) as [-> ->]; [tauto..|done|done].
Qed.

(** X8.  [Key] and [QueueKey] tell workloads and queues apart when the
    namespaces hold no slash: equal keys come from equal namespaces and
    equal names. *)
Theorem Key_injective (w1 w2 : Workload) :
  hasNoSlash (Namespace w1) → hasNoSlash (Namespace w2) →
  (Key w1 = Key w2 → Namespace w1 = Namespace w2 ∧ Name w1 = Name w2)
  ∧ (QueueKey w1 = QueueKey w2 →
     Namespace w1 = Namespace w2 ∧ QueueName (Spec w1) = QueueName (Spec w2)).
Proof.
  intros H1 H2. unfold Key, QueueKey. split; intros Heq; by apply append_slash_inj.
Qed.

(** Without that, two workloads can share a key. *)
Example Key_with_slash :
  Key (mkWorkload "a/b" "c" 0 (mkWorkloadSpec [] "") (mkWorkloadStatus None []))
  = Key (mkWorkload "a" "b/c" 0 (mkWorkloadSpec [] "") (mkWorkloadStatus None [])).
Proof. reflexivity. Qed.

(** [WorkloadWrapper.Admit], with which the tests present a workload as
    admitted, stores the admission and replaces the conditions by a single
    true Admitted condition, so "non-nil admission ⇔ Admitted condition
    true" holds after it and the workload does not count as evicted,
    whatever its conditions were. *)
Lemma wrapper_Admit_keeps_equivalence (now : Z) (w : Workload) (adm : Admission) :
  ∃ w', utiltesting.Admit now w (Some adm) = Some w'
        ∧ Admission_ (Status w') = Some adm
        ∧ IsAdmitted w' = true
        ∧ admissionMatchesCondition w'
        ∧ evictedCondition w' = None
        ∧ GetQueueOrderTimestamp w' = CreationTimestampRef.
Proof.
  eexists. split; [reflexivity|]. unfold admissionMatchesCondition. cbn.
  by repeat split.
Qed.

End ConditionOperations.

(** *** The order of strings and the messages of a status *)

Section Messages.
Import kueue cache workload flavorassigner.

Lemma string_compare_trans (a b c : string) :
  String.compare a b ≠ Gt → String.compare b c ≠ Gt → String.compare a c ≠ Gt.
Proof.
  revert b c. induction a as [|x a IH]; intros [|y b] [|z c]; cbn; try done.
  unfold Ascii.compare.
  destruct (N.compare_spec (Ascii.N_of_ascii x) (Ascii.N_of_ascii y)) as [Hxy|Hxy|Hxy];
    destruct (N.compare_spec (Ascii.N_of_ascii y) (Ascii.N_of_ascii z)) as [Hyz|Hyz|Hyz];
    destruct (N.compare_spec (Ascii.N_of_ascii x) (Ascii.N_of_ascii z)) as [Hxz|Hxz|Hxz];
    try done; try lia.
  apply IH.
Qed.

Lemma string_le_trans : Transitive string_le.
Proof.
  intros a b c. unfold string_le, String.leb. intros Hab Hbc.
  pose proof (string_compare_trans a b c) as Htrans.
  destruct (String.compare a b), (String.compare b c), (String.compare a c);
    try done; exfalso; by apply Htrans.
Qed.

Lemma string_le_total : Total string_le.
Proof. intros a b. apply String.leb_total. Qed.

Lemma string_le_antisymm : AntiSymm eq string_le.
Proof. intros a b. apply String.leb_antisym. Qed.

Lemma sortStrings_sorted (l : list string) : StronglySorted string_le (sortStrings l).
Proof.
  apply (@StronglySorted_merge_sort _ string_le _ string_le_trans string_le_total).
Qed.

Lemma sortStrings_Permutation (l : list string) : sortStrings l ≡ₚ l.
Proof. apply merge_sort_Permutation. Qed.

Lemma sortStrings_order_free (l1 l2 : list string) :
  l1 ≡ₚ l2 → sortStrings l1 = sortStrings l2.
Proof.
  intros Hperm.
  apply (@StronglySorted_unique _ string_le string_le_antisymm);
    [apply sortStrings_sorted..|].
  by rewrite !sortStrings_Permutation.
Qed.

Lemma sortStrings_idemp (l : list string) : sortStrings (sortStrings l) = sortStrings l.
Proof. apply sortStrings_order_free, sortStrings_Permutation. Qed.

(** X9.  The message of a status does not depend on the order in which
    its reasons were collected: two statuses with the same error and the
    same reasons in any order give the same message, which lists the
    reasons in increasing order, and leave the same status behind. *)
Theorem Status_Message_order_free (s1 s2 : Status) :
  reasons s1 ≡ₚ reasons s2 → err s1 = err s2 →
  (Status_Message (Some s1)).1 = (Status_Message (Some s2)).1
  ∧ (err s1 = None →
     Status_Message (Some s1) = Status_Message (Some s2)
     ∧ ∃ sorted, (Status_Message (Some s1)).1 = Join sorted ", "
                 ∧ sorted ≡ₚ reasons s1
                 ∧ StronglySorted string_le sorted).
Proof.
  intros Hperm Herr. unfold Status_Message. rewrite <- Herr.
  destruct (err s1) as [e|]; cbn; [done|].
  rewrite (sortStrings_order_free _ _ Hperm). split; [done|]. intros _. split; [done|].
  exists (sortStrings (reasons s2)).
  split; [done|]. split; [|apply sortStrings_sorted].
  by rewrite sortStrings_Permutation.
Qed.

Lemma Status_Message_idemp (s : option Status) :
  Status_Message (Status_Message s).2 = Status_Message s.
Proof.
  destruct s as [s|]; [|done]. unfold Status_Message.
  destruct (err s) as [e|] eqn:He; cbn.
  - by rewrite He.
  - by rewrite sortStrings_idemp.
Qed.

Lemma messageLoop_idemp (podSets : list PodSetAssignment) (builder : string) :
  messageLoop (messageLoop podSets builder).2 builder = messageLoop podSets builder.
Proof.
  revert builder. induction podSets as [|ps podSets IH]; intros builder; cbn; [done|].
  destruct (psa_Status ps) as [s|] eqn:Hs; cbn.
  - destruct (err s) as [e|] eqn:He; cbn.
    + by rewrite Hs, He.
    + change (merge_sort string_le (sortStrings (reasons s)))
        with (sortStrings (sortStrings (reasons s))).
      rewrite sortStrings_idemp. by rewrite IH.
  - by rewrite Hs, IH.
Qed.

(** X10.  [Assignment.Message] sorts the reasons of the statuses it goes
    through, in place; a second call gives the same message and changes
    nothing any more, and no call changes the names, the flavors or the
    requests of the pod sets, nor whether a pod set has a status. *)
Theorem Assignment_Message_idempotent (a : Assignment) :
  let first := Assignment_Message a in
  Assignment_Message first.2 = first
  ∧ TotalBorrow first.2 = TotalBorrow a
  ∧ Forall2 (λ ps ps',
               psa_Name ps' = psa_Name ps
               ∧ psa_Flavors ps' = psa_Flavors ps
               ∧ psa_Requests ps' = psa_Requests ps
               ∧ (psa_Status ps' = None ↔ psa_Status ps = None))
            (asg_PodSets a) (asg_PodSets first.2).
Proof.
  cbn zeta. unfold Assignment_Message. cbn [fst snd asg_PodSets TotalBorrow usage
    representativeMode]. split; [|split; [done|]].
  - by rewrite messageLoop_idemp.
  - generalize "". induction (asg_PodSets a) as [|ps podSets IH]; intros builder; cbn;
      [constructor|].
    destruct (psa_Status ps) as [s|] eqn:Hs; cbn.
    + destruct (err s) as [e|] eqn:He; cbn.
      * apply Forall2_same_length_lookup. split; [done|].
        intros i x y Hx Hy. by simplify_eq.
      * constructor; [|apply IH]. cbn. by rewrite Hs.
    + constructor; [|apply IH]. done.
Qed.

Lemma append_eq_empty (s1 s2 : string) : s1 +:+ s2 = "" → s1 = "" ∧ s2 = "".
Proof. by destruct s1. Qed.

Lemma messageLoop_empty (podSets : list PodSetAssignment) (builder : string) :
  (messageLoop podSets builder).1 = ""
  ↔ builder = "" ∧ Forall (λ ps, psa_Status ps = None) podSets.
Proof.
  revert builder. induction podSets as [|ps podSets IH]; intros builder; cbn.
  - split; [by intros ->|by intros [-> _]].
  - destruct (psa_Status ps) as [s|] eqn:Hs; cbn.
    + destruct (err s) as [e|]; cbn.
      * split; [done|]. intros [_ Hall]. apply Forall_cons in Hall as [Hnone _].
        congruence.
      * rewrite IH. split.
        -- intros [Hb _]. apply append_eq_empty in Hb as [_ Hb].
           by apply append_eq_empty in Hb as [Hb _].
        -- intros [_ Hall]. apply Forall_cons in Hall as [Hnone _]. congruence.
    + rewrite IH. split; intros [Hb Hall]; (split; [done|]).
      * by constructor.
      * by apply Forall_cons in Hall as [_ Hall].
Qed.

Lemma messageLoop_error (pre : list PodSetAssignment) (ps : PodSetAssignment)
    (s : Status) (e : string) (post : list PodSetAssignment) (builder : string) :
  Forall (λ ps', Status_IsError (psa_Status ps') = false) pre →
  psa_Status ps = Some s → err s = Some e →
  (messageLoop (pre ++ ps :: post) builder).1
  = "failed to assign flavors to pod set " +:+ psa_Name ps +:+ ": " +:+ e.
Proof.
  intros Hpre Hs He. revert builder.
  induction Hpre as [|ps' pre Hps' Hpre IH]; intros builder; cbn [app messageLoop].
  - rewrite Hs. cbn beta iota. rewrite He. reflexivity.
  - destruct (psa_Status ps') as [s'|]; cbn beta iota zeta; [|apply IH].
    destruct (err s') as [e'|] eqn:He'; cbn beta iota zeta; [|apply IH].
    cbn in Hps'. rewrite He' in Hps'. by rewrite bool_decide_eq_true_2 in Hps'.
Qed.

Lemma Assignment_Message_empty_iff (a : Assignment) :
  (Assignment_Message a).1 = "" ↔ ∀ ps, ps ∈ asg_PodSets a → psa_Status ps = None.
Proof.
  unfold Assignment_Message. cbn [fst].
  rewrite messageLoop_empty, Forall_forall. split; [by intros [_ ?]|done].
Qed.

(** X11.  The message of an assignment is empty exactly when no pod set
    has a status; the first pod set whose status is an error decides the
    message alone. *)
Theorem Assignment_Message_empty (a : Assignment) :
  ((Assignment_Message a).1 = "" ↔ ∀ ps, ps ∈ asg_PodSets a → psa_Status ps = None)
  ∧ (∀ pre ps s e post,
       asg_PodSets a = pre ++ ps :: post →
       Forall (λ ps', Status_IsError (psa_Status ps') = false) pre →
       psa_Status ps = Some s → err s = Some e →
       (Assignment_Message a).1
       = "failed to assign flavors to pod set " +:+ psa_Name ps +:+ ": " +:+ e).
Proof.
  split; [apply Assignment_Message_empty_iff|].
  unfold Assignment_Message. cbn [fst].
  intros pre ps s e post -> Hpre Hs He. by apply (messageLoop_error pre ps s).
Qed.

End Messages.

(** *** The structure of an assignment *)

Section AssignmentStructure.
Context `{KubeHelpers}.
Import kueue cache workload flavorassigner.

(** The assignments of a flavor never hold the mode [NoFit]. *)
Lemma fitRequests_modes (a : Assignment) (cq : ClusterQueue) (fq : FlavorQuotas)
    (reqs : Requests) (asg0 asg : ResourceAssignment)
    (m0 m : FlavorAssignmentMode) (rs0 rs : list string) :
  fitRequests a cq fq reqs asg0 m0 rs0 = Some (asg, m, rs) →
  (∀ r fa, asg0 !! r = Some fa → fa_Mode fa ≠ NoFit) →
  ∀ r fa, asg !! r = Some fa → fa_Mode fa ≠ NoFit.
Proof.
  revert asg0 m0 rs0. induction reqs as [|[rName val] rest IH];
    intros asg0 m0 rs0 Hrun Hasg0.
  - cbn in Hrun. by simplify_eq.
  - cbn [fitRequests] in Hrun.
    destruct (fq_Resources fq !! rName) as [resQuota|] eqn:Hq; [|done].
    destruct (fitsResourceQuota (fq_Name fq) rName
                (int64.add val (frq_get (usage a) (fq_Name fq) rName)) cq resQuota)
      as [[mode borrow] s] eqn:Hfit.
    destruct (mode_eqb (if mode_ltb mode m0 then mode else m0) NoFit) eqn:Hno.
    + by simplify_eq.
    + eapply IH; [exact Hrun|]. intros r fa.
      destruct (decide (rName = r)) as [<-|Hne].
      * rewrite lookup_insert_eq. intros [= <-]. cbn. by destruct mode, m0.
      * rewrite lookup_insert_ne by done. apply Hasg0.
Qed.

(** The worst mode of a flavor is the mode of one of its assignments. *)
Lemma fitRequests_worst (a : Assignment) (cq : ClusterQueue) (fq : FlavorQuotas)
    (reqs : Requests) (asg0 asg : ResourceAssignment)
    (m0 m : FlavorAssignmentMode) (rs0 rs : list string) :
  NoDup (reqs.*1) →
  (∀ r, r ∈ reqs.*1 → asg0 !! r = None) →
  fitRequests a cq fq reqs asg0 m0 rs0 = Some (asg, m, rs) →
  m ≠ NoFit →
  (m0 = Fit ∨ ∃ r fa, asg0 !! r = Some fa ∧ fa_Mode fa = m0) →
  m = Fit ∨ ∃ r fa, asg !! r = Some fa ∧ fa_Mode fa = m.
Proof.
  revert asg0 m0 rs0. induction reqs as [|[rName val] rest IH];
    intros asg0 m0 rs0 Hnd Hfresh Hrun Hm Hw.
  - cbn in Hrun. by simplify_eq.
  - cbn [fitRequests] in Hrun. cbn in Hnd. apply NoDup_cons in Hnd as [Hnotin Hnd].
    destruct (fq_Resources fq !! rName) as [resQuota|] eqn:Hq; [|done].
    destruct (fitsResourceQuota (fq_Name fq) rName
                (int64.add val (frq_get (usage a) (fq_Name fq) rName)) cq resQuota)
      as [[mode borrow] s] eqn:Hfit.
    destruct (mode_eqb (if mode_ltb mode m0 then mode else m0) NoFit) eqn:Hno.
    + apply mode_eqb_eq in Hno. by simplify_eq.
    + eapply IH; [exact Hnd| |exact Hrun|exact Hm|].
      * intros r Hr. rewrite lookup_insert_ne; [|by intros ->].
        apply Hfresh. cbn. by right.
      * destruct (mode_ltb mode m0) eqn:Hlt.
        -- right. exists rName, (mkFlavorAssignment (fq_Name fq) mode borrow).
           by rewrite lookup_insert_eq.
        -- destruct Hw as [->|(r & fa & Hr & Hfa)]; [by left|].
           right. exists r, fa. split; [|done].
           rewrite lookup_insert_ne; [done|]. intros <-.
           rewrite Hfresh in Hr; [done|]. cbn. by left.
Qed.

Lemma filterRequestedResources_NoDup (requests : Requests) (allowList : gset string) :
  NoDup (requests.*1) → NoDup ((filterRequestedResources requests allowList).*1).
Proof.
  unfold filterRequestedResources. induction requests as [|[r v] requests IH]; cbn; [done|].
  intros [Hnotin Hnd]%NoDup_cons. case_bool_decide; cbn; [|by apply IH].
  apply NoDup_cons. split; [|by apply IH].
  intros Hin. apply Hnotin. apply list_elem_of_fmap in Hin as ([r' v'] & -> & Hin).
  apply list_elem_of_In, filter_In in Hin as [Hin _].
  apply list_elem_of_fmap. exists (r', v'). by rewrite list_elem_of_In.
Qed.

(** What an evaluated flavor tells: it passed the gates, its assignments
    carry its name and a mode other than [NoFit], and a [Preempt] flavor
    has an assignment of mode [Preempt]. *)
Lemma groupOutcome_Evaluated (a : Assignment)
    (resourceFlavors : gmap string ResourceFlavor) (cq : ClusterQueue)
    (spec : PodSpec) (rg : ResourceGroup) (requests : Requests) (fq : FlavorQuotas)
    (asg : ResourceAssignment) (m : FlavorAssignmentMode) (rs : list string) :
  groupOutcome a resourceFlavors cq spec rg requests fq = Evaluated asg m rs →
  passesGates resourceFlavors spec rg (fq_Name fq)
  ∧ (∀ r fa, asg !! r = Some fa →
       fa_Name fa = fq_Name fq ∧ fa_Mode fa ≠ NoFit
       ∧ r ∈ CoveredResources rg ∧ ∃ v, (r, v) ∈ requests)
  ∧ (m ≠ NoFit →
     ∀ r v, (r, v) ∈ requests → r ∈ CoveredResources rg → is_Some (asg !! r))
  ∧ (m = Fit → allFit asg)
  ∧ (NoDup (requests.*1) → m = Preempt → hasPreempt asg).
Proof.
  unfold groupOutcome. intros Htry.
  destruct (tryFlavor_Evaluated _ _ _ _ _ _ _ _ _ _ Htry) as (Hprod & Hfit & Hall).
  unfold tryFlavor in Htry.
  destruct (resourceFlavors !! fq_Name fq) as [flavor|] eqn:Hflavor; [|done].
  destruct (FindMatchingUntoleratedTaint _ _ _) eqn:Htaint; [done|].
  destruct (SelectorMatch _ (NodeLabels flavor)) as [match_ e] eqn:Hsel.
  destruct (negb match_ || bool_decide (is_Some e)) eqn:Hgate; [by destruct e|].
  destruct (fitRequests a cq fq _ ∅ Fit []) as [[[asg' m'] rs']|] eqn:Hrun; [|done].
  injection Htry as -> -> ->.
  apply orb_false_iff in Hgate as [Hmatch He].
  apply negb_false_iff in Hmatch as ->.
  apply bool_decide_eq_false in He.
  assert (e = None) as -> by (destruct e; [exfalso; by apply He | done]).
  split_and!.
  - exists flavor. split_and!; [done| |done].
    by apply FindMatchingUntoleratedTaint_None.
  - intros r fa Hr. destruct (Hprod r fa Hr) as (Hname & v & q & Hin & _).
    apply elem_of_filterRequestedResources in Hin as [Hin Hcov].
    split_and!; [done| |done|by exists v].
    eapply fitRequests_modes; [exact Hrun| |exact Hr].
    intros r' fa'. by rewrite lookup_empty.
  - intros Hm r v Hin Hcov. apply (Hall Hm r v).
    by apply elem_of_filterRequestedResources.
  - done.
  - intros Hnd ->.
    destruct (fitRequests_worst _ _ _ _ _ _ _ _ _ _
                (filterRequestedResources_NoDup _ (CoveredResources rg) Hnd)
                ltac:(intros; apply lookup_empty) Hrun ltac:(done) ltac:(by left))
      as [?|Hex]; [done|exact Hex].
Qed.

(** A status that the loop over the flavors returns comes with the best
    assignment it started from, with no assignment, or with the assignments
    of a flavor that reached [Preempt]. *)
Lemma findFlavorLoop_status (a : Assignment)
    (resourceFlavors : gmap string ResourceFlavor) (cq : ClusterQueue)
    (spec selector : PodSpec) (reqs : Requests) (flavors : list FlavorQuotas)
    (status : Status) (best : ResourceAssignment) (bestMode : FlavorAssignmentMode)
    (res : ResourceAssignment) (s : Status) :
  findFlavorLoop a resourceFlavors cq spec selector reqs flavors status best bestMode
  = Some (res, Some s) →
  res = best ∨ res = ∅
  ∨ ∃ fq rs, fq ∈ flavors
      ∧ tryFlavor a resourceFlavors cq spec selector reqs fq = Evaluated res Preempt rs.
Proof.
  revert status best bestMode.
  induction flavors as [|fq rest IH]; intros status best bestMode Hrun.
  - cbn in Hrun. simplify_eq. by left.
  - cbn [findFlavorLoop] in Hrun.
    assert (Hlift : ∀ status' best' bestMode',
      (best' = best
       ∨ ∃ rs, tryFlavor a resourceFlavors cq spec selector reqs fq
               = Evaluated best' Preempt rs) →
      findFlavorLoop a resourceFlavors cq spec selector reqs rest status' best' bestMode'
      = Some (res, Some s) →
      res = best ∨ res = ∅
      ∨ ∃ fq' rs, fq' ∈ fq :: rest
          ∧ tryFlavor a resourceFlavors cq spec selector reqs fq' = Evaluated res Preempt rs).
    { intros status' best' bestMode' Hfrom Hrun'.
      apply IH in Hrun' as [->|[->|(fq' & rs & Hin & Htry)]].
      - destruct Hfrom as [->|(rs & Htry)]; [by left|].
        right. right. exists fq, rs. split; [by left | done].
      - right. by left.
      - right. right. exists fq', rs. split; [by right | done]. }
    destruct (tryFlavor a resourceFlavors cq spec selector reqs fq)
      as [reason|e| |asg m rs] eqn:Htry.
    + refine (Hlift _ _ _ _ Hrun). by left.
    + simplify_eq. right. by left.
    + done.
    + destruct (mode_ltb bestMode m) eqn:Hlt.
      * destruct (mode_eqb m Fit) eqn:Hm; [done|].
        assert (m = Preempt) as -> by (by destruct bestMode, m).
        refine (Hlift _ _ _ _ Hrun). right. by exists rs.
      * refine (Hlift _ _ _ _ Hrun). by left.
Qed.

(** The flavors that a resource group yields are the assignments of one of
    its flavors, evaluated to [Fit] when there is no status and to
    [Preempt] when there is one. *)
Lemma findFlavorForResourceGroup_outcome (a : Assignment) (rg : ResourceGroup)
    (requests : Requests) (resourceFlavors : gmap string ResourceFlavor)
    (cq : ClusterQueue) (spec : PodSpec) (res : ResourceAssignment)
    (st : option Status) :
  findFlavorForResourceGroup a rg requests resourceFlavors cq spec = Some (res, st) →
  res ≠ ∅ →
  ∃ fq m rs,
    fq ∈ Flavors rg
    ∧ groupOutcome a resourceFlavors cq spec rg requests fq = Evaluated res m rs
    ∧ m = match st with Some _ => Preempt | None => Fit end.
Proof.
  unfold findFlavorForResourceGroup, groupOutcome. intros Hrun Hne.
  destruct st as [s|].
  - apply findFlavorLoop_status in Hrun as [->|[->|(fq & rs & Hin & Htry)]]; [done..|].
    by exists fq, Preempt, rs.
  - apply findFlavorLoop_inv in Hrun as (_ & Hnone & _).
    destruct (Hnone eq_refl) as (fq & rs & Hin & Htry). by exists fq, Fit, rs.
Qed.

(** Without a pod spec the loop over the requested resources assigns
    nothing. *)
Lemma assignResources_no_spec (a : Assignment)
    (resourceFlavors : gmap string ResourceFlavor) (cq : ClusterQueue)
    (requests todo : Requests) (psa psa' : PodSetAssignment) :
  assignResources a resourceFlavors cq None requests todo psa = Some psa' →
  psa_Flavors psa' = ∅ ∨ psa_Flavors psa' = psa_Flavors psa.
Proof.
  revert psa. induction todo as [|[resName val] rest IH]; intros psa Hrun.
  - cbn in Hrun. simplify_eq. by right.
  - cbn [assignResources] in Hrun. case_bool_decide; [by apply IH|].
    destruct (RGByResource cq !! resName); [done|]. simplify_eq. by left.
Qed.

(** The loop over the requested resources of a pod set keeps the flavors
    of the pod set grouped: every flavor belongs to the evaluation of one
    flavor of its resource group, all of whose assignments the pod set
    holds; and a status comes with a flavor of mode [Preempt] unless the
    loop broke. *)
Lemma assignResources_groups (a : Assignment)
    (resourceFlavors : gmap string ResourceFlavor) (cq : ClusterQueue)
    (spec : PodSpec) (requests todo : Requests) (psa psa' : PodSetAssignment) :
  indexConsistent cq →
  (∀ rv, rv ∈ todo → rv ∈ requests) →
  assignResources a resourceFlavors cq (Some spec) requests todo psa = Some psa' →
  (∀ r fa, psa_Flavors psa !! r = Some fa →
     assignedByGroup a resourceFlavors cq spec requests (psa_Flavors psa) r fa) →
  (is_Some (psa_Status psa) → NoDup (requests.*1) → hasPreempt (psa_Flavors psa)) →
  (∀ r fa, psa_Flavors psa' !! r = Some fa →
     assignedByGroup a resourceFlavors cq spec requests (psa_Flavors psa') r fa)
  ∧ (is_Some (psa_Status psa') → NoDup (requests.*1) → psa_Flavors psa' ≠ ∅ →
     hasPreempt (psa_Flavors psa')).
Proof.
  intros Hidx. revert psa.
  induction todo as [|[resName val] rest IH]; intros psa Hsub Hrun Hgroups Hstatus.
  - cbn in Hrun. simplify_eq. split; [done|]. intros Hs Hnd _. by apply Hstatus.
  - cbn [assignResources] in Hrun.
    assert (Hsub' : ∀ rv, rv ∈ rest → rv ∈ requests).
    { intros rv Hrv. apply Hsub. by right. }
    case_bool_decide as Hassigned; [by apply (IH psa)|].
    destruct (RGByResource cq !! resName) as [rg|] eqn:Hrg.
    2:{ simplify_eq. cbn. split; [by intros r fa; rewrite lookup_empty | done]. }
    destruct (findFlavorForResourceGroup a rg requests resourceFlavors cq spec)
      as [[flavors status]|] eqn:Hfind; [|done].
    destruct (Status_IsError status || bool_decide (size flavors = 0%nat)) eqn:Hbreak.
    { simplify_eq. cbn. split; [by intros r fa; rewrite lookup_empty | done]. }
    apply orb_false_iff in Hbreak as [Hnoerr Hsize].
    apply bool_decide_eq_false in Hsize.
    assert (Hne : flavors ≠ ∅).
    { intros ->. by rewrite map_size_empty in Hsize. }
    destruct (findFlavorForResourceGroup_outcome _ _ _ _ _ _ _ _ Hfind Hne)
      as (fq & m & rs & Hfq & Hout & Hm).
    destruct (groupOutcome_Evaluated _ _ _ _ _ _ _ _ _ _ Hout)
      as (_ & Hentries & Hall & _ & Hpre).
    assert (Hm0 : m ≠ NoFit) by (subst m; by destruct status).
    assert (Hreq : (resName, val) ∈ requests) by (apply Hsub; by left).
    assert (Hcov : resName ∈ CoveredResources rg) by (by eapply indexConsistent_covers).
    assert (Hdisj : flavors ##ₘ psa_Flavors psa).
    { apply map_disjoint_spec. intros k x y Hx Hy.
      destruct (Hentries k x Hx) as (_ & _ & Hk & _).
      destruct (Hgroups k y Hy) as (rg' & fq' & res' & m' & rs' & Hrg' & _ & Hout' & Hm'
                                    & Hres' & _).
      assert (rg' = rg) as ->.
      { pose proof (indexConsistent_indexed _ _ _ _ Hidx Hrg Hk). congruence. }
      destruct (groupOutcome_Evaluated _ _ _ _ _ _ _ _ _ _ Hout') as (_ & _ & Hall' & _).
      destruct (Hall' Hm' resName val Hreq Hcov) as [fa' Hfa'].
      apply Hassigned. exists fa'. by eapply lookup_weaken. }
    apply (IH _ Hsub' Hrun); cbn [PodSetAssignment_append psa_Flavors psa_Status].
    + intros r fa [Hnew|Hold]%lookup_union_Some; [| |done].
      * destruct (Hentries r fa Hnew) as (_ & _ & Hr & _).
        exists rg, fq, flavors, m, rs. split_and!; try done.
        -- by eapply indexConsistent_indexed.
        -- apply map_union_subseteq_l.
      * destruct (Hgroups r fa Hold) as (rg' & fq' & res' & m' & rs' & ? & ? & ? & ?
                                         & Hres' & ?).
        exists rg', fq', res', m', rs'. split_and!; try done.
        etrans; [exact Hres'|]. by apply map_union_subseteq_r.
    + intros Hsome Hnd.
      assert (Hin : hasPreempt flavors ∨ hasPreempt (psa_Flavors psa)).
      { destruct (psa_Status psa) as [s|] eqn:Hs.
        - right. by apply Hstatus.
        - left. apply Hpre; [done|]. subst m. by destruct status. }
      destruct Hin as [(r & fa & Hr & Hfa)|(r & fa & Hr & Hfa)]; exists r, fa;
        (split; [|done]).
      * eapply lookup_weaken; [exact Hr|]. apply map_union_subseteq_l.
      * eapply lookup_weaken; [exact Hr|]. by apply map_union_subseteq_r.
Qed.

Lemma worstFlavorMode_NoFit (flavors : ResourceAssignment) :
  worstFlavorMode flavors = NoFit →
  ∃ r fa, flavors !! r = Some fa ∧ fa_Mode fa = NoFit.
Proof.
  intros Hworst. destruct (worstFlavorMode_isMinimum flavors) as (_ & Hnil & Hin).
  rewrite Hworst in Hnil, Hin.
  destruct (flavorModes flavors) as [|m ms] eqn:Hms; [by specialize (Hnil eq_refl)|].
  specialize (Hin ltac:(done)). rewrite <- Hms in Hin. unfold flavorModes in Hin.
  apply list_elem_of_fmap in Hin as ([r fa] & Hmode & Hin).
  apply elem_of_map_to_list in Hin. by exists r, fa.
Qed.

(** What the loop of [AssignFlavors] leaves for one pod set. *)
Lemma podSetRun_facts (podSets : list PodSet)
    (resourceFlavors : gmap string ResourceFlavor) (cq : ClusterQueue) (i : nat)
    (podSet : PodSetResources) (a0 : Assignment) (requests : Requests)
    (ps : PodSetAssignment) :
  indexConsistent cq →
  podSetRun podSets resourceFlavors cq i podSet a0 requests ps →
  psa_Name ps = psr_Name podSet
  ∧ psa_Requests ps = ToResourceList requests
  ∧ (∀ r fa, psa_Flavors ps !! r = Some fa →
       ∃ p, podSets !! i = Some p
            ∧ assignedByGroup a0 resourceFlavors cq (ps_TemplateSpec p) requests
                (psa_Flavors ps) r fa)
  ∧ (podSetFailed ps = true →
       psa_Flavors ps = ∅ ∧ is_Some (psa_Status ps) ∧ requests ≠ []
       ∧ PodSetAssignment_RepresentativeMode ps = NoFit)
  ∧ (podSetFailed ps = false →
       (∀ r, is_Some (psa_Flavors ps !! r) ↔ r ∈ requests.*1)
       ∧ Status_IsError (psa_Status ps) = false
       ∧ PodSetAssignment_RepresentativeMode ps ≠ NoFit)
  ∧ (NoDup (requests.*1) →
     psa_Status ps = None ↔ PodSetAssignment_RepresentativeMode ps = Fit).
Proof.
  intros Hidx [Hreqs Hrun].
  destruct (assignResources_inv _ _ _ _ _ _ _ _ Hidx ltac:(done) Hrun)
    as (Hname & Hrl & Hchk & _ & Herr & Hcases).
  cbn [psa_Name psa_Requests psa_Flavors psa_Status] in *.
  specialize (Hchk ltac:(by intros r fa; rewrite lookup_empty)).
  specialize (Herr eq_refl).
  assert (Hgroups :
    (∀ r fa, psa_Flavors ps !! r = Some fa →
       ∃ p, podSets !! i = Some p
            ∧ assignedByGroup a0 resourceFlavors cq (ps_TemplateSpec p) requests
                (psa_Flavors ps) r fa)
    ∧ (is_Some (psa_Status ps) → NoDup (requests.*1) → psa_Flavors ps ≠ ∅ →
       hasPreempt (psa_Flavors ps))).
  { destruct (podSets !! i) as [p|] eqn:Hp; cbn in Hrun.
    - destruct (assignResources_groups _ _ _ _ _ _ _ _ Hidx ltac:(done) Hrun) as [Hg Hs].
      + intros r fa. cbn. by rewrite lookup_empty.
      + cbn. by intros [? ?].
      + split; [|done]. intros r fa Hr. exists p. split; [done|by apply Hg].
    - apply assignResources_no_spec in Hrun as [Hempty|Hempty];
        cbn in Hempty; rewrite Hempty; split; try done;
        by intros r fa; rewrite lookup_empty. }
  destruct Hgroups as [Hgroups Hpreempt].
  assert (Hlen : length (psa_Requests ps) = length requests).
  { rewrite Hrl. unfold ToResourceList. by rewrite length_fmap. }
  assert (Hnil : requests = [] → psa_Status ps = None ∧ psa_Flavors ps = ∅).
  { intros ->. cbn in Hrun. by simplify_eq. }
  assert (Hmodes : ∀ r fa, psa_Flavors ps !! r = Some fa → fa_Mode fa ≠ NoFit).
  { intros r fa Hr. destruct (Hgroups r fa Hr) as (p & _ & Hg).
    destruct Hg as (rg & fq & res & m & rs & _ & _ & Hout & _ & _ & Hres).
    destruct (groupOutcome_Evaluated _ _ _ _ _ _ _ _ _ _ Hout) as (_ & Hentries & _).
    by destruct (Hentries r fa Hres) as (_ & ? & _). }
  split; [done|]. split; [done|]. split; [done|].
  unfold podSetFailed. rewrite Hlen. split_and!.
  - intros Hfailed.
    assert (Hne : requests ≠ []).
    { intros Hreq. destruct (Hnil Hreq) as [Hs Hf]. subst requests.
      rewrite Hs in Hfailed. by cbn in Hfailed. }
    assert (Hempty : psa_Flavors ps = ∅ ∧ is_Some (psa_Status ps)).
    { apply orb_true_iff in Hfailed as [Hfailed|Hfailed].
      - split; [by apply Herr|]. by destruct (psa_Status ps).
      - apply andb_true_iff in Hfailed as [_ Hsize].
        apply bool_decide_eq_true, map_size_empty_iff in Hsize.
        destruct Hcases as [?|[Hall _]]; [done|]. exfalso.
        destruct requests as [|rv requests]; [done|].
        destruct (Hall rv ltac:(by left)) as [fa Hfa].
        by rewrite Hsize, lookup_empty in Hfa. }
    destruct Hempty as [Hempty Hsome]. split_and!; try done.
    by apply PodSetAssignment_mode_broke.
  - intros Hok. apply orb_false_iff in Hok as [Hnoerr Hok].
    assert (Hall : ∀ rv, rv ∈ requests → is_Some (psa_Flavors ps !! rv.1)).
    { destruct Hcases as [[Hempty Hsome]|[Hall _]]; [|done].
      destruct requests as [|rv requests].
      - destruct (Hnil eq_refl) as [Hs _]. rewrite Hs in Hsome. by destruct Hsome.
      - rewrite Hempty, map_size_empty in Hok. cbn in Hok.
        by rewrite bool_decide_eq_true_2 in Hok. }
    clear Hok.
    split_and!; [|done|].
    + intros r. split.
      * intros [fa Hfa]. destruct (checked_covered _ _ _ _ _ Hidx (Hchk r fa Hfa))
          as [_ [v Hv]]. apply list_elem_of_fmap. by exists (r, v).
      * intros ([r' v] & -> & Hin)%list_elem_of_fmap. by apply (Hall (r', v)).
    + unfold PodSetAssignment_RepresentativeMode.
      destruct (psa_Status ps) as [s|] eqn:Hs; [|done].
      case_bool_decide as Hsize.
      * exfalso. apply map_size_empty_iff in Hsize.
        destruct requests as [|rv requests].
        -- by destruct (Hnil eq_refl).
        -- destruct (Hall rv ltac:(by left)) as [fa Hfa].
           by rewrite Hsize, lookup_empty in Hfa.
      * intros (r & fa & Hr & Hfa)%worstFlavorMode_NoFit. by eapply Hmodes.
  - intros Hnd. unfold PodSetAssignment_RepresentativeMode.
    destruct (psa_Status ps) as [s|] eqn:Hs; [|done].
    split; [done|]. case_bool_decide as Hsize; [done|].
    intros Hfit%worstFlavorMode_Fit.
    destruct Hpreempt as (r & fa & Hr & Hfa); [done|done| |].
    + intros Hempty. by rewrite Hempty, map_size_empty in Hsize.
    + specialize (Hfit r fa Hr). congruence.
Qed.

(** The pod sets that the loop of [AssignFlavors] adds: each is what the
    loop computes for the pod set at its index; the loop stops at the
    first pod set that fails, and then the assignment borrows nothing. *)
Lemma assignPodSets_runs (podSets : list PodSet)
    (resourceFlavors : gmap string ResourceFlavor) (cq : ClusterQueue) (i : nat)
    (todo : list PodSetResources) (a a' : Assignment) :
  indexConsistent cq →
  assignPodSets podSets resourceFlavors cq i todo a = Some a' →
  ∃ new,
    asg_PodSets a' = asg_PodSets a ++ new
    ∧ (∀ k ps, new !! k = Some ps →
         ∃ podSet a0 requests,
           todo !! k = Some podSet
           ∧ podSetRun podSets resourceFlavors cq (i + k) podSet a0 requests ps)
    ∧ ((∃ pre ps, new = pre ++ [ps]
                  ∧ Forall (λ p, podSetFailed p = false) pre
                  ∧ podSetFailed ps = true
                  ∧ TotalBorrow a' = ∅)
       ∨ (length new = length todo ∧ Forall (λ p, podSetFailed p = false) new)).
Proof.
  intros Hidx. revert i a.
  induction todo as [|podSet rest IH]; intros i a Hrun.
  - cbn in Hrun. simplify_eq. exists []. rewrite app_nil_r. split; [done|].
    split; [by intros k ps ?|]. right. by split.
  - apply assignPodSets_step in Hrun as (requests & psa & Hreq & Hres & Hnext).
    cbn zeta in Hnext.
    destruct (Assignment_append_PodSets a requests psa) as [Hpods _].
    assert (Hrun0 : podSetRun podSets resourceFlavors cq (i + 0) podSet a requests psa).
    { rewrite Nat.add_0_r. by split. }
    destruct (podSetRun_facts _ _ _ _ _ _ _ _ Hidx Hrun0) as (_ & Hrl & _).
    assert (Hfailed : podSetFailed psa
                      = Status_IsError (psa_Status psa)
                        || (bool_decide (length requests ≠ 0%nat)
                            && bool_decide (size (psa_Flavors psa) = 0%nat))).
    { unfold podSetFailed. rewrite Hrl. unfold ToResourceList. by rewrite length_fmap. }
    rewrite <- Hfailed in Hnext.
    destruct (podSetFailed psa) eqn:Hf.
    + subst a'. cbn [asg_PodSets TotalBorrow]. exists [psa]. split; [done|]. split.
      * intros [|k] ps Hk; [|done]. cbn in Hk. simplify_eq.
        by exists podSet, a, requests.
      * left. exists [], psa. by split_and!.
    + destruct (IH _ _ Hnext) as (new & Hnew & Heach & Hend).
      exists (psa :: new). split; [|split].
      * rewrite Hnew, Hpods. by rewrite <- app_assoc.
      * intros [|k] ps Hk; cbn in Hk.
        -- simplify_eq. by exists podSet, a, requests.
        -- destruct (Heach k ps Hk) as (podSet' & a0 & requests' & Hk' & Hrun').
           exists podSet', a0, requests'. split; [done|].
           by replace (i + S k)%nat with (S i + k)%nat by lia.
      * destruct Hend as [(pre & ps & -> & Hpre & Hps & Hborrow)|[Hlen Hall]].
        -- left. exists (psa :: pre), ps. split_and!; try done. by constructor.
        -- right. split; [cbn; by rewrite Hlen | by constructor].
Qed.

Lemma AssignFlavors_runs (wl : Info)
    (resourceFlavors : gmap string ResourceFlavor) (cq : ClusterQueue)
    (a : Assignment) :
  indexConsistent cq →
  AssignFlavors wl resourceFlavors cq = Some a →
  (∀ k ps, asg_PodSets a !! k = Some ps →
     ∃ podSet a0 requests,
       TotalRequests wl !! k = Some podSet
       ∧ podSetRun (PodSets (Spec (Obj wl))) resourceFlavors cq k podSet a0 requests ps)
  ∧ ((∃ pre ps, asg_PodSets a = pre ++ [ps]
                ∧ Forall (λ p, podSetFailed p = false) pre
                ∧ podSetFailed ps = true
                ∧ TotalBorrow a = ∅)
     ∨ (length (asg_PodSets a) = length (TotalRequests wl)
        ∧ Forall (λ p, podSetFailed p = false) (asg_PodSets a)))
  ∧ (Assignment_RepresentativeMode a).1
    = (if bool_decide (length (asg_PodSets a) = 0%nat) then NoFit
       else worstPodSetMode (asg_PodSets a))
  ∧ (asg_PodSets a = [] → TotalBorrow a = ∅).
Proof.
  intros Hidx Hrun. unfold AssignFlavors in Hrun.
  destruct (assignPodSets_new _ _ _ _ _ _ _ Hidx Hrun) as (new' & _ & Hrep & _).
  destruct (assignPodSets_runs _ _ _ _ _ _ _ Hidx Hrun) as (new & Hnew & Heach & Hend).
  cbn in Hnew, Hrep. subst new. split_and!; [done|done| |].
  - unfold Assignment_RepresentativeMode. rewrite Hrep. by case_bool_decide.
  - intros Hempty. destruct Hend as [(pre & ps & Heq & _)|[Hlen _]].
    + rewrite Hempty in Heq. by destruct pre.
    + rewrite Hempty in Hlen. destruct (TotalRequests wl); [|done].
      cbn in Hrun. by simplify_eq.
Qed.

(** X12.  [AssignFlavors] never assigns a flavor that did not pass the
    gates: every flavor of every pod set of the result is a flavor of the
    resource group of its resource, is in the catalogue, has no
    [NoSchedule] or [NoExecute] taint that the pod set does not tolerate,
    and has labels that the selector of the group matches; and its mode is
    [Preempt] or [Fit], never [NoFit]. *)
Theorem assigned_flavor_passed_the_gates (wl : Info)
    (resourceFlavors : gmap string ResourceFlavor) (cq : ClusterQueue)
    (a : Assignment) (i : nat) (ps : PodSetAssignment) (r : string)
    (fa : FlavorAssignment) :
  indexConsistent cq →
  AssignFlavors wl resourceFlavors cq = Some a →
  asg_PodSets a !! i = Some ps →
  psa_Flavors ps !! r = Some fa →
  ∃ podSet rg flvQuotas,
    PodSets (Spec (Obj wl)) !! i = Some podSet
    ∧ RGByResource cq !! r = Some rg
    ∧ flvQuotas ∈ Flavors rg
    ∧ fq_Name flvQuotas = fa_Name fa
    ∧ passesGates resourceFlavors (ps_TemplateSpec podSet) rg (fa_Name fa)
    ∧ fa_Mode fa ≠ NoFit.
Proof.
  intros Hidx Hrun Hps Hfa.
  destruct (AssignFlavors_runs _ _ _ _ Hidx Hrun) as (Heach & _).
  destruct (Heach i ps Hps) as (podSet & a0 & requests & _ & Hps').
  destruct (podSetRun_facts _ _ _ _ _ _ _ _ Hidx Hps') as (_ & _ & Hgroups & _).
  destruct (Hgroups r fa Hfa) as (p & Hp & rg & fq & res & m & rs & Hrg & Hfq & Hout & _
                                  & _ & Hres).
  destruct (groupOutcome_Evaluated _ _ _ _ _ _ _ _ _ _ Hout) as (Hgates & Hentries & _).
  destruct (Hentries r fa Hres) as (Hname & Hmode & _).
  exists p, rg, fq. rewrite Hname. by split_and!.
Qed.

(** X13.  Within a pod set, the resources of one resource group get one
    flavor: two assigned resources that the cluster queue indexes to the
    same group carry the same flavor name. *)
Theorem resource_group_gets_one_flavor (wl : Info)
    (resourceFlavors : gmap string ResourceFlavor) (cq : ClusterQueue)
    (a : Assignment) (i : nat) (ps : PodSetAssignment) (r1 r2 : string)
    (fa1 fa2 : FlavorAssignment) :
  indexConsistent cq →
  AssignFlavors wl resourceFlavors cq = Some a →
  asg_PodSets a !! i = Some ps →
  psa_Flavors ps !! r1 = Some fa1 →
  psa_Flavors ps !! r2 = Some fa2 →
  RGByResource cq !! r1 = RGByResource cq !! r2 →
  fa_Name fa1 = fa_Name fa2.
Proof.
  intros Hidx Hrun Hps Hfa1 Hfa2 Hsame.
  destruct (AssignFlavors_runs _ _ _ _ Hidx Hrun) as (Heach & _).
  destruct (Heach i ps Hps) as (podSet & a0 & requests & _ & Hps').
  destruct (podSetRun_facts _ _ _ _ _ _ _ _ Hidx Hps') as (_ & _ & Hgroups & _).
  destruct (Hgroups r1 fa1 Hfa1) as (p & Hp & rg & fq & res & m & rs & Hrg & _ & Hout & Hm
                                     & Hsub & Hres).
  destruct (Hgroups r2 fa2 Hfa2) as (p' & Hp' & rg' & fq' & res' & m' & rs' & Hrg' & _
                                     & Hout' & _ & _ & Hres').
  assert (p' = p) as -> by congruence.
  assert (rg' = rg) as -> by congruence.
  destruct (groupOutcome_Evaluated _ _ _ _ _ _ _ _ _ _ Hout) as (_ & Hentries & Hall & _).
  destruct (groupOutcome_Evaluated _ _ _ _ _ _ _ _ _ _ Hout') as (_ & Hentries' & _).
  destruct (Hentries r1 fa1 Hres) as (Hname1 & _).
  destruct (Hentries' r2 fa2 Hres') as (_ & _ & Hcov & v & Hv).
  destruct (Hall Hm r2 v Hv Hcov) as [fa Hfa].
  assert (fa = fa2) as ->.
  { pose proof (lookup_weaken _ _ _ _ Hfa Hsub). congruence. }
  destruct (Hentries r2 fa2 Hfa) as (Hname2 & _). congruence.
Qed.

Lemma ToResourceList_keys (requests : Requests) :
  (ToResourceList requests).*1 = requests.*1.
Proof. unfold ToResourceList. rewrite <- list_fmap_compose. by apply list_fmap_ext. Qed.

(** X14.  A pod set of the result is assigned all or nothing: either it
    has no flavors, a status and mode [NoFit] (and it had requests), or it
    has a flavor for exactly the resources it requests (the [pods] request
    included), no error, and a mode other than [NoFit]. *)
Theorem pod_set_is_assigned_all_or_nothing (wl : Info)
    (resourceFlavors : gmap string ResourceFlavor) (cq : ClusterQueue)
    (a : Assignment) (i : nat) (ps : PodSetAssignment) :
  indexConsistent cq →
  AssignFlavors wl resourceFlavors cq = Some a →
  asg_PodSets a !! i = Some ps →
  (psa_Flavors ps = ∅ ∧ is_Some (psa_Status ps) ∧ psa_Requests ps ≠ []
   ∧ PodSetAssignment_RepresentativeMode ps = NoFit)
  ∨ ((∀ r, is_Some (psa_Flavors ps !! r) ↔ r ∈ (psa_Requests ps).*1)
     ∧ Status_IsError (psa_Status ps) = false
     ∧ PodSetAssignment_RepresentativeMode ps ≠ NoFit).
Proof.
  intros Hidx Hrun Hps.
  destruct (AssignFlavors_runs _ _ _ _ Hidx Hrun) as (Heach & _).
  destruct (Heach i ps Hps) as (podSet & a0 & requests & _ & Hps').
  destruct (podSetRun_facts _ _ _ _ _ _ _ _ Hidx Hps')
    as (_ & Hrl & _ & Hfailed & Hok & _).
  rewrite Hrl, ToResourceList_keys.
  destruct (podSetFailed ps).
  - left. destruct (Hfailed eq_refl) as (? & ? & Hne & ?). split_and!; try done.
    by destruct requests.
  - right. by apply Hok.
Qed.

(** X15.  [AssignFlavors] stops at the first pod set that fails: the pod
    sets of the result are those of the workload, in order and by name, up
    to the first whose mode is [NoFit]; only the last pod set of the result
    can have mode [NoFit], and the result covers the whole workload when
    its last pod set has another mode. *)
Theorem assignment_stops_at_first_failure (wl : Info)
    (resourceFlavors : gmap string ResourceFlavor) (cq : ClusterQueue)
    (a : Assignment) :
  indexConsistent cq →
  AssignFlavors wl resourceFlavors cq = Some a →
  (length (asg_PodSets a) <= length (TotalRequests wl))%nat
  ∧ (∀ i ps, asg_PodSets a !! i = Some ps →
       ∃ podSet, TotalRequests wl !! i = Some podSet ∧ psa_Name ps = psr_Name podSet)
  ∧ (∀ i ps, asg_PodSets a !! i = Some ps →
       PodSetAssignment_RepresentativeMode ps = NoFit →
       length (asg_PodSets a) = S i)
  ∧ ((∀ ps, ps ∈ asg_PodSets a → PodSetAssignment_RepresentativeMode ps ≠ NoFit) →
     length (asg_PodSets a) = length (TotalRequests wl)).
Proof.
  intros Hidx Hrun.
  destruct (AssignFlavors_runs _ _ _ _ Hidx Hrun) as (Heach & Hend & _).
  assert (Hmode : ∀ i ps, asg_PodSets a !! i = Some ps →
            if podSetFailed ps then PodSetAssignment_RepresentativeMode ps = NoFit
            else PodSetAssignment_RepresentativeMode ps ≠ NoFit).
  { intros i ps Hps. destruct (Heach i ps Hps) as (podSet & a0 & requests & _ & Hps').
    destruct (podSetRun_facts _ _ _ _ _ _ _ _ Hidx Hps') as (_ & _ & _ & Hfailed & Hok & _).
    destruct (podSetFailed ps); [by apply Hfailed | by apply Hok]. }
  split_and!.
  - destruct (decide (length (asg_PodSets a) ≤ length (TotalRequests wl))%nat)
      as [|Hgt]; [done|]. exfalso.
    destruct (lookup_lt_is_Some_2 (asg_PodSets a) (length (TotalRequests wl)))
      as [ps Hps]; [lia|].
    destruct (Heach _ ps Hps) as (podSet & _ & _ & Hk & _).
    apply lookup_lt_Some in Hk. lia.
  - intros i ps Hps. destruct (Heach i ps Hps) as (podSet & a0 & requests & Hk & Hps').
    destruct (podSetRun_facts _ _ _ _ _ _ _ _ Hidx Hps') as (Hname & _).
    by exists podSet.
  - intros i ps Hps Hno. specialize (Hmode i ps Hps).
    destruct (podSetFailed ps) eqn:Hf; [|done].
    destruct Hend as [(pre & ps' & Heq & Hpre & _)|[_ Hall]].
    + rewrite Heq in Hps |- *. rewrite length_app. cbn.
      destruct (decide (i < length pre)%nat) as [Hlt|Hge].
      * rewrite lookup_app_l in Hps by done.
        rewrite Forall_forall in Hpre.
        rewrite (Hpre ps) in Hf; [done|]. by eapply list_elem_of_lookup_2.
      * apply lookup_lt_Some in Hps. rewrite length_app in Hps. cbn in Hps. lia.
    + rewrite Forall_forall in Hall.
      rewrite (Hall ps) in Hf; [done|]. by eapply list_elem_of_lookup_2.
  - intros Hall. destruct Hend as [(pre & ps & Heq & _ & Hf & _)|[Hlen _]]; [|done].
    exfalso. assert (Hps : asg_PodSets a !! length pre = Some ps).
    { rewrite Heq. by apply list_lookup_middle. }
    specialize (Hmode _ _ Hps). rewrite Hf in Hmode.
    apply (Hall ps); [|done]. by eapply list_elem_of_lookup_2.
Qed.

(** X16.  An assignment whose representative mode is [NoFit] borrows
    nothing: [TotalBorrow] is empty and [Borrows] is false, whatever the
    pod sets before the failing one would have borrowed. *)
Theorem NoFit_assignment_borrows_nothing (wl : Info)
    (resourceFlavors : gmap string ResourceFlavor) (cq : ClusterQueue)
    (a : Assignment) :
  indexConsistent cq →
  AssignFlavors wl resourceFlavors cq = Some a →
  (Assignment_RepresentativeMode a).1 = NoFit →
  TotalBorrow a = ∅ ∧ Borrows a = false.
Proof.
  intros Hidx Hrun Hno.
  destruct (AssignFlavors_runs _ _ _ _ Hidx Hrun) as (Heach & Hend & Hmode & Hempty).
  assert (Hborrow : TotalBorrow a = ∅).
  { rewrite Hmode in Hno. case_bool_decide as Hlen.
    { apply Hempty. by apply nil_length_inv. }
    destruct Hend as [(pre & ps & _ & _ & _ & Hb)|[_ Hall]]; [done|]. exfalso.
    destruct (worstPodSetMode_isMinimum (asg_PodSets a)) as (_ & _ & Hin).
    rewrite Hno in Hin.
    assert (Hne : PodSetAssignment_RepresentativeMode <$> asg_PodSets a ≠ []).
    { intros Hnil. apply fmap_nil_inv in Hnil. by rewrite Hnil in Hlen. }
    apply Hin, list_elem_of_fmap in Hne as (ps & Hps & Hps').
    clear Hin. rename Hps' into Hin.
    rewrite Forall_forall in Hall. specialize (Hall ps Hin).
    apply list_elem_of_lookup in Hin as [i Hi].
    destruct (Heach i ps Hi) as (podSet & a0 & requests & _ & Hps').
    destruct (podSetRun_facts _ _ _ _ _ _ _ _ Hidx Hps') as (_ & _ & _ & _ & Hok & _).
    destruct (Hok Hall) as (_ & _ & Hne). congruence. }
  split; [done|]. unfold Borrows. by rewrite Hborrow, map_size_empty.
Qed.

Lemma requests_set_NoDup (requests : Requests) (name : string) (v : Z) :
  NoDup (requests.*1) → NoDup ((requests_set requests name v).*1).
Proof.
  induction requests as [|[n x] rest IH]; cbn; intros Hnd.
  - apply NoDup_singleton.
  - apply NoDup_cons in Hnd as [Hn Hnd]. case_bool_decide as Heq; cbn.
    + by apply NoDup_cons.
    + apply NoDup_cons. split; [|by apply IH].
      intros Hin. by destruct (requests_set_keys _ _ _ _ Hin).
Qed.

Lemma podSetRequests_NoDup (podSets : list PodSet) (cq : ClusterQueue) (i : nat)
    (podSet : PodSetResources) (requests : Requests) :
  NoDup ((psr_Requests podSet).*1) →
  podSetRequests podSets cq i podSet = Some requests →
  NoDup (requests.*1).
Proof.
  intros Hnd. unfold podSetRequests. case_bool_decide; [|by intros [= <-]].
  destruct (podSets !! i) as [ps|]; [|done]. cbn. intros [= <-].
  by apply requests_set_NoDup.
Qed.

(** X17.  For the result of [AssignFlavors], a pod set has no status
    exactly when its mode is [Fit]; so the message of a result with pod
    sets is empty exactly when its representative mode is [Fit], and a
    result that does not fit always says why. *)
Theorem message_is_empty_exactly_when_Fit (wl : Info)
    (resourceFlavors : gmap string ResourceFlavor) (cq : ClusterQueue)
    (a : Assignment) :
  indexConsistent cq →
  Forall (λ podSet, NoDup ((psr_Requests podSet).*1)) (TotalRequests wl) →
  AssignFlavors wl resourceFlavors cq = Some a →
  (∀ ps, ps ∈ asg_PodSets a →
     psa_Status ps = None ↔ PodSetAssignment_RepresentativeMode ps = Fit)
  ∧ (asg_PodSets a ≠ [] →
     (Assignment_Message a).1 = "" ↔ (Assignment_RepresentativeMode a).1 = Fit).
Proof.
  intros Hidx Hnd Hrun.
  destruct (AssignFlavors_runs _ _ _ _ Hidx Hrun) as (Heach & _ & Hmode & _).
  assert (Hstatus : ∀ ps, ps ∈ asg_PodSets a →
            psa_Status ps = None ↔ PodSetAssignment_RepresentativeMode ps = Fit).
  { intros ps [i Hi]%list_elem_of_lookup.
    destruct (Heach i ps Hi) as (podSet & a0 & requests & Hk & Hps').
    destruct (podSetRun_facts _ _ _ _ _ _ _ _ Hidx Hps') as (_ & _ & _ & _ & _ & Hiff).
    apply Hiff. rewrite Forall_forall in Hnd.
    eapply podSetRequests_NoDup; [|apply Hps'].
    apply Hnd. by eapply list_elem_of_lookup_2. }
  split; [done|]. intros Hne.
  rewrite Assignment_Message_empty_iff, Hmode.
  rewrite bool_decide_eq_false_2.
  2:{ intros Hlen. by apply nil_length_inv in Hlen. }
  rewrite worstPodSetMode_Fit. split; intros Hall ps Hps; by apply Hstatus, Hall.
Qed.

(** X18.  [AssignFlavors] does not panic when every flavor of every indexed
    resource group has a quota for every resource that the group covers and
    the workload has a pod set for every entry of its total requests. *)
Theorem AssignFlavors_does_not_panic (wl : Info)
    (resourceFlavors : gmap string ResourceFlavor) (cq : ClusterQueue) :
  groupsWellFormed cq →
  (length (TotalRequests wl) <= length (PodSets (Spec (Obj wl))))%nat →
  is_Some (AssignFlavors wl resourceFlavors cq).
Proof.
  intros Hwf Hlen. unfold AssignFlavors. apply assignPodSets_total; [done|]. by cbn.
Qed.

End AssignmentStructure.

(** *** What an assignment borrows *)

Section Borrowing.
Context `{KubeHelpers}.
Import kueue cache workload flavorassigner.

Lemma Assignment_append_TotalBorrow (a : Assignment) (requests : Requests)
    (psa : PodSetAssignment) (f r : string) :
  frq_lookup (TotalBorrow (Assignment_append a requests psa)) f r
  = match psa_Flavors psa !! r with
    | Some fa =>
        if decide (fa_Name fa = f ∧ (0 < fa_borrow fa)%Z) then Some (fa_borrow fa)
        else frq_lookup (TotalBorrow a) f r
    | None => frq_lookup (TotalBorrow a) f r
    end.
Proof.
  unfold Assignment_append. revert f r.
  apply (map_fold_weak_ind
           (λ acc (m : ResourceAssignment), ∀ f r,
              frq_lookup (TotalBorrow acc) f r
              = match m !! r with
                | Some fa =>
                    if decide (fa_Name fa = f ∧ (0 < fa_borrow fa)%Z)
                    then Some (fa_borrow fa)
                    else frq_lookup (TotalBorrow a) f r
                | None => frq_lookup (TotalBorrow a) f r
                end)).
  - intros f r. by rewrite lookup_empty.
  - intros i fa m acc Hi IH f r. cbn [TotalBorrow].
    destruct (decide (i = r)) as [<-|Hne].
    + rewrite lookup_insert_eq. destruct (0 <? fa_borrow fa)%Z eqn:Hb.
      * apply Z.ltb_lt in Hb. rewrite frq_lookup_set.
        destruct (decide (fa_Name fa = f)) as [<-|Hf].
        -- by rewrite !decide_True.
        -- rewrite !decide_False by (by intros [? _]). rewrite IH. by rewrite Hi.
      * apply Z.ltb_ge in Hb. rewrite decide_False by (intros [_ ?]; lia).
        rewrite IH. by rewrite Hi.
    + rewrite lookup_insert_ne by done. destruct (0 <? fa_borrow fa)%Z.
      * rewrite frq_lookup_set. rewrite decide_False by (by intros [_ ?]). apply IH.
      * apply IH.
Qed.

Lemma fitsResourceQuota_Fit_borrow (f r : string) (val : Z) (cq : ClusterQueue)
    (rQuota : ResourceQuota) (b : Z) :
  queueInRange cq → quotaInRange rQuota → (0 <= val < 2 ^ 62)%Z →
  (fitsResourceQuota f r val cq rQuota).1 = (Fit, b) →
  b = Z.max 0 (frq_get (Usage cq) f r + val - Nominal rQuota).
Proof.
  intros Hcq [Hnominal Hlimit] Hval.
  destruct (queueInRange_numbers cq f r rQuota Hcq Hnominal) as (Hu & HcU & HcA).
  unfold fitsResourceQuota, cohortUsedOf, cohortAvailableOf, quantity in *.
  destruct rQuota as [nominal bl]; cbn [Nominal BorrowingLimit] in *.
  assert (Hin : ∀ z, (- 2 ^ 63 <= z < 2 ^ 63)%Z → int64.in_range z) by done.
  destruct (cq_Cohort cq) as [cohort|], bl as [limit|];
    repeat rewrite int64_add_id by (apply Hin; lia);
    repeat rewrite int64_sub_id by (apply Hin; lia);
    repeat case_match; cbn; intros Hfit; simplify_eq; lia.
Qed.

Lemma append_keeps_borrow (a : Assignment) (cq : ClusterQueue)
    (requests : Requests) (psa : PodSetAssignment) :
  indexConsistent cq → groupsWellFormed cq → queueInRange cq →
  requestsWellFormed requests →
  usageWithinQuota cq a → borrowIsExcess cq a →
  allFit (psa_Flavors psa) →
  (∀ r fa, psa_Flavors psa !! r = Some fa → checked a cq requests r fa) →
  borrowIsExcess cq (Assignment_append a requests psa).
Proof.
  intros Hidx Hwf Hcq [Hnd Hreqs] Husage Hinv Hfit Hchk f r.
  destruct (Hinv f r) as [Hborrow Hentries].
  destruct (Husage f r) as [_ Hbound].
  destruct (Assignment_append_PodSets a requests psa) as [Hpods _].
  rewrite Assignment_append_TotalBorrow, Assignment_append_usage, Hpods.
  assert (Hassigned : assignedTo (asg_PodSets a ++ [psa]) f r
                      ↔ assignedTo (asg_PodSets a) f r
                        ∨ ∃ fa, psa_Flavors psa !! r = Some fa ∧ fa_Name fa = f).
  { unfold assignedTo. split.
    - intros (ps & fa & [Hin|Hin%list_elem_of_singleton]%elem_of_app & Hr & Hf).
      + left. by exists ps, fa.
      + subst ps. right. by exists fa.
    - intros [(ps & fa & Hin & Hr & Hf)|(fa & Hr & Hf)].
      + exists ps, fa. split; [apply elem_of_app; by left | done].
      + exists psa, fa. split; [apply elem_of_app; right; by apply list_elem_of_singleton
                               | done]. }
  rewrite Hassigned.
  destruct (psa_Flavors psa !! r) as [fa|] eqn:Hfa.
  2:{ split; [done|]. rewrite Hentries. split; [by left|]. by intros [?|(? & [=] & _)]. }
  destruct (decide (fa_Name fa = f)) as [<-|Hf].
  2:{ rewrite decide_False by (by intros [? _]). split; [done|]. rewrite Hentries.
      split; [by left|]. intros [?|(fa' & [= <-] & ?)]; done. }
  split; [|split; [intros _; right; by exists fa | done]].
  destruct (checked_quotaOf _ _ _ _ _ Hidx Hwf Hcq (Hchk r fa Hfa))
    as (v & q & Hin & Hq & Hqrange & Hcheck).
  rewrite (requests_get_NoDup requests r v Hnd Hin).
  assert (Hv : quantity v).
  { rewrite Forall_forall in Hreqs. exact (Hreqs _ Hin). }
  assert (Hold : quantity (frq_get (usage a) (fa_Name fa) r)).
  { rewrite frq_get_lookup.
    destruct (frq_lookup (usage a) (fa_Name fa) r) as [t|] eqn:Ht; cbn.
    - by destruct (Hbound t eq_refl).
    - unfold quantity. lia. }
  unfold quantity in Hv, Hold.
  assert (Hadd : int64.add (frq_get (usage a) (fa_Name fa) r) v
                 = (frq_get (usage a) (fa_Name fa) r + v)%Z).
  { apply int64_add_id. unfold int64.in_range, int64.half. lia. }
  assert (Hadd' : int64.add v (frq_get (usage a) (fa_Name fa) r)
                  = (frq_get (usage a) (fa_Name fa) r + v)%Z).
  { rewrite <- Hadd. unfold int64.add. f_equal. lia. }
  rewrite Hadd' in Hcheck. rewrite Hadd. cbn [mbind option_bind].
  rewrite (Hfit r fa Hfa) in Hcheck.
  apply fitsResourceQuota_Fit_borrow in Hcheck; [|done|done|lia].
  unfold excessOverNominal at 1. rewrite Hq. cbn [mbind option_bind].
  destruct (decide (fa_Name fa = fa_Name fa ∧ (0 < fa_borrow fa)%Z)) as [[_ Hpos]|Hnot].
  - rewrite Hcheck in Hpos |- *.
    destruct (Z.ltb_spec 0 (frq_get (Usage cq) (fa_Name fa) r
                            + (frq_get (usage a) (fa_Name fa) r + v) - Nominal q))
      as [Hlt|Hge]; [f_equal; lia | lia].
  - assert (Hzero : (fa_borrow fa <= 0)%Z).
    { destruct (decide (0 < fa_borrow fa)%Z); [exfalso; by apply Hnot | lia]. }
    rewrite Hcheck in Hzero.
    destruct (Z.ltb_spec 0 (frq_get (Usage cq) (fa_Name fa) r
                            + (frq_get (usage a) (fa_Name fa) r + v) - Nominal q))
      as [Hlt|Hge]; [lia|].
    rewrite Hborrow.
    pose proof (frq_get_lookup (usage a) (fa_Name fa) r) as Hget.
    destruct (frq_lookup (usage a) (fa_Name fa) r) as [t|] eqn:Ht; [|done].
    cbn in Hget. cbn [mbind option_bind]. unfold excessOverNominal. rewrite Hq.
    cbn [mbind option_bind].
    destruct (Z.ltb_spec 0 (frq_get (Usage cq) (fa_Name fa) r + t - Nominal q))
      as [Hlt|Hge']; [lia | done].
Qed.

Lemma assignPodSets_borrow (podSets : list PodSet)
    (resourceFlavors : gmap string ResourceFlavor) (cq : ClusterQueue) (i : nat)
    (todo : list PodSetResources) (a a' : Assignment) (new : list PodSetAssignment) :
  indexConsistent cq → groupsWellFormed cq → queueInRange cq →
  Forall (λ ps, quantity (ps_Count ps)) podSets →
  Forall (λ podSet, requestsWellFormed (psr_Requests podSet)) todo →
  assignPodSets podSets resourceFlavors cq i todo a = Some a' →
  asg_PodSets a' = asg_PodSets a ++ new →
  (∀ ps, ps ∈ new → PodSetAssignment_RepresentativeMode ps = Fit) →
  usageWithinQuota cq a → borrowIsExcess cq a →
  usageWithinQuota cq a' ∧ borrowIsExcess cq a'.
Proof.
  intros Hidx Hwf Hcq Hcounts. revert i a new.
  induction todo as [|podSet rest IH]; intros i a new Htodo Hrun Hnew Hfit Hinv Hborrow.
  - cbn in Hrun. by simplify_eq.
  - apply Forall_cons in Htodo as [Hreqwf Htodo].
    apply assignPodSets_step in Hrun as (requests & psa & Hreq & Hpsa & Hnext).
    cbn zeta in Hnext.
    destruct (podSet_Fit _ _ _ _ _ _ _ _ Hidx Hpsa) as (_ & Hrl & Hchk & Hpsfit).
    destruct (Assignment_append_PodSets a requests psa) as [Hps _].
    assert (Hhead : ∃ new', new = psa :: new'
              ∧ (Status_IsError (psa_Status psa)
                 || (bool_decide (length requests ≠ 0%nat)
                     && bool_decide (size (psa_Flavors psa) = 0%nat)) = false →
                 asg_PodSets a' = asg_PodSets (Assignment_append a requests psa) ++ new')).
    { destruct (Status_IsError (psa_Status psa) || _) eqn:Hbreak.
      - subst a'. cbn in Hnew. rewrite Hps in Hnew.
        apply app_inv_head in Hnew. exists []. by split.
      - destruct (assignPodSets_new _ _ _ _ _ _ _ Hidx Hnext) as (new' & Hnew' & _).
        exists new'. split; [|done]. rewrite Hnew', Hps, <- app_assoc in Hnew.
        by apply app_inv_head in Hnew. }
    destruct Hhead as (new' & -> & Hrest).
    destruct (Hpsfit (Hfit psa ltac:(by left))) as (Hall & _ & Hgo).
    rewrite Hgo in Hnext. specialize (Hrest Hgo).
    assert (Hreqs : requestsWellFormed requests)
      by (by eapply podSetRequests_wellFormed).
    eapply (IH _ _ new' Htodo Hnext Hrest).
    + intros ps Hps'. apply Hfit. by right.
    + by apply append_keeps_usage_within_quota.
    + by apply append_keeps_borrow.
Qed.

(** X19.  On a well-formed cluster queue (a consistent index, flavors
    that have a quota for every resource of their group, distinct flavor
    names in a group), when the quantities of the snapshot and of the
    workload are between 0 and [2^61], so that no [int64] sum of the fit
    checks wraps around: for a result with representative mode [Fit],
    [TotalBorrow] holds exactly the excess over the nominal quota.  It has
    an entry for a flavor and a resource exactly when some pod set has the
    resource assigned to the flavor and the usage of the cluster queue plus
    the usage of the whole workload exceeds the nominal quota, and the
    entry is that excess (borrowing is not added up over the pod sets). *)
Theorem total_borrow_is_excess_over_nominal (wl : Info)
    (resourceFlavors : gmap string ResourceFlavor) (cq : ClusterQueue)
    (a : Assignment) :
  indexConsistent cq → groupsWellFormed cq → queueInRange cq →
  workloadWellFormed wl →
  AssignFlavors wl resourceFlavors cq = Some a →
  (Assignment_RepresentativeMode a).1 = Fit →
  ∀ f r b,
    frq_lookup (TotalBorrow a) f r = Some b
    ↔ assignedTo (asg_PodSets a) f r
      ∧ excessOverNominal cq f r (workloadUsage (asg_PodSets a) f r) = Some b.
Proof.
  intros Hidx Hwf Hcq (Hlen & Hreqs & Hcounts) Hrun Hfit f r b.
  unfold AssignFlavors in Hrun.
  destruct (assignPodSets_new _ _ _ _ _ _ _ Hidx Hrun) as (new & Hnew & Hrep & _).
  cbn in Hnew, Hrep.
  assert (Hall : ∀ ps, ps ∈ new → PodSetAssignment_RepresentativeMode ps = Fit).
  { unfold Assignment_RepresentativeMode in Hfit. rewrite Hrep in Hfit.
    case_bool_decide; [done|]. cbn in Hfit. rewrite <- Hnew.
    by apply worstPodSetMode_Fit. }
  destruct (assignPodSets_borrow _ _ _ _ _ _ _ new Hidx Hwf Hcq Hcounts Hreqs Hrun)
    as [Husage Hborrow]; [done|done| | |].
  { intros f' r'. split; [done|]. intros t. unfold frq_lookup. cbn.
    by rewrite lookup_empty. }
  { intros f' r'. unfold frq_lookup, assignedTo. cbn. rewrite lookup_empty. cbn.
    split; [done|]. split; [by intros [? ?]|].
    by intros (ps & fa & ?%elem_of_nil & _). }
  destruct (Hborrow f r) as [-> Hentries]. destruct (Husage f r) as [Hsum _].
  rewrite <- Hentries, <- Hsum, frq_get_lookup.
  destruct (frq_lookup (usage a) f r) as [t|]; cbn.
  - split; [by split | by intros [_ ?]].
  - split; [done | by intros [[? ?] _]].
Qed.

(** X20.  The fit check is monotone in the requested value: a smaller
    request never gets a worse mode than a larger one, and when the larger
    one fits, the smaller one fits and borrows no more. *)
Theorem fitsResourceQuota_monotone (f r : string) (v v' : Z) (cq : ClusterQueue)
    (rQuota : ResourceQuota) :
  fitCheckInRange cq f r v rQuota → (0 <= v' <= v)%Z →
  let larger := fitsResourceQuota f r v cq rQuota in
  let smaller := fitsResourceQuota f r v' cq rQuota in
  (mode_int larger.1.1 <= mode_int smaller.1.1)%Z
  ∧ (larger.1.1 = Fit → smaller.1.1 = Fit ∧ (smaller.1.2 <= larger.1.2)%Z).
Proof.
  intros [Hu Hv Hn Hl HcU HcA] Hv'. cbn zeta.
  unfold fitsResourceQuota, cohortUsedOf, cohortAvailableOf, quantity in *.
  destruct rQuota as [nominal bl]; cbn [Nominal BorrowingLimit] in *.
  assert (Hbl : ∀ limit, bl = Some limit → (0 <= limit < 2 ^ 61)%Z) by done.
  clear Hl.
  destruct (cq_Cohort cq) as [cohort|], bl as [limit|];
    try specialize (Hbl limit eq_refl);
    repeat rewrite int64_add_quantity by lia;
    repeat rewrite int64_sub_quantity by lia;
    repeat case_match; cbn; split; try done; try lia; intros _; split; try done; lia.
Qed.

Lemma fitsResourceQuota_Preempt (f r : string) (val : Z) (cq : ClusterQueue)
    (rQuota : ResourceQuota) (b : Z) :
  (fitsResourceQuota f r val cq rQuota).1 = (Preempt, b) →
  (val <= Nominal rQuota)%Z ∧ b = 0%Z.
Proof.
  unfold fitsResourceQuota.
  destruct (val <=? Nominal rQuota)%Z eqn:Hle; repeat case_match; cbn;
    intros [= <-]; try done; (split; [by apply Z.leb_le | done]).
Qed.

Lemma podSetUsage_no_flavors (ps : PodSetAssignment) (f r : string) :
  psa_Flavors ps = ∅ → podSetUsage ps f r = 0%Z.
Proof. unfold podSetUsage. intros ->. by rewrite lookup_empty. Qed.

(** The usage of a pod set for a flavor and a resource that it has
    assigned to each other is its request for the resource. *)
Lemma podSetUsage_assigned (ps : PodSetAssignment) (requests : Requests) (r : string)
    (v : Z) (fa : FlavorAssignment) :
  psa_Requests ps = ToResourceList requests → NoDup (requests.*1) →
  (r, v) ∈ requests → psa_Flavors ps !! r = Some fa →
  podSetUsage ps (fa_Name fa) r = v.
Proof.
  intros Hrl Hnd Hin Hfa. unfold podSetUsage. rewrite Hfa.
  rewrite bool_decide_eq_true_2 by done.
  by rewrite Hrl, resourceListValue_ToResourceList, (requests_get_NoDup _ _ _ Hnd Hin).
Qed.

(** One pod set more: the flavor of every resource is explained by the
    usage of the pod sets so far, and the accumulated usage stays the usage
    of the pod sets. *)
Lemma append_keeps_usage_tracked (a : Assignment) (cq : ClusterQueue)
    (requests : Requests) (psa : PodSetAssignment) :
  indexConsistent cq → groupsWellFormed cq → queueInRange cq →
  requestsWellFormed requests →
  usageTracked a →
  (∀ r fa, psa_Flavors psa !! r = Some fa →
     checked a cq requests r fa ∧ fa_Mode fa ≠ NoFit) →
  psa_Requests psa = ToResourceList requests →
  usageTracked (Assignment_append a requests psa)
  ∧ ∀ r fa, psa_Flavors psa !! r = Some fa →
      ∃ rQuota,
        quotaOf cq (fa_Name fa) r = Some rQuota
        ∧ modeExplained cq (fa_Name fa) r rQuota
            (workloadUsage (asg_PodSets a ++ [psa]) (fa_Name fa) r) fa.
Proof.
  intros Hidx Hwf Hcq [Hnd Hreqs] Hinv Hchk Hrl.
  assert (Hentry : ∀ r fa, psa_Flavors psa !! r = Some fa →
            ∃ v rQuota,
              (r, v) ∈ requests
              ∧ quotaOf cq (fa_Name fa) r = Some rQuota
              ∧ int64.add (frq_get (usage a) (fa_Name fa) r) v
                = (frq_get (usage a) (fa_Name fa) r + v)%Z
              ∧ quantity (frq_get (usage a) (fa_Name fa) r + v)
              ∧ modeExplained cq (fa_Name fa) r rQuota
                  (frq_get (usage a) (fa_Name fa) r + v) fa).
  { intros r fa Hfa. destruct (Hchk r fa Hfa) as [Hc Hmode].
    destruct (checked_quotaOf _ _ _ _ _ Hidx Hwf Hcq Hc)
      as (v & q & Hin & Hq & Hqrange & Hcheck).
    assert (Hv : quantity v).
    { rewrite Forall_forall in Hreqs. exact (Hreqs _ Hin). }
    assert (Hold : quantity (frq_get (usage a) (fa_Name fa) r)).
    { rewrite frq_get_lookup. destruct (Hinv (fa_Name fa) r) as [_ Hbound].
      destruct (frq_lookup (usage a) (fa_Name fa) r) as [t|] eqn:Ht; cbn.
      - by apply Hbound.
      - unfold quantity. lia. }
    unfold quantity in Hv, Hold.
    assert (Hadd : int64.add (frq_get (usage a) (fa_Name fa) r) v
                   = (frq_get (usage a) (fa_Name fa) r + v)%Z).
    { apply int64_add_id. unfold int64.in_range, int64.half. lia. }
    assert (Hadd' : int64.add v (frq_get (usage a) (fa_Name fa) r)
                    = (frq_get (usage a) (fa_Name fa) r + v)%Z).
    { rewrite <- Hadd. unfold int64.add. f_equal. lia. }
    rewrite Hadd' in Hcheck.
    assert (Hexplained : modeExplained cq (fa_Name fa) r q
                           (frq_get (usage a) (fa_Name fa) r + v) fa).
    { unfold modeExplained. destruct (fa_Mode fa) eqn:Hm; [done| |].
      - by apply fitsResourceQuota_Preempt in Hcheck.
      - split.
        + apply fitsResourceQuota_Fit_bounds; [done|done|lia|]. by rewrite Hcheck.
        + apply fitsResourceQuota_Fit_borrow in Hcheck; [done|done|done|lia]. }
    exists v, q. split_and!; try done.
    destruct Hqrange as [Hnominal _].
    destruct (queueInRange_numbers cq (fa_Name fa) r q Hcq Hnominal) as (Hu & HcU & HcA).
    unfold modeExplained in Hexplained. unfold quantity in *.
    destruct (fa_Mode fa); [done| |].
    - lia.
    - destruct Hexplained as [(_ & Hcohort & Hnone) _].
      unfold cohortUsedOf, cohortAvailableOf in *.
      destruct (cq_Cohort cq) as [cohort|].
      + specialize (Hcohort cohort eq_refl). lia.
      + specialize (Hnone eq_refl). lia. }
  destruct (Assignment_append_PodSets a requests psa) as [Hpods _].
  split.
  - intros f r. destruct (Hinv f r) as [Hsum Hbound].
    rewrite Hpods, workloadUsage_snoc, frq_get_lookup, Assignment_append_usage.
    unfold podSetUsage.
    destruct (psa_Flavors psa !! r) as [fa|] eqn:Hfa.
    2:{ rewrite <- frq_get_lookup. split; [lia | done]. }
    destruct (decide (fa_Name fa = f)) as [<-|Hf].
    2:{ rewrite bool_decide_eq_false_2 by done. rewrite <- frq_get_lookup.
        split; [lia | done]. }
    rewrite bool_decide_eq_true_2 by done.
    destruct (Hentry r fa Hfa) as (v & q & Hin & _ & Hadd & Hq & _).
    rewrite (requests_get_NoDup requests r v Hnd Hin).
    rewrite Hrl, resourceListValue_ToResourceList, (requests_get_NoDup requests r v Hnd Hin).
    rewrite Hadd. cbn. split; [lia|]. by intros t [= <-].
  - intros r fa Hfa. destruct (Hentry r fa Hfa) as (v & q & Hin & Hq & _ & _ & Hex).
    exists q. split; [done|]. rewrite workloadUsage_snoc.
    rewrite (podSetUsage_assigned psa requests r v fa Hrl Hnd Hin Hfa).
    destruct (Hinv (fa_Name fa) r) as [<- _]. exact Hex.
Qed.

(** The loop of [AssignFlavors] keeps the accumulated usage the usage of
    the pod sets, and explains the flavors of every pod set it adds by the
    usage of the pod sets up to it. *)
Lemma assignPodSets_tracked (podSets : list PodSet)
    (resourceFlavors : gmap string ResourceFlavor) (cq : ClusterQueue) (i : nat)
    (todo : list PodSetResources) (a a' : Assignment) :
  indexConsistent cq → groupsWellFormed cq → queueInRange cq →
  Forall (λ ps, quantity (ps_Count ps)) podSets →
  Forall (λ podSet, requestsWellFormed (psr_Requests podSet)) todo →
  assignPodSets podSets resourceFlavors cq i todo a = Some a' →
  usageTracked a →
  usageTracked a'
  ∧ ∃ new,
      asg_PodSets a' = asg_PodSets a ++ new
      ∧ ∀ k ps r fa,
          new !! k = Some ps → psa_Flavors ps !! r = Some fa →
          ∃ rQuota,
            quotaOf cq (fa_Name fa) r = Some rQuota
            ∧ modeExplained cq (fa_Name fa) r rQuota
                (workloadUsage (asg_PodSets a ++ take (S k) new) (fa_Name fa) r) fa.
Proof.
  intros Hidx Hwf Hcq Hcounts. revert i a.
  induction todo as [|podSet rest IH]; intros i a Htodo Hrun Hinv.
  - cbn in Hrun. simplify_eq. split; [done|]. exists []. rewrite app_nil_r.
    split; [done|]. by intros k ps r fa ?.
  - apply Forall_cons in Htodo as [Hreqwf Htodo].
    apply assignPodSets_step in Hrun as (requests & psa & Hreq & Hpsa & Hnext).
    cbn zeta in Hnext.
    assert (Hrun0 : podSetRun podSets resourceFlavors cq i podSet a requests psa)
      by (by split).
    destruct (podSetRun_facts _ _ _ _ _ _ _ _ Hidx Hrun0) as (_ & Hrl & Hgroups & _).
    destruct (podSet_Fit _ _ _ _ _ _ _ _ Hidx Hpsa) as (_ & _ & Hchk & _).
    assert (Hreqs : requestsWellFormed requests)
      by (by eapply podSetRequests_wellFormed).
    assert (Hentries : ∀ r fa, psa_Flavors psa !! r = Some fa →
              checked a cq requests r fa ∧ fa_Mode fa ≠ NoFit).
    { intros r fa Hfa. split; [by apply Hchk|].
      destruct (Hgroups r fa Hfa) as (p & _ & rg & fq & res & m & rs & _ & _ & Hout & _
                                      & _ & Hres).
      destruct (groupOutcome_Evaluated _ _ _ _ _ _ _ _ _ _ Hout) as (_ & Hmodes & _).
      by destruct (Hmodes r fa Hres) as (_ & ? & _). }
    destruct (append_keeps_usage_tracked a cq requests psa Hidx Hwf Hcq Hreqs Hinv
                Hentries Hrl) as [Hinv' Hexplained].
    destruct (Assignment_append_PodSets a requests psa) as [Hpods _].
    destruct (Status_IsError (psa_Status psa) || _).
    + subst a'. split.
      * intros f r. destruct (Hinv' f r) as [Hsum Hbound]. by cbn.
      * exists [psa]. cbn [asg_PodSets]. split; [done|].
        intros [|k] ps r fa Hk Hfa; [|done]. cbn in Hk. simplify_eq.
        by apply Hexplained.
    + destruct (IH _ _ Htodo Hnext Hinv') as (Hfinal & new & Hnew & Heach).
      split; [done|]. exists (psa :: new). split.
      * rewrite Hnew, Hpods. by rewrite <- app_assoc.
      * intros [|k] ps r fa Hk Hfa; cbn in Hk.
        -- simplify_eq. cbn. rewrite take_0. by apply Hexplained.
        -- destruct (Heach k ps r fa Hk Hfa) as (q & Hq & Hex). exists q.
           split; [done|]. rewrite Hpods, <- app_assoc in Hex. exact Hex.
Qed.

(** X24.  On a well-formed cluster queue (a consistent index, flavors
    that have a quota for every resource of their group, distinct flavor
    names in a group), when the quantities of the snapshot and of the
    workload are between 0 and [2^61], so that no [int64] sum of the fit
    checks wraps around: the mode and the borrowing of every assigned
    flavor are explained by usage, whatever the representative mode of the
    result.  For the usage of the resource on the flavor by the pod sets up
    to and including the one that holds the flavor, [Preempt] means that
    this usage is within the nominal quota (and nothing is borrowed), [Fit]
    that it is within the borrowing limit and what the cohort can give (and
    the excess over the nominal quota is borrowed); and the usage that the
    assignment accumulates is the usage of its pod sets. *)
Theorem assigned_mode_is_explained_by_usage (wl : Info)
    (resourceFlavors : gmap string ResourceFlavor) (cq : ClusterQueue)
    (a : Assignment) :
  indexConsistent cq → groupsWellFormed cq → queueInRange cq →
  workloadWellFormed wl →
  AssignFlavors wl resourceFlavors cq = Some a →
  (∀ f r, frq_get (usage a) f r = workloadUsage (asg_PodSets a) f r)
  ∧ ∀ i ps r fa,
      asg_PodSets a !! i = Some ps → psa_Flavors ps !! r = Some fa →
      ∃ rQuota,
        quotaOf cq (fa_Name fa) r = Some rQuota
        ∧ modeExplained cq (fa_Name fa) r rQuota
            (workloadUsage (take (S i) (asg_PodSets a)) (fa_Name fa) r) fa.
Proof.
  intros Hidx Hwf Hcq (Hlen & Hreqs & Hcounts) Hrun. unfold AssignFlavors in Hrun.
  destruct (assignPodSets_tracked _ _ _ _ _ _ _ Hidx Hwf Hcq Hcounts Hreqs Hrun)
    as (Hinv & new & Hnew & Heach).
  { intros f r. split; [done|]. intros t. unfold frq_lookup. cbn.
    by rewrite lookup_empty. }
  cbn in Hnew, Heach. subst new.
  split; [intros f r; by destruct (Hinv f r)|]. exact Heach.
Qed.

End Borrowing.

(** *** The requests of a workload *)

Section WorkloadInfo.
Context `{QuantityHelpers}.
Import kueue cache workload flavorassigner.

Lemma ResourceValue_ResourceQuantity (name : string) (v : Z) :
  ResourceValue name (ResourceQuantity name v) = v.
Proof.
  unfold ResourceValue, ResourceQuantity, Quantity_MilliValue, Quantity_Value.
  repeat case_bool_decide; try done; by destruct (String.prefix _ _).
Qed.

Lemma requests_set_fresh (requests : Requests) (name : string) (v : Z) :
  name ∉ requests.*1 → requests_set requests name v = requests ++ [(name, v)].
Proof.
  induction requests as [|[n0 x] rest IH]; cbn; [done|].
  intros Hnotin. apply not_elem_of_cons in Hnotin as [Hne Hnotin].
  rewrite bool_decide_eq_false_2 by done. by rewrite IH.
Qed.

Lemma newRequests_NoDup (rl : list (string * Quantity)) : NoDup ((newRequests rl).*1).
Proof.
  unfold newRequests.
  enough (Hgen : ∀ acc : Requests,
            NoDup (acc.*1) →
            NoDup ((foldl (λ r nq, requests_set r nq.1 (ResourceValue nq.1 nq.2))
                      acc rl).*1)).
  { apply Hgen. constructor. }
  induction rl as [|[n q] rl IH]; intros acc Hacc; cbn; [done|].
  apply IH. by apply requests_set_NoDup.
Qed.

(** [newRequests] of a resource list with distinct names holds the
    resource value of every entry. *)
Lemma newRequests_entries (rl : list (string * Quantity)) :
  NoDup (rl.*1) →
  newRequests rl = (λ nq, (nq.1, ResourceValue nq.1 nq.2)) <$> rl.
Proof.
  unfold newRequests. intros Hnd.
  enough (Hgen : ∀ acc : Requests,
            (∀ n, n ∈ acc.*1 → n ∉ rl.*1) →
            foldl (λ r nq, requests_set r nq.1 (ResourceValue nq.1 nq.2)) acc rl
            = acc ++ ((λ nq, (nq.1, ResourceValue nq.1 nq.2)) <$> rl)).
  { apply (Hgen []). by intros n ?%elem_of_nil. }
  induction rl as [|[n q] rl IH]; intros acc Hacc; cbn.
  - by rewrite app_nil_r.
  - cbn in Hnd. apply NoDup_cons in Hnd as [Hn Hnd].
    rewrite requests_set_fresh.
    2:{ intros Hin. apply (Hacc n Hin). cbn. by left. }
    rewrite IH; [by rewrite <- app_assoc|done|].
    intros n' Hin. rewrite fmap_app in Hin. cbn in Hin.
    apply elem_of_app in Hin as [Hin|Hin%list_elem_of_singleton].
    + intros Hn'. apply (Hacc n' Hin). cbn. by right.
    + by subst n'.
Qed.

Lemma newRequests_ToResourceList (requests : Requests) :
  NoDup (requests.*1) → newRequests (ToResourceList requests) = requests.
Proof.
  intros Hnd. rewrite newRequests_entries by (by rewrite ToResourceList_keys).
  unfold ToResourceList. rewrite <- list_fmap_compose.
  rewrite <- (list_fmap_id requests) at 2. apply list_fmap_ext.
  intros i [n v] _. cbn. by rewrite ResourceValue_ResourceQuantity.
Qed.

(** X21.  Requests survive the trip through a resource list: the value of
    [ResourceQuantity] reads back as the value it was made from (milli-units
    for [cpu], units for the other resources), so [newRequests] of
    [ToResourceList] of a requests map holds exactly the entries of the
    map. *)
Theorem requests_survive_the_resource_list (requests : Requests) :
  NoDup (requests.*1) →
  (∀ name v, ResourceValue name (ResourceQuantity name v) = v)
  ∧ NoDup ((newRequests (ToResourceList requests)).*1)
  ∧ (∀ rv, rv ∈ newRequests (ToResourceList requests) ↔ rv ∈ requests)
  ∧ (∀ name, requests_get (newRequests (ToResourceList requests)) name
             = requests_get requests name).
Proof.
  intros Hnd. split; [apply ResourceValue_ResourceQuantity|].
  split; [apply newRequests_NoDup|].
  by rewrite newRequests_ToResourceList.
Qed.

End WorkloadInfo.

Section InfoOfWorkload.
Context `{KubeHelpers} `{QuantityHelpers}.
Variable limitrangeTotalRequests : PodSpec → list (string * Quantity).
Import kueue cache workload flavorassigner.

Lemma scale_keys (requests : Requests) (f : Z) : (scale requests f).*1 = requests.*1.
Proof. unfold scale. rewrite <- list_fmap_compose. by apply list_fmap_ext. Qed.

Lemma scale_get (requests : Requests) (f : Z) (name : string) :
  name ∈ requests.*1 →
  requests_get (scale requests f) name = int64.mul (requests_get requests name) f.
Proof.
  induction requests as [|[n v] rest IH]; cbn; [by intros ?%elem_of_nil|].
  case_bool_decide as Hn; [done|].
  intros [?|Hin]%elem_of_cons; [congruence|]. by apply IH.
Qed.

Lemma requests_set_has_keys (requests : Requests) (name : string) (v : Z) (n : string) :
  n ∈ requests.*1 ∨ n = name → n ∈ (requests_set requests name v).*1.
Proof.
  induction requests as [|[n0 x] rest IH]; simpl.
  - intros [Hin| ->]; [by apply elem_of_nil in Hin | by left].
  - case_bool_decide as Heq; simpl.
    + intros [Hin| ->]; [done|]. subst n0. by left.
    + intros [Hin| ->].
      * apply elem_of_cons in Hin as [Hin|Hin]; [subst; by left|].
        right. apply IH. by left.
      * right. apply IH. by right.
Qed.

Lemma newRequests_keys (rl : list (string * Quantity)) (name : string) :
  name ∈ rl.*1 → name ∈ (newRequests rl).*1.
Proof.
  unfold newRequests. intros Hname.
  enough (Hgen : ∀ acc : Requests,
            name ∈ acc.*1 ∨ name ∈ rl.*1 →
            name ∈ (foldl (λ r nq, requests_set r nq.1 (ResourceValue nq.1 nq.2))
                      acc rl).*1).
  { apply Hgen. by right. }
  clear Hname. induction rl as [|[n q] rl IH]; intros acc Hin; simpl.
  - destruct Hin as [?|Hin]; [done|]. by apply elem_of_nil in Hin.
  - apply IH. simpl in Hin.
    destruct Hin as [Hin|Hin]; [left; apply requests_set_has_keys; by left|].
    apply elem_of_cons in Hin as [Hin|Hin]; [|by right].
    left. apply requests_set_has_keys. by right.
Qed.

(** X22.  [NewInfo] of a workload without admission has one entry per pod
    set of the workload, in order and by name, without flavors and with
    distinct resource names; the request for a resource is the request of
    one pod times the count of the pod set; and [AssignFlavors] does not
    panic on such an info when every flavor of every indexed resource group
    has a quota for every resource of the group. *)
Theorem pending_info_is_assignable (w : Workload)
    (resourceFlavors : gmap string ResourceFlavor) (cq : ClusterQueue) :
  kueue.Admission_ (kueue.Status w) = None →
  groupsWellFormed cq →
  let info := NewInfo limitrangeTotalRequests w in
  Obj info = w
  ∧ info_ClusterQueue info = ""
  ∧ length (TotalRequests info) = length (PodSets (Spec w))
  ∧ (∀ i podSet, PodSets (Spec w) !! i = Some podSet →
       ∃ e, TotalRequests info !! i = Some e
            ∧ psr_Name e = ps_Name podSet
            ∧ psr_Flavors e = ∅
            ∧ NoDup ((psr_Requests e).*1)
            ∧ ∀ name,
                name ∈ (limitrangeTotalRequests (ps_TemplateSpec podSet)).*1 →
                requests_get (psr_Requests e) name
                = int64.mul
                    (requests_get
                       (newRequests (limitrangeTotalRequests (ps_TemplateSpec podSet)))
                       name)
                    (ps_Count podSet))
  ∧ is_Some (AssignFlavors info resourceFlavors cq).
Proof.
  intros Hadm Hwf. cbn zeta. unfold NewInfo. rewrite Hadm.
  cbn [Obj info_ClusterQueue TotalRequests]. unfold totalRequestsFromPodSets.
  split; [done|]. split; [done|]. split; [by rewrite length_fmap|]. split.
  - intros i podSet Hi.
    exists (mkPodSetResources (ps_Name podSet)
              (scale (newRequests (limitrangeTotalRequests (ps_TemplateSpec podSet)))
                 (ps_Count podSet)) ∅).
    rewrite list_lookup_fmap, Hi. cbn [psr_Name psr_Flavors psr_Requests].
    split_and!; [done|done|done| |].
    + rewrite scale_keys. apply newRequests_NoDup.
    + intros name Hname. apply scale_get. by apply newRequests_keys.
  - unfold AssignFlavors. apply assignPodSets_total; [done|].
    cbn [Obj TotalRequests]. rewrite length_fmap. lia.
Qed.

(** X23.  What [NewInfo] reads back from a workload that was admitted with
    the result of [AssignFlavors] is what the assigner computed: the
    cluster queue of the admission and, per pod set of the result, the name
    of the pod set, for every assigned resource the name of its flavor, and
    exactly the requests that the assigner evaluated (the [pods] request
    included), whatever the pod sets of the workload say. *)
Theorem admitted_info_matches_assignment (wl : Info)
    (resourceFlavors : gmap string ResourceFlavor) (cq : ClusterQueue)
    (a : Assignment) (now1 now2 sysnow : Z) (w : Workload) (cqName : string) :
  indexConsistent cq →
  Forall (λ podSet, NoDup ((psr_Requests podSet).*1)) (TotalRequests wl) →
  AssignFlavors wl resourceFlavors cq = Some a →
  ∃ w', SetAdmission now1 now2 sysnow w
          (Some (mkAdmission cqName (Assignment_ToAPI a))) = Some w'
        ∧ let info := NewInfo limitrangeTotalRequests w' in
          Obj info = w'
          ∧ info_ClusterQueue info = cqName
          ∧ length (TotalRequests info) = length (asg_PodSets a)
          ∧ ∀ i ps, asg_PodSets a !! i = Some ps →
              ∃ e podSet requests,
                TotalRequests info !! i = Some e
                ∧ psr_Name e = psa_Name ps
                ∧ psr_Flavors e = fa_Name <$> psa_Flavors ps
                ∧ TotalRequests wl !! i = Some podSet
                ∧ podSetRequests (PodSets (Spec (Obj wl))) cq i podSet = Some requests
                ∧ ∀ rv, rv ∈ psr_Requests e ↔ rv ∈ requests.
Proof.
  intros Hidx Hnd Hrun. unfold SetAdmission. eexists. split; [reflexivity|].
  cbn zeta. unfold NewInfo, totalRequestsFromAdmission.
  cbn [kueue.Status kueue.Admission_ Obj info_ClusterQueue TotalRequests
       kueue.ClusterQueue PodSetAssignments].
  unfold Assignment_ToAPI. split; [done|]. split; [done|].
  split; [by rewrite !length_fmap|].
  intros i ps Hps.
  destruct (AssignFlavors_runs _ _ _ _ Hidx Hrun) as (Heach & _).
  destruct (Heach i ps Hps) as (podSet & a0 & requests & Hk & Hps').
  destruct (podSetRun_facts _ _ _ _ _ _ _ _ Hidx Hps') as (_ & Hrl & _).
  exists (mkPodSetResources (psa_Name ps) (newRequests (psa_Requests ps))
            (fa_Name <$> psa_Flavors ps)), podSet, requests.
  rewrite !list_lookup_fmap, Hps. cbn [psr_Name psr_Flavors psr_Requests].
  split_and!; try done; [apply Hps'|].
  rewrite Hrl, newRequests_ToResourceList; [done|].
  rewrite Forall_forall in Hnd. eapply podSetRequests_NoDup; [|apply Hps'].
  apply Hnd. by eapply list_elem_of_lookup_2.
Qed.

End InfoOfWorkload.

(** [TestNewInfo], replayed. *)
Example test_NewInfo_pending :
  workload.NewInfo (H := reference.quantityHelpers) tests.pendingContainerRequests
    tests.pendingWorkload
  = workload.mkInfo tests.pendingWorkload
      [workload.mkPodSetResources "main" [("cpu", 10%Z); ("memory", (512 * 1024)%Z)] ∅]
      "".
Proof. vm_compute. reflexivity. Qed.

Example test_NewInfo_admitted (now : Z) :
  ∃ w, tests.admittedWorkload now = Some w
       ∧ workload.TotalRequests
           (workload.NewInfo (H := reference.quantityHelpers) tests.pendingContainerRequests w)
         = [workload.mkPodSetResources "driver"
              [("cpu", 10%Z); ("memory", (512 * 1024)%Z)] {[ "cpu" := "on-demand" ]};
            workload.mkPodSetResources "workers"
              [("cpu", 15%Z); ("memory", (3 * 1024 * 1024)%Z); ("ex.com/gpu", 3%Z)] ∅]
       ∧ workload.info_ClusterQueue
           (workload.NewInfo (H := reference.quantityHelpers) tests.pendingContainerRequests w)
         = "foo".
Proof. eexists. split; [reflexivity|]. split; vm_compute; reflexivity. Qed.

(** *** The further properties on the inputs of the tests *)

Section FurtherExamples.
Import kueue cache workload flavorassigner.

Ltac decide_by_computation := apply (bool_decide_unpack _); vm_compute; exact I.

(** Evaluates the run [Hrun] of the assigner and what the context reads off
    its result. *)
Ltac compute_run Hrun :=
  vm_compute in Hrun; simplify_eq;
  repeat match goal with
         | H : _ = Some _ |- _ => progress (vm_compute in H); simplify_eq
         | H : _ = None |- _ => progress (vm_compute in H); simplify_eq
         end;
  try (vm_compute; reflexivity).

Lemma condition_types_stay_distinct_witness :
  NoDup (cond_Type <$> Conditions (kueue.Status tests.waitingWorkload))
  ∧ NoDup (cond_Type <$>
             Conditions (kueue.Status
                           (SetEvictedCondition 200 201 tests.waitingWorkload
                              WorkloadEvictedByPodsReadyTimeout "pods not ready"))).
Proof.
  assert (Hnd : NoDup (cond_Type <$> Conditions (kueue.Status tests.waitingWorkload))).
  { decide_by_computation. }
  split; [exact Hnd|].
  destruct (condition_types_stay_distinct id 200 200 201 tests.waitingWorkload
              (mkAdmission "cq" []) WorkloadEvictedByPodsReadyTimeout "pods not ready"
              Hnd) as [Hevicted _].
  exact Hevicted.
Defined.

Lemma other_conditions_are_kept_witness :
  "PodsReady" ≠ WorkloadAdmitted ∧ "PodsReady" ≠ WorkloadEvicted
  ∧ conditionOfType
      (Conditions (kueue.Status
                     (SetEvictedCondition 200 201 tests.waitingWorkload
                        WorkloadEvictedByPodsReadyTimeout "pods not ready")))
      "PodsReady"
    = Some (mkCondition "PodsReady" ConditionFalse 150 "PodsNotReady" "" 0).
Proof.
  assert (H1 : "PodsReady" ≠ WorkloadAdmitted) by discriminate.
  assert (H2 : "PodsReady" ≠ WorkloadEvicted) by discriminate.
  split; [exact H1|]. split; [exact H2|].
  destruct (other_conditions_are_kept id 200 200 201 tests.waitingWorkload
              (mkAdmission "cq" []) WorkloadEvictedByPodsReadyTimeout "pods not ready"
              "PodsReady" H1 H2) as [Hevicted _].
  rewrite Hevicted. reflexivity.
Defined.

Lemma Key_injective_witness :
  hasNoSlash (Namespace tests.waitingWorkload)
  ∧ (Key tests.waitingWorkload = Key tests.waitingWorkload →
     Namespace tests.waitingWorkload = Namespace tests.waitingWorkload
     ∧ Name tests.waitingWorkload = Name tests.waitingWorkload).
Proof.
  assert (Hns : hasNoSlash (Namespace tests.waitingWorkload)).
  { decide_by_computation. }
  split; [exact Hns|].
  destruct (Key_injective tests.waitingWorkload tests.waitingWorkload Hns Hns)
    as [Hkey _].
  exact Hkey.
Defined.

Lemma Status_Message_order_free_witness :
  ["flavor two not found"; "flavor one not found"]
  ≡ₚ ["flavor one not found"; "flavor two not found"]
  ∧ (Status_Message
       (Some (mkStatus ["flavor two not found"; "flavor one not found"] None))).1
    = "flavor one not found, flavor two not found".
Proof.
  assert (Hperm : ["flavor two not found"; "flavor one not found"]
                  ≡ₚ ["flavor one not found"; "flavor two not found"])
    by apply Permutation_swap.
  split; [exact Hperm|].
  destruct (Status_Message_order_free
              (mkStatus ["flavor two not found"; "flavor one not found"] None)
              (mkStatus ["flavor one not found"; "flavor two not found"] None)
              Hperm eq_refl) as [Hmessage _].
  rewrite Hmessage. vm_compute. reflexivity.
Defined.

(** "multiple specs, fits borrowing": the pod set [driver] has the flavor
    [default] for [cpu], and that flavor passed the gates. *)
Lemma assigned_flavor_passed_the_gates_witness :
  indexConsistent tests.borrowingQueue
  ∧ ∃ a ps fa,
      tests.run tests.borrowingWorkload tests.borrowingQueue = Some a
      ∧ asg_PodSets a !! 0%nat = Some ps
      ∧ psa_Flavors ps !! "cpu" = Some fa
      ∧ fa_Name fa = "default"
      ∧ ∃ podSet rg flvQuotas,
          PodSets (Spec (Obj tests.borrowingWorkload)) !! 0%nat = Some podSet
          ∧ RGByResource tests.borrowingQueue !! "cpu" = Some rg
          ∧ flvQuotas ∈ Flavors rg
          ∧ fq_Name flvQuotas = fa_Name fa
          ∧ passesGates (H := reference.helpers) tests.resourceFlavors
              (ps_TemplateSpec podSet) rg (fa_Name fa)
          ∧ fa_Mode fa ≠ NoFit.
Proof.
  assert (Hidx : indexConsistent tests.borrowingQueue) by decide_by_computation.
  split; [exact Hidx|].
  destruct (tests.run tests.borrowingWorkload tests.borrowingQueue) as [a|] eqn:Hrun;
    [|by vm_compute in Hrun].
  destruct (asg_PodSets a !! 0%nat) as [ps|] eqn:Hps; [|exfalso; compute_run Hrun].
  destruct (psa_Flavors ps !! "cpu") as [fa|] eqn:Hfa; [|exfalso; compute_run Hrun].
  exists a, ps, fa. split; [done|]. split; [done|]. split; [done|].
  split; [compute_run Hrun|].
  exact (assigned_flavor_passed_the_gates (H := reference.helpers)
           tests.borrowingWorkload tests.resourceFlavors tests.borrowingQueue a 0 ps
           "cpu" fa Hidx Hrun Hps Hfa).
Defined.

(** In the same run, [cpu] and [memory] are of one resource group and get
    one flavor. *)
Lemma resource_group_gets_one_flavor_witness :
  indexConsistent tests.borrowingQueue
  ∧ RGByResource tests.borrowingQueue !! "cpu"
    = RGByResource tests.borrowingQueue !! "memory"
  ∧ ∃ a ps fa1 fa2,
      tests.run tests.borrowingWorkload tests.borrowingQueue = Some a
      ∧ asg_PodSets a !! 1%nat = Some ps
      ∧ psa_Flavors ps !! "cpu" = Some fa1
      ∧ psa_Flavors ps !! "memory" = Some fa2
      ∧ fa_Name fa1 = fa_Name fa2.
Proof.
  assert (Hidx : indexConsistent tests.borrowingQueue) by decide_by_computation.
  split; [exact Hidx|]. split; [vm_compute; reflexivity|].
  destruct (tests.run tests.borrowingWorkload tests.borrowingQueue) as [a|] eqn:Hrun;
    [|by vm_compute in Hrun].
  destruct (asg_PodSets a !! 1%nat) as [ps|] eqn:Hps; [|exfalso; compute_run Hrun].
  destruct (psa_Flavors ps !! "cpu") as [fa1|] eqn:Hfa1; [|exfalso; compute_run Hrun].
  destruct (psa_Flavors ps !! "memory") as [fa2|] eqn:Hfa2; [|exfalso; compute_run Hrun].
  exists a, ps, fa1, fa2. split; [done|]. split; [done|]. split; [done|].
  split; [done|].
  assert (Hsame : RGByResource tests.borrowingQueue !! "cpu"
                  = RGByResource tests.borrowingQueue !! "memory")
    by (vm_compute; reflexivity).
  exact (resource_group_gets_one_flavor (H := reference.helpers)
           tests.borrowingWorkload tests.resourceFlavors tests.borrowingQueue a 1 ps
           "cpu" "memory" fa1 fa2 Hidx Hrun Hps Hfa1 Hfa2 Hsame).
Defined.

(** "resource not listed in clusterQueue": the pod set is assigned
    nothing. *)
Lemma pod_set_is_assigned_all_or_nothing_witness :
  indexConsistent tests.cpuOnlyQueue
  ∧ ∃ a ps,
      tests.run tests.gpuWorkload tests.cpuOnlyQueue = Some a
      ∧ asg_PodSets a !! 0%nat = Some ps
      ∧ psa_Flavors ps = ∅
      ∧ ((psa_Flavors ps = ∅ ∧ is_Some (psa_Status ps) ∧ psa_Requests ps ≠ []
          ∧ PodSetAssignment_RepresentativeMode ps = NoFit)
         ∨ ((∀ r, is_Some (psa_Flavors ps !! r) ↔ r ∈ (psa_Requests ps).*1)
            ∧ Status_IsError (psa_Status ps) = false
            ∧ PodSetAssignment_RepresentativeMode ps ≠ NoFit)).
Proof.
  assert (Hidx : indexConsistent tests.cpuOnlyQueue) by decide_by_computation.
  split; [exact Hidx|].
  destruct (tests.run tests.gpuWorkload tests.cpuOnlyQueue) as [a|] eqn:Hrun;
    [|by vm_compute in Hrun].
  destruct (asg_PodSets a !! 0%nat) as [ps|] eqn:Hps; [|exfalso; compute_run Hrun].
  exists a, ps. split; [done|]. split; [done|]. split; [compute_run Hrun|].
  exact (pod_set_is_assigned_all_or_nothing (H := reference.helpers)
           tests.gpuWorkload tests.resourceFlavors tests.cpuOnlyQueue a 0 ps
           Hidx Hrun Hps).
Defined.

(** The first of two pod sets fails: the result holds that pod set
    alone. *)
Lemma assignment_stops_at_first_failure_witness :
  indexConsistent tests.cpuOnlyQueue
  ∧ ∃ a ps,
      tests.run tests.gpuThenCpuWorkload tests.cpuOnlyQueue = Some a
      ∧ asg_PodSets a !! 0%nat = Some ps
      ∧ PodSetAssignment_RepresentativeMode ps = NoFit
      ∧ length (TotalRequests tests.gpuThenCpuWorkload) = 2%nat
      ∧ length (asg_PodSets a) = 1%nat.
Proof.
  assert (Hidx : indexConsistent tests.cpuOnlyQueue) by decide_by_computation.
  split; [exact Hidx|].
  destruct (tests.run tests.gpuThenCpuWorkload tests.cpuOnlyQueue) as [a|] eqn:Hrun;
    [|by vm_compute in Hrun].
  destruct (asg_PodSets a !! 0%nat) as [ps|] eqn:Hps; [|exfalso; compute_run Hrun].
  assert (Hmode : PodSetAssignment_RepresentativeMode ps = NoFit) by compute_run Hrun.
  exists a, ps. split; [done|]. split; [done|]. split; [done|]. split; [reflexivity|].
  destruct (assignment_stops_at_first_failure (H := reference.helpers)
              tests.gpuThenCpuWorkload tests.resourceFlavors tests.cpuOnlyQueue a
              Hidx Hrun) as (_ & _ & Hlast & _).
  exact (Hlast 0%nat ps Hps Hmode).
Defined.

Lemma NoFit_assignment_borrows_nothing_witness :
  indexConsistent tests.cpuOnlyQueue
  ∧ ∃ a,
      tests.run tests.gpuWorkload tests.cpuOnlyQueue = Some a
      ∧ (Assignment_RepresentativeMode a).1 = NoFit
      ∧ TotalBorrow a = ∅ ∧ Borrows a = false.
Proof.
  assert (Hidx : indexConsistent tests.cpuOnlyQueue) by decide_by_computation.
  split; [exact Hidx|].
  destruct (tests.run tests.gpuWorkload tests.cpuOnlyQueue) as [a|] eqn:Hrun;
    [|by vm_compute in Hrun].
  assert (Hmode : (Assignment_RepresentativeMode a).1 = NoFit) by compute_run Hrun.
  exists a. split; [done|]. split; [done|].
  exact (NoFit_assignment_borrows_nothing (H := reference.helpers)
           tests.gpuWorkload tests.resourceFlavors tests.cpuOnlyQueue a Hidx Hrun Hmode).
Defined.

(** "multiple specs, fits borrowing" fits, and has nothing to say. *)
Lemma message_is_empty_exactly_when_Fit_witness :
  indexConsistent tests.borrowingQueue
  ∧ Forall (λ podSet, NoDup ((psr_Requests podSet).*1))
      (TotalRequests tests.borrowingWorkload)
  ∧ ∃ a,
      tests.run tests.borrowingWorkload tests.borrowingQueue = Some a
      ∧ (Assignment_RepresentativeMode a).1 = Fit
      ∧ (Assignment_Message a).1 = "".
Proof.
  assert (Hidx : indexConsistent tests.borrowingQueue) by decide_by_computation.
  assert (Hnd : Forall (λ podSet, NoDup ((psr_Requests podSet).*1))
                  (TotalRequests tests.borrowingWorkload)) by decide_by_computation.
  split; [exact Hidx|]. split; [exact Hnd|].
  destruct (tests.run tests.borrowingWorkload tests.borrowingQueue) as [a|] eqn:Hrun;
    [|by vm_compute in Hrun].
  assert (Hmode : (Assignment_RepresentativeMode a).1 = Fit) by compute_run Hrun.
  assert (Hne : asg_PodSets a ≠ []) by (compute_run Hrun; discriminate).
  exists a. split; [done|]. split; [done|].
  destruct (message_is_empty_exactly_when_Fit (H := reference.helpers)
              tests.borrowingWorkload tests.resourceFlavors tests.borrowingQueue a
              Hidx Hnd Hrun) as [_ Hmessage].
  by apply (Hmessage Hne).
Defined.

(** The message of "resource not listed in clusterQueue". *)
Example message_of_resource_not_listed :
  ∃ a, tests.run tests.gpuWorkload tests.cpuOnlyQueue = Some a
       ∧ (Assignment_Message a).1
         = "couldn't assign flavors to pod set main: "
           +:+ "resource example.com/gpu unavailable in ClusterQueue".
Proof. eexists. split; vm_compute; reflexivity. Qed.

Lemma AssignFlavors_does_not_panic_witness :
  groupsWellFormed tests.borrowingQueue
  ∧ (length (TotalRequests tests.borrowingWorkload)
     <= length (PodSets (Spec (Obj tests.borrowingWorkload))))%nat
  ∧ is_Some (tests.run tests.borrowingWorkload tests.borrowingQueue).
Proof.
  assert (Hwf : groupsWellFormed tests.borrowingQueue) by decide_by_computation.
  assert (Hlen : (length (TotalRequests tests.borrowingWorkload)
                  <= length (PodSets (Spec (Obj tests.borrowingWorkload))))%nat)
    by (vm_compute; lia).
  split; [exact Hwf|]. split; [exact Hlen|].
  exact (AssignFlavors_does_not_panic (H := reference.helpers) tests.borrowingWorkload
           tests.resourceFlavors tests.borrowingQueue Hwf Hlen).
Defined.

(** A flavor that lacks the quota of a covered resource makes the assigner
    panic. *)
Example AssignFlavors_panics_without_quota :
  tests.run (tests.infoOf [(mkPodSet "main" 1 tests.plainSpec, [("cpu", 1000%Z)])])
    (tests.queueOf [mkResourceGroup {[ "cpu" ]} [mkFlavorQuotas "one" ∅] ∅] ∅ None)
  = None.
Proof. vm_compute. reflexivity. Qed.

(** "multiple specs, fits borrowing": the workload uses 10 CPUs of a
    nominal quota of 2, and borrows 8; the second pod set alone would be
    6 over. *)
Lemma total_borrow_is_excess_over_nominal_witness :
  indexConsistent tests.borrowingQueue
  ∧ groupsWellFormed tests.borrowingQueue
  ∧ queueInRange tests.borrowingQueue
  ∧ workloadWellFormed tests.borrowingWorkload
  ∧ ∃ a,
      tests.run tests.borrowingWorkload tests.borrowingQueue = Some a
      ∧ (Assignment_RepresentativeMode a).1 = Fit
      ∧ frq_lookup (TotalBorrow a) "default" "cpu" = Some 8000%Z
      ∧ assignedTo (asg_PodSets a) "default" "cpu"
      ∧ excessOverNominal tests.borrowingQueue "default" "cpu"
          (workloadUsage (asg_PodSets a) "default" "cpu") = Some 8000%Z.
Proof.
  assert (Hidx : indexConsistent tests.borrowingQueue) by decide_by_computation.
  assert (Hwf : groupsWellFormed tests.borrowingQueue) by decide_by_computation.
  assert (Hcq : queueInRange tests.borrowingQueue) by decide_by_computation.
  assert (Hwl : workloadWellFormed tests.borrowingWorkload) by decide_by_computation.
  split; [exact Hidx|]. split; [exact Hwf|]. split; [exact Hcq|]. split; [exact Hwl|].
  destruct (tests.run tests.borrowingWorkload tests.borrowingQueue) as [a|] eqn:Hrun;
    [|by vm_compute in Hrun].
  assert (Hmode : (Assignment_RepresentativeMode a).1 = Fit) by compute_run Hrun.
  assert (Hborrow : frq_lookup (TotalBorrow a) "default" "cpu" = Some 8000%Z)
    by compute_run Hrun.
  exists a. split; [done|]. split; [done|]. split; [done|].
  exact (proj1 (total_borrow_is_excess_over_nominal (H := reference.helpers)
                  tests.borrowingWorkload tests.resourceFlavors tests.borrowingQueue a
                  Hidx Hwf Hcq Hwl Hrun Hmode "default" "cpu" 8000%Z) Hborrow).
Defined.

(** Scenario S6: 2 CPUs stay at [Preempt] past the borrowing limit, and 1
    CPU fits. *)
Lemma fitsResourceQuota_monotone_witness :
  fitCheckInRange tests.pastMaxQueue "one" "cpu" 2000 tests.pastMaxQuota
  ∧ (0 <= 1000 <= 2000)%Z
  ∧ (fitsResourceQuota (H := reference.helpers) "one" "cpu" 2000 tests.pastMaxQueue
       tests.pastMaxQuota).1.1 = Preempt
  ∧ (fitsResourceQuota (H := reference.helpers) "one" "cpu" 1000 tests.pastMaxQueue
       tests.pastMaxQuota).1.1 = Fit
  ∧ (mode_int (fitsResourceQuota (H := reference.helpers) "one" "cpu" 2000
                 tests.pastMaxQueue tests.pastMaxQuota).1.1
     <= mode_int (fitsResourceQuota (H := reference.helpers) "one" "cpu" 1000
                    tests.pastMaxQueue tests.pastMaxQuota).1.1)%Z.
Proof.
  assert (Hrange : fitCheckInRange tests.pastMaxQueue "one" "cpu" 2000 tests.pastMaxQuota).
  { split; try (intros limit [= <-]); by vm_compute. }
  assert (Hle : (0 <= 1000 <= 2000)%Z) by lia.
  split; [exact Hrange|]. split; [exact Hle|].
  split; [vm_compute; reflexivity|]. split; [vm_compute; reflexivity|].
  destruct (fitsResourceQuota_monotone (H := reference.helpers) "one" "cpu" 2000 1000
              tests.pastMaxQueue tests.pastMaxQuota Hrange Hle) as [Hmode _].
  exact Hmode.
Defined.

Lemma requests_survive_the_resource_list_witness :
  NoDup ([("cpu", 1500%Z); ("memory", tests.Gi)].*1)
  ∧ newRequests (H := reference.quantityHelpers)
      (ToResourceList [("cpu", 1500%Z); ("memory", tests.Gi)])
    = [("cpu", 1500%Z); ("memory", tests.Gi)]
  ∧ ∀ rv, rv ∈ newRequests (H := reference.quantityHelpers)
                 (ToResourceList [("cpu", 1500%Z); ("memory", tests.Gi)])
          ↔ rv ∈ [("cpu", 1500%Z); ("memory", tests.Gi)].
Proof.
  assert (Hnd : NoDup ([("cpu", 1500%Z); ("memory", tests.Gi)].*1))
    by decide_by_computation.
  split; [exact Hnd|]. split; [vm_compute; reflexivity|].
  destruct (requests_survive_the_resource_list (H := reference.quantityHelpers)
              [("cpu", 1500%Z); ("memory", tests.Gi)] Hnd) as (_ & _ & Hentries & _).
  exact Hentries.
Defined.

(** The pending workload of [TestNewInfo] on "resource not listed in
    clusterQueue". *)
Lemma pending_info_is_assignable_witness :
  Admission_ (kueue.Status tests.pendingWorkload) = None
  ∧ groupsWellFormed tests.cpuOnlyQueue
  ∧ is_Some (AssignFlavors (H := reference.helpers)
               (NewInfo (H := reference.quantityHelpers) tests.pendingContainerRequests
                  tests.pendingWorkload)
               tests.resourceFlavors tests.cpuOnlyQueue).
Proof.
  assert (Hadm : Admission_ (kueue.Status tests.pendingWorkload) = None) by reflexivity.
  assert (Hwf : groupsWellFormed tests.cpuOnlyQueue) by decide_by_computation.
  split; [exact Hadm|]. split; [exact Hwf|].
  destruct (pending_info_is_assignable (H := reference.helpers)
              (H0 := reference.quantityHelpers) tests.pendingContainerRequests
              tests.pendingWorkload tests.resourceFlavors tests.cpuOnlyQueue Hadm Hwf)
    as (_ & _ & _ & _ & Hrun).
  exact Hrun.
Defined.

(** "multiple specs, fits borrowing", admitted and read back. *)
Lemma admitted_info_matches_assignment_witness :
  indexConsistent tests.borrowingQueue
  ∧ Forall (λ podSet, NoDup ((psr_Requests podSet).*1))
      (TotalRequests tests.borrowingWorkload)
  ∧ ∃ a w',
      tests.run tests.borrowingWorkload tests.borrowingQueue = Some a
      ∧ SetAdmission 200 200 201 (Obj tests.borrowingWorkload)
          (Some (mkAdmission "cq" (Assignment_ToAPI a))) = Some w'
      ∧ info_ClusterQueue
          (NewInfo (H := reference.quantityHelpers) tests.pendingContainerRequests w')
        = "cq"
      ∧ length (TotalRequests
                  (NewInfo (H := reference.quantityHelpers)
                     tests.pendingContainerRequests w'))
        = length (asg_PodSets a).
Proof.
  assert (Hidx : indexConsistent tests.borrowingQueue) by decide_by_computation.
  assert (Hnd : Forall (λ podSet, NoDup ((psr_Requests podSet).*1))
                  (TotalRequests tests.borrowingWorkload)) by decide_by_computation.
  split; [exact Hidx|]. split; [exact Hnd|].
  destruct (tests.run tests.borrowingWorkload tests.borrowingQueue) as [a|] eqn:Hrun;
    [|by vm_compute in Hrun].
  destruct (admitted_info_matches_assignment (H := reference.helpers)
              (H0 := reference.quantityHelpers) tests.pendingContainerRequests
              tests.borrowingWorkload tests.resourceFlavors tests.borrowingQueue a
              200 200 201 (Obj tests.borrowingWorkload) "cq" Hidx Hnd Hrun)
    as (w' & Hset & _ & Hqueue & Hlen & _).
  exists a, w'. by split_and!.
Defined.

(** "past max, but can preempt in ClusterQueue": the 2 CPUs of the pod set
    are within the nominal quota of 2, so the flavor is at [Preempt]. *)
Lemma assigned_mode_is_explained_by_usage_witness :
  indexConsistent tests.pastMaxQueue
  ∧ groupsWellFormed tests.pastMaxQueue
  ∧ queueInRange tests.pastMaxQueue
  ∧ workloadWellFormed tests.pastMaxWorkload
  ∧ ∃ a ps fa,
      tests.run tests.pastMaxWorkload tests.pastMaxQueue = Some a
      ∧ asg_PodSets a !! 0%nat = Some ps
      ∧ psa_Flavors ps !! "cpu" = Some fa
      ∧ fa_Mode fa = Preempt
      ∧ ∃ rQuota,
          quotaOf tests.pastMaxQueue (fa_Name fa) "cpu" = Some rQuota
          ∧ modeExplained tests.pastMaxQueue (fa_Name fa) "cpu" rQuota
              (workloadUsage (take 1 (asg_PodSets a)) (fa_Name fa) "cpu") fa.
Proof.
  assert (Hidx : indexConsistent tests.pastMaxQueue) by decide_by_computation.
  assert (Hwf : groupsWellFormed tests.pastMaxQueue) by decide_by_computation.
  assert (Hcq : queueInRange tests.pastMaxQueue) by decide_by_computation.
  assert (Hwl : workloadWellFormed tests.pastMaxWorkload) by decide_by_computation.
  split; [exact Hidx|]. split; [exact Hwf|]. split; [exact Hcq|]. split; [exact Hwl|].
  destruct (tests.run tests.pastMaxWorkload tests.pastMaxQueue) as [a|] eqn:Hrun;
    [|by vm_compute in Hrun].
  destruct (asg_PodSets a !! 0%nat) as [ps|] eqn:Hps; [|exfalso; compute_run Hrun].
  destruct (psa_Flavors ps !! "cpu") as [fa|] eqn:Hfa; [|exfalso; compute_run Hrun].
  exists a, ps, fa. split; [done|]. split; [done|]. split; [done|].
  split; [compute_run Hrun|].
  destruct (assigned_mode_is_explained_by_usage (H := reference.helpers)
              tests.pastMaxWorkload tests.resourceFlavors tests.pastMaxQueue a
              Hidx Hwf Hcq Hwl Hrun) as [_ Hexplained].
  exact (Hexplained 0%nat ps "cpu" fa Hps Hfa).
Defined.

End FurtherExamples.
